(** * Pixel Heist: guard AI, line of sight, loot and map import

    A shallow embedding of the logic modules of the Pixel Heist game
    ([games/pixel_heist/logic/guard.py], [collision.py], [loot_system.py],
    [map_loader.py], [player.py]) together with the properties its
    specification states about them.

    Conventions of the embedding.
    - A Python [float] is a real number ([R]): rounding is not modelled, so
      every arithmetic identity below is the exact one.  Comparisons are the
      decidable order of [R] turned into booleans.
    - A Python [int] is a [Z]; list positions are [nat].
    - An exception is a value of [exn]; code that can raise lives in the
      [result] monad.
    - Draws of the global random generator are explicit arguments.
    - What pygame and the [math] module provide ([Rect.colliderect],
      [Vector2.normalize], [atan2], ...) is modelled by its documented
      behaviour.  The coordinates of a [pygame.Rect] are C [int]s: a
      Python [int] assigned to one must fit 32 bits ([TypeError]
      otherwise), and a float is converted on the way in.
    - Drawing (surfaces, sprite sheets, animation frames) is left out; a
      sprite keeps only its rectangle. *)

From Stdlib Require Import Reals Lra Lia ZArith List.
From stdpp Require Import gmap strings pretty.

Local Open Scope R_scope.

(* ===================================================================== *)
(** * Python values: exceptions, float comparison, conversions          *)
(* ===================================================================== *)

Inductive exn : Set :=
| ValueError
| ZeroDivisionError
| IndexError
| TypeError.

Inductive result (A : Type) : Type :=
| Ok (a : A)
| Raise (e : exn).
Arguments Ok {A} a.
Arguments Raise {A} e.

Definition rbind {A B} (m : result A) (k : A -> result B) : result B :=
  match m with
  | Ok a => k a
  | Raise e => Raise e
  end.

Notation "x <~ m ;; k" := (rbind m (fun x => k))
  (at level 100, m at next level, right associativity).

Definition Rltb (x y : R) : bool := if Rlt_dec x y then true else false.
Definition Rleb (x y : R) : bool := if Rle_dec x y then true else false.
Definition Reqb (x y : R) : bool := if Req_dec_T x y then true else false.

(** [a / b] on floats: Python raises on a zero divisor. *)
Definition pydiv (a b : R) : result R :=
  if Reqb b 0 then Raise ZeroDivisionError else Ok (a / b).

(** [int(x)] and the C cast pygame applies to float coordinates: truncation
    toward zero. *)
Definition trunc (x : R) : Z :=
  if Rle_dec 0 x then Int_part x else (- Int_part (- x))%Z.

(** [x % m] on floats for a positive modulus: the result lies in [[0, m)]. *)
Definition pymod (x m : R) : R := x - m * IZR (Int_part (x / m)).

(* ===================================================================== *)
(** * loot_system.py                                                     *)
(* ===================================================================== *)

Module Loot.

Inductive LootType : Set := CASH | JEWELS | ARTWORK | ARTIFACT | DOCUMENT.

Definition LootType_eqb (a b : LootType) : bool :=
  match a, b with
  | CASH, CASH | JEWELS, JEWELS | ARTWORK, ARTWORK
  | ARTIFACT, ARTIFACT | DOCUMENT, DOCUMENT => true
  | _, _ => false
  end.

(** [dict.get(key, default)] on a dict written as a literal. *)
Fixpoint dict_get {V} (d : list (LootType * V)) (k : LootType) (default : V) : V :=
  match d with
  | [] => default
  | (k', v) :: d' => if LootType_eqb k' k then v else dict_get d' k default
  end.

Definition base_times : list (LootType * R) :=
  [ (CASH, 1); (JEWELS, 2); (ARTWORK, 3); (ARTIFACT, 4); (DOCUMENT, 3 / 2) ].

(** [LootItem._get_steal_time], as a function of the two attributes it
    reads. *)
Definition _get_steal_time (loot_type : LootType) (value : Z) : R :=
  let value_factor := 1 + IZR value / 1000 in
  dict_get base_times loot_type 2 * value_factor.

(** The attributes of a [LootItem] the stealing logic uses; [uid] is the
    identity of the Python object. *)
Record LootItem : Type := mkLootItem {
  uid : nat;
  center : Z * Z;
  loot_type : LootType;
  value : Z;
  steal_time : R;
  being_stolen : bool;
  steal_progress : R
}.

(** [LootItem.__init__] *)
Definition LootItem_init (id : nat) (x y : Z) (t : LootType) (v : Z) : LootItem :=
  {| uid := id; center := (x, y); loot_type := t; value := v;
     steal_time := _get_steal_time t v;
     being_stolen := false; steal_progress := 0 |}.

Definition set_stealing (it : LootItem) (b : bool) (p : R) : LootItem :=
  {| uid := uid it; center := center it; loot_type := loot_type it;
     value := value it; steal_time := steal_time it;
     being_stolen := b; steal_progress := p |}.

(** [LootItem.start_stealing]: the returned flag and the item afterwards. *)
Definition start_stealing (it : LootItem) : bool * LootItem :=
  if negb (being_stolen it) then (true, set_stealing it true 0)
  else (false, it).

(** [LootItem.stop_stealing] *)
Definition stop_stealing (it : LootItem) : bool * LootItem :=
  if being_stolen it then (true, set_stealing it false 0)
  else (false, it).

(** [LootItem.update_stealing] *)
Definition update_stealing (it : LootItem) (dt : R) : result (bool * LootItem) :=
  if being_stolen it then
    progress_per_second <~ pydiv 100 (steal_time it) ;;
    let it' := set_stealing it true (steal_progress it + progress_per_second * dt) in
    if Rleb 100 (steal_progress it') then Ok (true, it') else Ok (false, it')
  else Ok (false, it).

(** ** LootManager

    [loot_sprites] is a pygame [Group]: a set of sprite objects, keyed here
    by object identity.  [allocated] counts the [LootItem] objects created so
    far and serves as the identity of the next one. *)
Record LootManager : Type := mkLootManager {
  loot_sprites : gmap nat LootItem;
  total_value : Z;
  collected_value : Z;
  allocated : nat
}.

(** [loot_configs]: weight and value range per type. *)
Definition loot_configs : list (LootType * (Z * (Z * Z))) :=
  [ (CASH, (40, (100, 500)));
    (JEWELS, (30, (300, 800)));
    (ARTWORK, (15, (500, 1500)));
    (ARTIFACT, (10, (1000, 2000)));
    (DOCUMENT, (5, (2000, 5000))) ]%Z.

(** [random.choices(population, weights)[0]] for a raw draw [r]. *)
Fixpoint pick_weighted (l : list (LootType * Z)) (r : Z) (last : LootType) : LootType :=
  match l with
  | [] => last
  | (t, w) :: l' => if (r <? w)%Z then t else pick_weighted l' (r - w) t
  end.

Definition choices (draw : Z) : LootType :=
  let weights := map (fun c => (fst c, fst (snd c))) loot_configs in
  let total := fold_right Z.add 0%Z (map snd weights) in
  pick_weighted weights (draw mod total) CASH.

(** [random.randint(a, b)] for a raw draw. *)
Definition randint (a b draw : Z) : Z := (a + draw mod (b - a + 1))%Z.

(** [LootManager.generate_loot]; [draw_type] and [draw_value] are the raw
    draws consumed when the type or the value is left out. *)
Definition generate_loot (m : LootManager) (x y : Z)
    (loot_type : option LootType) (value : option Z)
    (draw_type draw_value : Z) : LootItem * LootManager :=
  let loot_type :=
    match loot_type with
    | None => choices draw_type
    | Some t => t
    end in
  let value :=
    match value with
    | None =>
        (* [self.loot_configs[loot_type]]: every type is a key *)
        let value_range := snd (dict_get loot_configs loot_type (0, (0, 0))%Z) in
        randint (fst value_range) (snd value_range) draw_value
    | Some v => v
    end in
  let loot := LootItem_init (allocated m) x y loot_type value in
  (loot,
   {| loot_sprites := <[uid loot := loot]> (loot_sprites m);
      total_value := (total_value m + value)%Z;
      collected_value := collected_value m;
      allocated := S (allocated m) |}).

(** [LootManager.collect_loot]: membership in the group is by object
    identity, and the value read is that of the very object found there. *)
Definition collect_loot (m : LootManager) (loot_item : LootItem) : Z * LootManager :=
  match loot_sprites m !! uid loot_item with
  | Some it =>
      (value it,
       {| loot_sprites := delete (uid loot_item) (loot_sprites m);
          total_value := total_value m;
          collected_value := (collected_value m + value it)%Z;
          allocated := allocated m |})
  | None => (0%Z, m)
  end.

(** [LootManager.create_test_loot] *)
Definition create_test_loot (m : LootManager) : LootManager :=
  let m := snd (generate_loot m 100 100 (Some CASH) (Some 200%Z) 0 0) in
  let m := snd (generate_loot m 200 150 (Some JEWELS) (Some 500%Z) 0 0) in
  let m := snd (generate_loot m 300 200 (Some ARTWORK) (Some 1000%Z) 0 0) in
  let m := snd (generate_loot m 400 250 (Some ARTIFACT) (Some 1500%Z) 0 0) in
  snd (generate_loot m 500 300 (Some DOCUMENT) (Some 3000%Z) 0 0).

(** [LootManager.__init__] *)
Definition LootManager_init : LootManager :=
  create_test_loot
    {| loot_sprites := ∅; total_value := 0; collected_value := 0; allocated := 0 |}.

(** Sum of the values of the live loot items. *)
Definition live_value (m : LootManager) : Z :=
  map_fold (fun _ it acc => (value it + acc)%Z) 0%Z (loot_sprites m).

(** The accounting invariant. *)
Definition accounts_balance (m : LootManager) : Prop :=
  (collected_value m + live_value m = total_value m)%Z.

(** The allocation discipline: no live item carries an identity that is
    still to be handed out. *)
Definition identities_ok (m : LootManager) : Prop :=
  forall k, (allocated m <= k)%nat -> loot_sprites m !! k = None.

(** The managers a program can hold: the constructed one, and whatever
    [generate_loot] and [collect_loot] make of it. *)
Inductive reachable : LootManager -> Prop :=
| reach_init : reachable LootManager_init
| reach_generate m x y t v dt dv :
    reachable m -> reachable (snd (generate_loot m x y t v dt dv))
| reach_collect m it :
    reachable m -> reachable (snd (collect_loot m it)).

End Loot.

(* ===================================================================== *)
(** * pygame rectangles and vectors                                      *)
(* ===================================================================== *)

Module Geometry.

(** [pygame.Rect]: integer left, top, width, height. *)
Record Rect : Set := mkRect { left : Z; top : Z; width : Z; height : Z }.

Definition right (r : Rect) : Z := (left r + width r)%Z.
Definition bottom (r : Rect) : Z := (top r + height r)%Z.

(** [Rect.colliderect]: rectangles of zero width or height collide with
    nothing; otherwise the open overlap test on the normalised sides. *)
Definition colliderect (a b : Rect) : bool :=
  if ((width a =? 0) || (height a =? 0) || (width b =? 0) || (height b =? 0))%Z
  then false
  else
    ((Z.min (left a) (right a) <? Z.max (left b) (right b)) &&
     (Z.min (top a) (bottom a) <? Z.max (top b) (bottom b)) &&
     (Z.min (left b) (right b) <? Z.max (left a) (right a)) &&
     (Z.min (top b) (bottom b) <? Z.max (top a) (bottom a)))%Z.

(** The range of a C [int], the type of a rectangle's coordinates. *)
Definition INT_MIN : Z := (-2147483648)%Z.
Definition INT_MAX : Z := 2147483647%Z.

Definition fits_int (z : Z) : bool := ((INT_MIN <=? z) && (z <=? INT_MAX))%Z.

(** C [int] arithmetic as compiled: a result outside the range wraps
    around. *)
Definition wrap_int (z : Z) : Z := ((z - INT_MIN) mod 4294967296 + INT_MIN)%Z.

(** The C cast of a float to [int]: truncation toward zero; a value
    outside the range of [int] converts to [INT_MIN] (what the x86
    conversion yields). *)
Definition int_of_float (x : R) : Z :=
  if fits_int (trunc x) then trunc x else INT_MIN.

(** The nearest integer, halves away from zero. *)
Definition nearest (x : R) : Z :=
  if Rle_dec 0 x then Int_part (x + 1 / 2) else (- Int_part (- x + 1 / 2))%Z.

(** The conversion of a float assigned to a rectangle attribute: to the
    nearest integer, [INT_MIN] outside the range of [int]. *)
Definition int_of_rounded (x : R) : Z :=
  if fits_int (nearest x) then nearest x else INT_MIN.

(** [pygame.Rect(x, y, w, h)] called with float coordinates. *)
Definition Rect_of_floats (x y : R) (w h : Z) : Rect :=
  mkRect (int_of_float x) (int_of_float y) w h.

(** The rectangle of the size of [r] whose centre is [(cx, cy)]. *)
Definition centred (r : Rect) (c : Z * Z) : Rect :=
  mkRect (wrap_int (fst c - width r / 2)) (wrap_int (snd c - height r / 2))
         (width r) (height r).

(** [rect.center = (cx, cy)] with Python [int]s: pygame raises [TypeError]
    when one of them is not a C [int]. *)
Definition set_center (r : Rect) (c : Z * Z) : result Rect :=
  if fits_int (fst c) && fits_int (snd c) then Ok (centred r c)
  else Raise TypeError.

(** [rect.center = (x, y)] with floats. *)
Definition set_center_floats (r : Rect) (x y : R) : Rect :=
  centred r (int_of_rounded x, int_of_rounded y).

(** [rect.center]: the centre a rectangle reports. *)
Definition get_center (r : Rect) : Z * Z :=
  (wrap_int (left r + width r / 2), wrap_int (top r + height r / 2)).

Arguments wrap_int z : simpl never.
Arguments fits_int z : simpl never.

(** [pygame.math.Vector2] *)
Record Vector2 : Type := mkVector2 { vx : R; vy : R }.

Definition vzero : Vector2 := mkVector2 0 0.
Definition vadd (a b : Vector2) : Vector2 := mkVector2 (vx a + vx b) (vy a + vy b).
Definition vsub (a b : Vector2) : Vector2 := mkVector2 (vx a - vx b) (vy a - vy b).
Definition vscale (a : Vector2) (k : R) : Vector2 := mkVector2 (vx a * k) (vy a * k).
Definition vlength (a : Vector2) : R := sqrt (vx a * vx a + vy a * vy a).

(** [Vector2.normalize]: raises [ValueError] on the zero vector. *)
Definition normalize (a : Vector2) : result Vector2 :=
  let l := vlength a in
  if Reqb l 0 then Raise ValueError
  else Ok (mkVector2 (vx a / l) (vy a / l)).

(** [bool(v)] for a vector: false exactly for the zero vector. *)
Definition vtruthy (a : Vector2) : bool :=
  negb (Reqb (vx a) 0 && Reqb (vy a) 0).

(** [math.atan2(y, x)] with the C library's conventions on the axes. *)
Definition atan2 (y x : R) : R :=
  if Rltb 0 x then atan (y / x)
  else if Rltb x 0 then
    (if Rleb 0 y then atan (y / x) + PI else atan (y / x) - PI)
  else if Rltb 0 y then PI / 2
  else if Rltb y 0 then - (PI / 2)
  else 0.

(** [math.degrees] and [math.radians] *)
Definition degrees (a : R) : R := a * (180 / PI).
Definition radians (a : R) : R := a * (PI / 180).

(** [(int(v.x), int(v.y))] can be assigned to a rectangle's centre. *)
Definition representable (v : Vector2) : bool :=
  fits_int (trunc (vx v)) && fits_int (trunc (vy v)).

End Geometry.

(* ===================================================================== *)
(** * collision.py                                                       *)
(* ===================================================================== *)

Module Collision.
Import Geometry.

(** The probe square built around the sample at arc length
    [current_distance]. *)
Definition check_rect (start_pos : R * R) (dx dy current_distance : R) : Rect :=
  let x := fst start_pos + dx * current_distance in
  let y := snd start_pos + dy * current_distance in
  Rect_of_floats (x - 2) (y - 2) 4 4.

(** The [while current_distance < distance] loop.  [None] means the fuel ran
    out before the loop left. *)
Fixpoint cast_ray (fuel : nat) (start_pos : R * R) (dx dy distance : R)
    (walls : list Rect) (step current_distance : R) : option bool :=
  if Rltb current_distance distance then
    match fuel with
    | O => None
    | S fuel' =>
        if existsb (colliderect (check_rect start_pos dx dy current_distance)) walls
        then Some false
        else cast_ray fuel' start_pos dx dy distance walls step
                      (current_distance + step)
    end
  else Some true.

(** [check_line_of_sight(start_pos, end_pos, wall_sprites, step)]; the walls
    are given by their rectangles. *)
Definition check_line_of_sight (fuel : nat) (start_pos end_pos : R * R)
    (wall_sprites : list Rect) (step : R) : option bool :=
  let dx := fst end_pos - fst start_pos in
  let dy := snd end_pos - snd start_pos in
  let distance := sqrt (dx * dx + dy * dy) in
  if Reqb distance 0 then Some true
  else
    let dx := dx / distance in
    let dy := dy / distance in
    cast_ray fuel start_pos dx dy distance wall_sprites step 0.

(** The probe square of the [k]-th sample, as the code computes it. *)
Definition probe (start_pos end_pos : R * R) (step : R) (k : nat) : Rect :=
  let dx := fst end_pos - fst start_pos in
  let dy := snd end_pos - snd start_pos in
  let distance := sqrt (dx * dx + dy * dy) in
  check_rect start_pos (dx / distance) (dy / distance) (INR k * step).

(** The [k]-th sample is taken: it lies before the end of the segment. *)
Definition sampled (start_pos end_pos : R * R) (step : R) (k : nat) : Prop :=
  let dx := fst end_pos - fst start_pos in
  let dy := snd end_pos - snd start_pos in
  INR k * step < sqrt (dx * dx + dy * dy).

(** A point of the plane lies inside a rectangle ([Rect.collidepoint]). *)
Definition inside (r : Rect) (x y : R) : Prop :=
  IZR (left r) <= x < IZR (right r) /\ IZR (top r) <= y < IZR (bottom r).

(** The segment crosses the rectangle: it starts and ends outside it and
    passes through a point inside. *)
Definition crosses (start_pos end_pos : R * R) (r : Rect) : Prop :=
  ~ inside r (fst start_pos) (snd start_pos) /\
  ~ inside r (fst end_pos) (snd end_pos) /\
  exists t, 0 < t < 1 /\
    inside r (fst start_pos + t * (fst end_pos - fst start_pos))
             (snd start_pos + t * (snd end_pos - snd start_pos)).

(** The obstacle is strictly wider than the sampling step, in both
    directions. *)
Definition wider_than (r : Rect) (step : R) : Prop :=
  step < IZR (width r) /\ step < IZR (height r).

(** The point of the segment at arc length [s] from its start. *)
Definition point_at (start_pos end_pos : R * R) (s : R) : R * R :=
  let dx := fst end_pos - fst start_pos in
  let dy := snd end_pos - snd start_pos in
  let distance := sqrt (dx * dx + dy * dy) in
  (fst start_pos + dx / distance * s, snd start_pos + dy / distance * s).

(** The sides of the rectangle are C [int]s, as those of every
    [pygame.Rect] are. *)
Definition int_sides (r : Rect) : Prop :=
  (INT_MIN <= left r /\ right r <= INT_MAX /\
   INT_MIN <= top r /\ bottom r <= INT_MAX)%Z.

End Collision.

(* ===================================================================== *)
(** * guard.py                                                           *)
(* ===================================================================== *)

Module GuardAI.
Import Geometry.

Inductive GuardState : Set :=
| PATROLLING
| SUSPICIOUS
| INVESTIGATING
| ALERTED
| SEARCHING.

(** What the guard reads of the player. *)
Record Player : Type := mkPlayer {
  player_position : Vector2;
  noise_level : R;
  is_crouching : bool
}.

Record Guard : Type := mkGuard {
  position : Vector2;
  velocity : Vector2;
  patrol_points : list (R * R);
  current_patrol_point : nat;
  patrol_wait_time : R;
  wait_timer : R;
  walk_speed : R;
  run_speed : R;
  current_speed : R;
  state : GuardState;
  state_timer : R;
  suspicion_level : Z;
  alert_position : option Vector2;
  view_distance : R;
  view_angle : R;
  view_direction : R;
  rect : Rect
}.

(** Attribute assignments, one per attribute the code writes. *)
Definition set_position (g : Guard) (v : Vector2) : Guard :=
  {| position := v; velocity := velocity g; patrol_points := patrol_points g;
     current_patrol_point := current_patrol_point g;
     patrol_wait_time := patrol_wait_time g; wait_timer := wait_timer g;
     walk_speed := walk_speed g; run_speed := run_speed g;
     current_speed := current_speed g; state := state g;
     state_timer := state_timer g; suspicion_level := suspicion_level g;
     alert_position := alert_position g; view_distance := view_distance g;
     view_angle := view_angle g; view_direction := view_direction g;
     rect := rect g |}.

Definition set_velocity (g : Guard) (v : Vector2) : Guard :=
  {| position := position g; velocity := v; patrol_points := patrol_points g;
     current_patrol_point := current_patrol_point g;
     patrol_wait_time := patrol_wait_time g; wait_timer := wait_timer g;
     walk_speed := walk_speed g; run_speed := run_speed g;
     current_speed := current_speed g; state := state g;
     state_timer := state_timer g; suspicion_level := suspicion_level g;
     alert_position := alert_position g; view_distance := view_distance g;
     view_angle := view_angle g; view_direction := view_direction g;
     rect := rect g |}.

Definition set_current_patrol_point (g : Guard) (v : nat) : Guard :=
  {| position := position g; velocity := velocity g;
     patrol_points := patrol_points g; current_patrol_point := v;
     patrol_wait_time := patrol_wait_time g; wait_timer := wait_timer g;
     walk_speed := walk_speed g; run_speed := run_speed g;
     current_speed := current_speed g; state := state g;
     state_timer := state_timer g; suspicion_level := suspicion_level g;
     alert_position := alert_position g; view_distance := view_distance g;
     view_angle := view_angle g; view_direction := view_direction g;
     rect := rect g |}.

Definition set_wait_timer (g : Guard) (v : R) : Guard :=
  {| position := position g; velocity := velocity g;
     patrol_points := patrol_points g;
     current_patrol_point := current_patrol_point g;
     patrol_wait_time := patrol_wait_time g; wait_timer := v;
     walk_speed := walk_speed g; run_speed := run_speed g;
     current_speed := current_speed g; state := state g;
     state_timer := state_timer g; suspicion_level := suspicion_level g;
     alert_position := alert_position g; view_distance := view_distance g;
     view_angle := view_angle g; view_direction := view_direction g;
     rect := rect g |}.

Definition set_current_speed (g : Guard) (v : R) : Guard :=
  {| position := position g; velocity := velocity g;
     patrol_points := patrol_points g;
     current_patrol_point := current_patrol_point g;
     patrol_wait_time := patrol_wait_time g; wait_timer := wait_timer g;
     walk_speed := walk_speed g; run_speed := run_speed g; current_speed := v;
     state := state g; state_timer := state_timer g;
     suspicion_level := suspicion_level g; alert_position := alert_position g;
     view_distance := view_distance g; view_angle := view_angle g;
     view_direction := view_direction g; rect := rect g |}.

Definition set_state (g : Guard) (v : GuardState) : Guard :=
  {| position := position g; velocity := velocity g;
     patrol_points := patrol_points g;
     current_patrol_point := current_patrol_point g;
     patrol_wait_time := patrol_wait_time g; wait_timer := wait_timer g;
     walk_speed := walk_speed g; run_speed := run_speed g;
     current_speed := current_speed g; state := v;
     state_timer := state_timer g; suspicion_level := suspicion_level g;
     alert_position := alert_position g; view_distance := view_distance g;
     view_angle := view_angle g; view_direction := view_direction g;
     rect := rect g |}.

Definition set_state_timer (g : Guard) (v : R) : Guard :=
  {| position := position g; velocity := velocity g;
     patrol_points := patrol_points g;
     current_patrol_point := current_patrol_point g;
     patrol_wait_time := patrol_wait_time g; wait_timer := wait_timer g;
     walk_speed := walk_speed g; run_speed := run_speed g;
     current_speed := current_speed g; state := state g; state_timer := v;
     suspicion_level := suspicion_level g; alert_position := alert_position g;
     view_distance := view_distance g; view_angle := view_angle g;
     view_direction := view_direction g; rect := rect g |}.

Definition set_suspicion_level (g : Guard) (v : Z) : Guard :=
  {| position := position g; velocity := velocity g;
     patrol_points := patrol_points g;
     current_patrol_point := current_patrol_point g;
     patrol_wait_time := patrol_wait_time g; wait_timer := wait_timer g;
     walk_speed := walk_speed g; run_speed := run_speed g;
     current_speed := current_speed g; state := state g;
     state_timer := state_timer g; suspicion_level := v;
     alert_position := alert_position g; view_distance := view_distance g;
     view_angle := view_angle g; view_direction := view_direction g;
     rect := rect g |}.

Definition set_alert_position (g : Guard) (v : option Vector2) : Guard :=
  {| position := position g; velocity := velocity g;
     patrol_points := patrol_points g;
     current_patrol_point := current_patrol_point g;
     patrol_wait_time := patrol_wait_time g; wait_timer := wait_timer g;
     walk_speed := walk_speed g; run_speed := run_speed g;
     current_speed := current_speed g; state := state g;
     state_timer := state_timer g; suspicion_level := suspicion_level g;
     alert_position := v; view_distance := view_distance g;
     view_angle := view_angle g; view_direction := view_direction g;
     rect := rect g |}.

Definition set_view_direction (g : Guard) (v : R) : Guard :=
  {| position := position g; velocity := velocity g;
     patrol_points := patrol_points g;
     current_patrol_point := current_patrol_point g;
     patrol_wait_time := patrol_wait_time g; wait_timer := wait_timer g;
     walk_speed := walk_speed g; run_speed := run_speed g;
     current_speed := current_speed g; state := state g;
     state_timer := state_timer g; suspicion_level := suspicion_level g;
     alert_position := alert_position g; view_distance := view_distance g;
     view_angle := view_angle g; view_direction := v; rect := rect g |}.

Definition set_rect (g : Guard) (v : Rect) : Guard :=
  {| position := position g; velocity := velocity g;
     patrol_points := patrol_points g;
     current_patrol_point := current_patrol_point g;
     patrol_wait_time := patrol_wait_time g; wait_timer := wait_timer g;
     walk_speed := walk_speed g; run_speed := run_speed g;
     current_speed := current_speed g; state := state g;
     state_timer := state_timer g; suspicion_level := suspicion_level g;
     alert_position := alert_position g; view_distance := view_distance g;
     view_angle := view_angle g; view_direction := view_direction g; rect := v |}.

(** [a or b] on an optional list: [None] and the empty list are false. *)
Definition py_or {A} (a : option (list A)) (b : list A) : list A :=
  match a with
  | None | Some [] => b
  | Some l => l
  end.

(** [l[i]] for a position [i >= 0]. *)
Definition index {A} (l : list A) (i : nat) : result A :=
  match nth_error l i with
  | Some a => Ok a
  | None => Raise IndexError
  end.

(** [a % b] on non-negative ints. *)
Definition pymod_nat (a b : nat) : result nat :=
  match b with
  | O => Raise ZeroDivisionError
  | _ => Ok (a mod b)%nat
  end.

(** [Guard.__init__(x, y, patrol_points)] without a sprite sheet: the sprite
    is the 32 by 32 placeholder. *)
Definition Guard_init (x y : R) (points : option (list (R * R))) : Guard :=
  {| position := mkVector2 x y;
     velocity := mkVector2 0 0;
     patrol_points := py_or points [(x, y)];
     current_patrol_point := 0;
     patrol_wait_time := 2;
     wait_timer := 0;
     walk_speed := 3 / 2;
     run_speed := 3;
     current_speed := 3 / 2;
     state := PATROLLING;
     state_timer := 0;
     suspicion_level := 0;
     alert_position := None;
     view_distance := 150;
     view_angle := 90;
     view_direction := 0;
     rect := set_center_floats (mkRect 0 0 32 32) x y |}.

(** [Guard.alert] *)
Definition alert (g : Guard) (position : Vector2) : Guard :=
  let g := set_alert_position g (Some position) in
  let g := set_state g ALERTED in
  let g := set_state_timer g 0 in
  let g := set_current_speed g (run_speed g) in
  set_suspicion_level g 100.

(** [Guard.move]; [walls] is [None] when the argument is left out. *)
Definition move (g : Guard) (dt : R) (walls : option (list Rect)) : result Guard :=
  let old_position := position g in
  let g := set_position g
             (vadd (position g) (vscale (vscale (velocity g) dt) (current_speed g))) in
  r <~ set_center (rect g) (trunc (vx (position g)), trunc (vy (position g))) ;;
  let g := set_rect g r in
  match walls with
  | Some ((_ :: _) as walls) =>
      let collisions := filter (fun w => colliderect (rect g) w) walls in
      match collisions with
      | _ :: _ =>
          let g := set_position g old_position in
          r <~ set_center (rect g)
                 (trunc (vx (position g)), trunc (vy (position g))) ;;
          let g := set_rect g r in
          Ok (set_velocity g (mkVector2 0 0))
      | [] => Ok g
      end
  | _ => Ok g
  end.

(** [Guard.handle_patrol] *)
Definition handle_patrol (g : Guard) (dt : R) : result Guard :=
  if Rltb 0 (wait_timer g) then
    let g := set_wait_timer g (wait_timer g - dt) in
    Ok (set_velocity g (mkVector2 0 0))
  else
    p <~ index (patrol_points g) (current_patrol_point g) ;;
    let target := mkVector2 (fst p) (snd p) in
    let direction := vsub target (position g) in
    if Rltb (vlength direction) 2 then
      let g := set_wait_timer g (patrol_wait_time g) in
      i <~ pymod_nat (current_patrol_point g + 1) (length (patrol_points g)) ;;
      Ok (set_current_patrol_point g i)
    else
      direction <~ normalize direction ;;
      let g := set_velocity g direction in
      Ok (set_view_direction g (degrees (atan2 (vy direction) (vx direction)))).

(** [Guard.handle_suspicious] *)
Definition handle_suspicious (g : Guard) (dt : R) : result Guard :=
  if Rltb 3 (state_timer g) then
    let g := set_state g PATROLLING in
    Ok (set_state_timer g 0)
  else
    let g := set_view_direction g (sin (state_timer g * 2) * 45) in
    Ok (set_velocity g (mkVector2 0 0)).

(** [Guard.handle_investigation]; [not self.alert_position] holds for [None]
    and for the zero vector. *)
Definition handle_investigation (g : Guard) (dt : R) : result Guard :=
  match alert_position g with
  | None => Ok (set_state g PATROLLING)
  | Some a =>
      if negb (vtruthy a) then Ok (set_state g PATROLLING)
      else
        let direction := vsub a (position g) in
        if Rltb (vlength direction) 5 then
          let g := set_state g SUSPICIOUS in
          let g := set_state_timer g 0 in
          Ok (set_alert_position g None)
        else
          v <~ normalize direction ;;
          let g := set_velocity g v in
          Ok (set_view_direction g (degrees (atan2 (vy direction) (vx direction))))
  end.

(** [Guard.handle_alert] *)
Definition handle_alert (g : Guard) (dt : R) (player : option Player) : result Guard :=
  match player with
  | None =>
      let g := set_state g SEARCHING in
      Ok (set_state_timer g 0)
  | Some player =>
      let direction := vsub (player_position player) (position g) in
      v <~ normalize direction ;;
      let g := set_velocity g v in
      let g := set_view_direction g
                 (degrees (atan2 (vy direction) (vx direction))) in
      Ok (set_current_speed g (run_speed g))
  end.

(** The draws one tick may consume: [random.random()] and
    [random.uniform(0, 360)] in the search, [random.random()] in the
    detection check. *)
Record Draws : Type := mkDraws {
  search_roll : R;
  search_angle : R;
  detect_roll : R
}.

(** [Guard.handle_search] *)
Definition handle_search (g : Guard) (dt : R) (d : Draws) : result Guard :=
  if Rltb 10 (state_timer g) then
    let g := set_state g PATROLLING in
    let g := set_state_timer g 0 in
    Ok (set_current_speed g (walk_speed g))
  else if Rltb (search_roll d) (2 / 100) then
    let angle := search_angle d in
    let g := set_velocity g
               (mkVector2 (cos (radians angle)) (sin (radians angle))) in
    Ok (set_view_direction g angle)
  else Ok g.

(** [Guard.check_player_detection]: the returned flag and the guard
    afterwards; [roll] is the value of [random.random()]. *)
Definition check_player_detection (g : Guard) (player : Player) (roll : R)
    : result (bool * Guard) :=
  let to_player := vsub (player_position player) (position g) in
  let distance := vlength to_player in
  if Rltb (view_distance g) distance then Ok (false, g)
  else
    let angle := degrees (atan2 (vy to_player) (vx to_player)) in
    let angle_diff := Rabs (pymod (angle - view_direction g + 180) 360 - 180) in
    if Rltb (view_angle g / 2) angle_diff then Ok (false, g)
    else
      q <~ pydiv distance (view_distance g) ;;
      let detection_chance := 1 - q in
      let detection_chance := detection_chance * (1 + noise_level player / 100) in
      let detection_chance :=
        if is_crouching player then detection_chance * (1 / 2)
        else detection_chance in
      if Rltb roll detection_chance then
        Ok (true, alert g (player_position player))
      else Ok (false, g).

(** [Guard.update(dt, player, walls)]; the animation step only advances
    frames and is left out. *)
Definition update (g : Guard) (dt : R) (player : option Player)
    (walls : option (list Rect)) (d : Draws) : result Guard :=
  let g := set_state_timer g (state_timer g + dt) in
  g <~ match state g with
       | PATROLLING => handle_patrol g dt
       | SUSPICIOUS => handle_suspicious g dt
       | INVESTIGATING => handle_investigation g dt
       | ALERTED => handle_alert g dt player
       | SEARCHING => handle_search g dt d
       end ;;
  g <~ move g dt walls ;;
  match player with
  | Some p =>
      r <~ check_player_detection g p (detect_roll d) ;;
      Ok (snd r)
  | None => Ok g
  end.

(** The quantities of the detection check, named after the steps of the
    specification. *)
Definition distance_to (g : Guard) (p : Player) : R :=
  vlength (vsub (player_position p) (position g)).

Definition angle_diff (g : Guard) (p : Player) : R :=
  let to_player := vsub (player_position p) (position g) in
  let angle := degrees (atan2 (vy to_player) (vx to_player)) in
  Rabs (pymod (angle - view_direction g + 180) 360 - 180).

(** The detection probability in the specification's words:
    [(1 - distance/view_distance) * (1 + noise/100)], halved if the player
    is crouching. *)
Definition spec_detection_probability
    (distance view_dist noise : R) (crouching : bool) : R :=
  let p := (1 - distance / view_dist) * (1 + noise / 100) in
  if crouching then p / 2 else p.

(** The guards reached from [g0] by ticks that each began on patrol. *)
Inductive patrol_run (g0 : Guard) : Guard -> Prop :=
| patrol_run_start : patrol_run g0 g0
| patrol_run_tick g dt player walls d g' :
    patrol_run g0 g ->
    state g = PATROLLING ->
    update g dt player walls d = Ok g' ->
    patrol_run g0 g'.

(** The guards reached from [g0] by any ticks. *)
Inductive run (g0 : Guard) : Guard -> Prop :=
| run_start : run g0 g0
| run_tick g dt player walls d g' :
    run g0 g ->
    update g dt player walls d = Ok g' ->
    run g0 g'.

(** The guard stands at [(x, y)], which is its whole route. *)
Definition route_is_post (x y : R) (g : Guard) : Prop :=
  patrol_points g = [(x, y)] /\ current_patrol_point g = 0%nat.

Definition at_post (x y : R) (g : Guard) : Prop :=
  route_is_post x y g /\
  position g = mkVector2 x y /\
  velocity g = mkVector2 0 0 /\
  view_distance g = 150.

(** A player standing at (3, 0), making no noise, and draws that never
    trigger a change of search direction. *)
Definition intruder : Player := mkPlayer (mkVector2 3 0) 0 false.
Definition rolls : Draws := mkDraws (1 / 2) 0 0.

(** A player standing on the spawn position (0, 0) of a guard. *)
Definition visitor : Player := mkPlayer (mkVector2 0 0) 0 false.

(** The states a guard built by [Guard(0, 0)] goes through when it sees the
    intruder, runs to it, loses it, gives up the search and goes back on
    patrol.  Route, wait time, speeds and vision are those of the
    constructor throughout. *)
Definition snapshot (position velocity : Vector2) (wait_timer current_speed : R)
    (state : GuardState) (state_timer : R) (suspicion_level : Z)
    (alert_position : option Vector2) (view_direction : R) (rect : Rect) : Guard :=
  {| position := position; velocity := velocity;
     patrol_points := [(0, 0)]; current_patrol_point := 0;
     patrol_wait_time := 2; wait_timer := wait_timer;
     walk_speed := 3 / 2; run_speed := 3; current_speed := current_speed;
     state := state; state_timer := state_timer;
     suspicion_level := suspicion_level; alert_position := alert_position;
     view_distance := 150; view_angle := 90; view_direction := view_direction;
     rect := rect |}.

Definition seen : option Vector2 := Some (mkVector2 3 0).

Definition walk1 : Guard :=
  snapshot (mkVector2 0 0) (mkVector2 0 0) 2 3 ALERTED 0 100 seen 0
    (mkRect (-16) (-16) 32 32).
Definition walk2 : Guard :=
  snapshot (mkVector2 3 0) (mkVector2 1 0) 2 3 ALERTED 0 100 seen 0
    (mkRect (-13) (-16) 32 32).
Definition walk3 : Guard :=
  snapshot (mkVector2 3 0) (mkVector2 1 0) 2 3 SEARCHING 0 100 seen 0
    (mkRect (-13) (-16) 32 32).
Definition walk4 : Guard :=
  snapshot (mkVector2 (39 / 2) 0) (mkVector2 1 0) 2 (3 / 2) PATROLLING 0 100 seen 0
    (mkRect 3 (-16) 32 32).
Definition walk5 : Guard :=
  snapshot (mkVector2 (39 / 2) 0) (mkVector2 0 0) 0 (3 / 2) PATROLLING 2 100 seen 0
    (mkRect 3 (-16) 32 32).
Definition walk6 : Guard :=
  snapshot (mkVector2 (39 / 2) 0) (mkVector2 (-1) 0) 0 (3 / 2) PATROLLING 2 100 seen 180
    (mkRect 3 (-16) 32 32).

End GuardAI.

(* ===================================================================== *)
(** * map_loader.py                                                      *)
(* ===================================================================== *)

Module MapLoader.
Import Geometry.

(** A tile picture: one loaded from the tileset directory, or the
    placeholder of a tile type. *)
Inductive Image : Set :=
| TilesetImage (name : string)
| PlaceholderTile (kind : string).

(** The level document, after [json.load].  A key that is absent is
    [None]; each [.get(key, default)] of the code supplies its default. *)
Record TileInfo : Set := mkTileInfo {
  info_type : option string;
  info_name : option string;
  info_properties : option (list (string * string))
}.

Record Tileset : Set := mkTileset {
  firstgid : option Z;
  tiles : option (list TileInfo)
}.

Record Layer : Set := mkLayer {
  layer_name : option string;
  data : option (list Z)
}.

Record MapData : Set := mkMapData {
  doc_width : option Z;
  doc_height : option Z;
  layers : option (list Layer);
  tilesets : option (list Tileset)
}.

(** [dict.get(key, default)] *)
Definition get {A} (field : option A) (default : A) : A :=
  match field with
  | Some a => a
  | None => default
  end.

(** [Tile] *)
Record Tile : Set := mkTile {
  image : Image;
  rect : Rect;
  tile_type : string;
  properties : list (string * string)
}.

(** [Tile.__init__(x, y, image, tile_type, properties)]; every tile picture
    is [size] pixels wide and high. *)
Definition Tile_init (size x y : Z) (image : Image) (tile_type : string)
    (properties : list (string * string)) : Tile :=
  mkTile image (mkRect x y size size) tile_type properties.

(** [MapLoader]; [map_data] is [None] for a document that is false in
    Python ([None] or the empty dict). *)
Record MapLoader : Type := mkMapLoader {
  tile_size : Z;
  tileset : gmap string Image;
  map_data : option MapData;
  width : Z;
  height : Z;
  wall_sprites : list Tile;
  floor_sprites : list Tile;
  object_sprites : list Tile;
  loot_sprites : list Tile;
  door_sprites : list Tile;
  vent_sprites : list Tile;
  security_sprites : list Tile
}.

(** [MapLoader.__init__(tile_size)] *)
Definition MapLoader_init (tile_size : Z) : MapLoader :=
  mkMapLoader tile_size ∅ None 0 0 [] [] [] [] [] [] [].

(** [self.placeholder_tiles.get(tile_type, self.placeholder_tiles['wall'])] *)
Definition placeholder_tiles (tile_type : string) : Image :=
  if existsb (String.eqb tile_type)
       ["wall"; "floor"; "door"; "vent"; "loot"; "security"]
  then PlaceholderTile tile_type
  else PlaceholderTile "wall".

(** [l[i]] for an int [i], negative positions counting from the end. *)
Definition index {A} (l : list A) (i : Z) : result A :=
  let n := Z.of_nat (length l) in
  let j := if (i <? 0)%Z then (i + n)%Z else i in
  if ((j <? 0) || (n <=? j))%Z then Raise IndexError
  else match nth_error l (Z.to_nat j) with
       | Some a => Ok a
       | None => Raise IndexError
       end.

(** [range(n)] *)
Definition range (n : Z) : list Z := map Z.of_nat (seq 0 (Z.to_nat n)).

(** A [for] loop whose body may raise. *)
Fixpoint for_each {A S} (l : list A) (body : S -> A -> result S) (s : S) : result S :=
  match l with
  | [] => Ok s
  | a :: l' => s' <~ body s a ;; for_each l' body s'
  end.

(** [MapLoader._get_tile_info]; the empty dict is the [TileInfo] with no
    key. *)
Definition empty_info : TileInfo := mkTileInfo None None None.

Fixpoint find_tile_info (sets : list Tileset) (tile_id : Z) : result TileInfo :=
  match sets with
  | [] => Ok empty_info
  | ts :: sets' =>
      let first_gid := get (firstgid ts) 1%Z in
      let tiles := get (tiles ts) [] in
      if ((first_gid <=? tile_id) && (tile_id <? first_gid + Z.of_nat (length tiles)))%Z
      then index tiles (tile_id - first_gid)
      else find_tile_info sets' tile_id
  end.

Definition _get_tile_info (m : MapLoader) (tile_id : Z) : result TileInfo :=
  match map_data m with
  | None => Ok empty_info
  | Some doc => find_tile_info (get (tilesets doc) []) tile_id
  end.

(** The final [if]/[elif] chain of [_create_tiles]: the group a tile joins. *)
Definition add_to_group (m : MapLoader) (tile : Tile) : MapLoader :=
  let t := tile_type tile in
  let 'mkMapLoader sz ts md w h wall floor obj loot door vent sec := m in
  if String.eqb t "wall" then
    mkMapLoader sz ts md w h (wall ++ [tile]) floor obj loot door vent sec
  else if String.eqb t "floor" then
    mkMapLoader sz ts md w h wall (floor ++ [tile]) obj loot door vent sec
  else if String.eqb t "door" then
    mkMapLoader sz ts md w h wall floor obj loot (door ++ [tile]) vent sec
  else if String.eqb t "vent" then
    mkMapLoader sz ts md w h wall floor obj loot door (vent ++ [tile]) sec
  else if String.eqb t "loot" then
    mkMapLoader sz ts md w h wall floor obj (loot ++ [tile]) door vent sec
  else if String.eqb t "security" then
    mkMapLoader sz ts md w h wall floor obj loot door vent (sec ++ [tile])
  else
    mkMapLoader sz ts md w h wall floor (obj ++ [tile]) loot door vent sec.

(** The body of the two nested loops of [_create_tiles], for the cell
    [(x, y)] of one layer. *)
Definition create_tile (layer_data : list Z) (y : Z) (m : MapLoader) (x : Z)
    : result MapLoader :=
  let idx := (y * width m + x)%Z in
  if (Z.of_nat (length layer_data) <=? idx)%Z then Ok m
  else
    tile_id <~ index layer_data idx ;;
    if (tile_id =? 0)%Z then Ok m
    else
      tile_info <~ _get_tile_info m tile_id ;;
      let tile_type := get (info_type tile_info) "wall" in
      let tile_name := get (info_name tile_info) ("tile_" +:+ pretty tile_id) in
      let tile_image :=
        match tileset m !! tile_name with
        | Some img => img
        | None => placeholder_tiles tile_type
        end in
      let tile := Tile_init (tile_size m) (x * tile_size m) (y * tile_size m)
                    tile_image tile_type (get (info_properties tile_info) []) in
      Ok (add_to_group m tile).

(** [MapLoader._create_tiles] *)
Definition _create_tiles (m : MapLoader) : result MapLoader :=
  match map_data m with
  | None => Ok m
  | Some doc =>
      for_each (get (layers doc) [])
        (fun m layer =>
           let layer_data := get (data layer) [] in
           for_each (range (height m))
             (fun m y => for_each (range (width m)) (create_tile layer_data y) m)
             m)
        m
  end.

(** [MapLoader.load_map] once the file has been read and parsed: the
    document is stored, the groups are emptied, the tiles are created. *)
Definition load_map (m : MapLoader) (doc : MapData) : result MapLoader :=
  let m := mkMapLoader (tile_size m) (tileset m) (Some doc)
             (get (doc_width doc) 0%Z) (get (doc_height doc) 0%Z)
             [] [] [] [] [] [] [] in
  _create_tiles m.

(** The tile ID falls in the ID range of the tileset. *)
Definition covers (ts : Tileset) (tile_id : Z) : Prop :=
  (get (firstgid ts) 1 <= tile_id
   < get (firstgid ts) 1 + Z.of_nat (length (get (tiles ts) [])))%Z.


(** What a loop body must leave alone for the loops to stay in bounds. *)
Definition same_frame (m m' : MapLoader) : Prop :=
  width m' = width m /\ height m' = height m /\ map_data m' = map_data m.

(** The tiles of all groups. *)
Definition all_sprites (m : MapLoader) : list Tile :=
  wall_sprites m ++ floor_sprites m ++ object_sprites m ++ loot_sprites m
  ++ door_sprites m ++ vent_sprites m ++ security_sprites m.

(** A one-cell level whose only tile ID, 7, belongs to no tileset. *)
Definition one_cell_level : MapData :=
  mkMapData (Some 1%Z) (Some 1%Z) (Some [mkLayer None (Some [7%Z])]) (Some []).

End MapLoader.

(* ===================================================================== *)
(** * collision.py: the shape queries                                    *)
(* ===================================================================== *)

Module Queries.
Import Geometry.

(** [check_rect_collision(rect, sprite_group)]; a sprite is given by its
    rectangle. *)
Definition check_rect_collision (rect : Rect) (sprite_group : list Rect) : list Rect :=
  List.filter (fun sprite => colliderect rect sprite) sprite_group.

(** The test [check_circle_collision] applies to one sprite: the distance
    from the centre to the closest point of the rectangle, against the
    radius. *)
Definition circle_reaches (center : R * R) (radius : R) (sprite : Rect) : bool :=
  let closest_x := Rmax (IZR (left sprite)) (Rmin (fst center) (IZR (right sprite))) in
  let closest_y := Rmax (IZR (top sprite)) (Rmin (snd center) (IZR (bottom sprite))) in
  let distance :=
    sqrt ((closest_x - fst center) * (closest_x - fst center)
          + (closest_y - snd center) * (closest_y - snd center)) in
  Rltb distance radius.

(** [check_circle_collision(center, radius, sprite_group)] *)
Definition check_circle_collision (center : R * R) (radius : R)
    (sprite_group : list Rect) : list Rect :=
  List.filter (circle_reaches center radius) sprite_group.

(** [check_point_in_circle(point, center, radius)] *)
Definition check_point_in_circle (point center : R * R) (radius : R) : bool :=
  let distance :=
    sqrt ((fst point - fst center) * (fst point - fst center)
          + (snd point - snd center) * (snd point - snd center)) in
  Rltb distance radius.

(** What [check_point_in_polygon] can raise: a builtin exception, or the
    read of [xinters] before any assignment to it. *)
Inductive raised : Set :=
| Builtin (e : exn)
| UnboundLocalError.

(** The variables of the loop of [check_point_in_polygon]; [xinters] is
    [None] until it is first assigned. *)
Record Scan : Type := mkScan {
  inside : bool;
  p1 : R * R;
  xinters : option R
}.

(** One turn of the loop, for the vertex [p2 = vertices[i % n]]. *)
Definition edge (point : R * R) (s : Scan) (p2 : R * R) : raised + Scan :=
  let x := fst point in
  let y := snd point in
  let p1x := fst (p1 s) in
  let p1y := snd (p1 s) in
  let p2x := fst p2 in
  let p2y := snd p2 in
  if Rltb (Rmin p1y p2y) y && Rleb y (Rmax p1y p2y) && Rleb x (Rmax p1x p2x) then
    let assigned :=
      if negb (Reqb p1y p2y) then
        match pydiv ((y - p1y) * (p2x - p1x)) (p2y - p1y) with
        | Ok q => inr (Some (q + p1x))
        | Raise e => inl (Builtin e)
        end
      else inr (xinters s) in
    match assigned with
    | inl e => inl e
    | inr xi =>
        if Reqb p1x p2x then inr (mkScan (negb (inside s)) p2 xi)
        else
          match xi with
          | None => inl UnboundLocalError
          | Some v =>
              if Rleb x v then inr (mkScan (negb (inside s)) p2 xi)
              else inr (mkScan (inside s) p2 xi)
          end
    end
  else inr (mkScan (inside s) p2 (xinters s)).

(** [for i in range(1, n + 1)], over the list of the values of [i]. *)
Fixpoint edges (point : R * R) (vertices : list (R * R)) (s : Scan)
    (indices : list nat) : raised + Scan :=
  match indices with
  | [] => inr s
  | i :: rest =>
      match nth_error vertices (i mod length vertices) with
      | None => inl (Builtin IndexError)
      | Some p2 =>
          match edge point s p2 with
          | inl e => inl e
          | inr s' => edges point vertices s' rest
          end
      end
  end.

(** [check_point_in_polygon(point, vertices)] *)
Definition check_point_in_polygon (point : R * R) (vertices : list (R * R))
    : raised + bool :=
  let n := length vertices in
  match nth_error vertices 0 with
  | None => inl (Builtin IndexError)
  | Some first =>
      match edges point vertices (mkScan false first None) (seq 1 n) with
      | inl e => inl e
      | inr s => inr (inside s)
      end
  end.

(** The polygon whose vertices are the corners of an axis-aligned
    rectangle, in order around it. *)
Definition box (a b c d : R) : list (R * R) := [(a, b); (c, b); (c, d); (a, d)].

End Queries.

(* ===================================================================== *)
(** * loot_system.py: progress                                           *)
(* ===================================================================== *)

Module LootProgress.
Import Loot.

(** [LootManager.get_collection_progress] *)
Definition get_collection_progress (m : LootManager) : result R :=
  if (total_value m =? 0)%Z then Ok 0
  else
    q <~ pydiv (IZR (collected_value m)) (IZR (total_value m)) ;;
    Ok (q * 100).

(** [update_stealing] called once per frame, for the frame times [dts]:
    the flag of each call, and the item after the last one. *)
Fixpoint steal_frames (it : LootItem) (dts : list R) : result (list bool * LootItem) :=
  match dts with
  | [] => Ok ([], it)
  | dt :: rest =>
      r <~ update_stealing it dt ;;
      r' <~ steal_frames (snd r) rest ;;
      Ok (fst r :: fst r', snd r')
  end.

End LootProgress.

(* ===================================================================== *)
(** * map_loader.py: the spawn points                                    *)
(* ===================================================================== *)

Module Spawns.
Import MapLoader.

(** An entry of the [objects] list of the level document. *)
Record PatrolPoint : Set := mkPatrolPoint {
  point_x : option Z;
  point_y : option Z
}.

Record MapObject : Set := mkMapObject {
  object_type : option string;
  object_x : option Z;
  object_y : option Z;
  object_patrol_points : option (list PatrolPoint)
}.

(** [a // b] on ints. *)
Definition floordiv (a b : Z) : result Z :=
  if (b =? 0)%Z then Raise ZeroDivisionError else Ok (a / b)%Z.

(** The conversion to tile coordinates and back that the three spawn
    functions share. *)
Definition to_tile (m : MapLoader) (x y : Z) : result (Z * Z) :=
  tile_x <~ floordiv x (tile_size m) ;;
  tile_y <~ floordiv y (tile_size m) ;;
  Ok (tile_x * tile_size m, tile_y * tile_size m)%Z.

Definition has_type (kind : string) (obj : MapObject) : bool :=
  match object_type obj with
  | Some t => String.eqb t kind
  | None => false
  end.

(** The loop of [get_player_spawn_point] and [get_extraction_point]: the
    first object of the given type decides. *)
Fixpoint first_of_type (m : MapLoader) (kind : string) (objects : list MapObject)
    : result (Z * Z) :=
  match objects with
  | [] => Ok (0, 0)%Z
  | obj :: rest =>
      if has_type kind obj
      then to_tile m (get (object_x obj) 0%Z) (get (object_y obj) 0%Z)
      else first_of_type m kind rest
  end.

(** [MapLoader.get_player_spawn_point]; [objects] is
    [self.map_data.get('objects', [])]. *)
Definition get_player_spawn_point (m : MapLoader) (objects : list MapObject)
    : result (Z * Z) :=
  match map_data m with
  | None => Ok (0, 0)%Z
  | Some _ => first_of_type m "player_spawn" objects
  end.

(** [MapLoader.get_extraction_point] *)
Definition get_extraction_point (m : MapLoader) (objects : list MapObject)
    : result (Z * Z) :=
  match map_data m with
  | None => Ok (0, 0)%Z
  | Some _ => first_of_type m "extraction" objects
  end.

(** An entry of the list [get_guard_spawn_points] returns. *)
Record GuardSpawn : Set := mkGuardSpawn {
  spawn_position : Z * Z;
  spawn_patrol_points : list (Z * Z)
}.

Fixpoint guard_spawns (m : MapLoader) (objects : list MapObject)
    : result (list GuardSpawn) :=
  match objects with
  | [] => Ok []
  | obj :: rest =>
      if has_type "guard_spawn" obj then
        position <~ to_tile m (get (object_x obj) 0%Z) (get (object_y obj) 0%Z) ;;
        let patrol_points :=
          map (fun point => (get (point_x point) 0%Z, get (point_y point) 0%Z))
              (get (object_patrol_points obj) []) in
        spawn_points <~ guard_spawns m rest ;;
        Ok (mkGuardSpawn position patrol_points :: spawn_points)
      else guard_spawns m rest
  end.

(** [MapLoader.get_guard_spawn_points] *)
Definition get_guard_spawn_points (m : MapLoader) (objects : list MapObject)
    : result (list GuardSpawn) :=
  match map_data m with
  | None => Ok []
  | Some _ => guard_spawns m objects
  end.

End Spawns.

(* ===================================================================== *)
(** * player.py                                                          *)
(* ===================================================================== *)

Module PlayerLogic.
Import Geometry.

Inductive PlayerState : Set := IDLE | WALKING | RUNNING | CROUCHING | LOOTING.

Inductive Direction : Set := UP | RIGHT | DOWN | LEFT.

(** [Player]; an inventory item is given by the identity of its object. *)
Record Player : Type := mkPlayer {
  position : Vector2;
  velocity : Vector2;
  acceleration : Vector2;
  walk_speed : R;
  run_speed : R;
  crouch_speed : R;
  current_speed : R;
  friction : R;
  state : PlayerState;
  direction : Direction;
  is_crouching : bool;
  is_running : bool;
  is_looting : bool;
  noise_level : R;
  visibility : R;
  inventory : list nat;
  max_inventory : nat;
  loot_count : Z;
  rect : Rect;
  collision_rect : Rect
}.

(** Attribute assignments, one per attribute the code writes. *)
Definition set_position (p : Player) (v : Vector2) : Player :=
  {| position := v; velocity := velocity p; acceleration := acceleration p;
     walk_speed := walk_speed p; run_speed := run_speed p;
     crouch_speed := crouch_speed p; current_speed := current_speed p;
     friction := friction p; state := state p; direction := direction p;
     is_crouching := is_crouching p; is_running := is_running p;
     is_looting := is_looting p; noise_level := noise_level p;
     visibility := visibility p; inventory := inventory p;
     max_inventory := max_inventory p; loot_count := loot_count p;
     rect := rect p; collision_rect := collision_rect p |}.

Definition set_velocity (p : Player) (v : Vector2) : Player :=
  {| position := position p; velocity := v; acceleration := acceleration p;
     walk_speed := walk_speed p; run_speed := run_speed p;
     crouch_speed := crouch_speed p; current_speed := current_speed p;
     friction := friction p; state := state p; direction := direction p;
     is_crouching := is_crouching p; is_running := is_running p;
     is_looting := is_looting p; noise_level := noise_level p;
     visibility := visibility p; inventory := inventory p;
     max_inventory := max_inventory p; loot_count := loot_count p;
     rect := rect p; collision_rect := collision_rect p |}.

Definition set_acceleration (p : Player) (v : Vector2) : Player :=
  {| position := position p; velocity := velocity p; acceleration := v;
     walk_speed := walk_speed p; run_speed := run_speed p;
     crouch_speed := crouch_speed p; current_speed := current_speed p;
     friction := friction p; state := state p; direction := direction p;
     is_crouching := is_crouching p; is_running := is_running p;
     is_looting := is_looting p; noise_level := noise_level p;
     visibility := visibility p; inventory := inventory p;
     max_inventory := max_inventory p; loot_count := loot_count p;
     rect := rect p; collision_rect := collision_rect p |}.

Definition set_current_speed (p : Player) (v : R) : Player :=
  {| position := position p; velocity := velocity p;
     acceleration := acceleration p; walk_speed := walk_speed p;
     run_speed := run_speed p; crouch_speed := crouch_speed p;
     current_speed := v; friction := friction p; state := state p;
     direction := direction p; is_crouching := is_crouching p;
     is_running := is_running p; is_looting := is_looting p;
     noise_level := noise_level p; visibility := visibility p;
     inventory := inventory p; max_inventory := max_inventory p;
     loot_count := loot_count p; rect := rect p;
     collision_rect := collision_rect p |}.

Definition set_state (p : Player) (v : PlayerState) : Player :=
  {| position := position p; velocity := velocity p;
     acceleration := acceleration p; walk_speed := walk_speed p;
     run_speed := run_speed p; crouch_speed := crouch_speed p;
     current_speed := current_speed p; friction := friction p; state := v;
     direction := direction p; is_crouching := is_crouching p;
     is_running := is_running p; is_looting := is_looting p;
     noise_level := noise_level p; visibility := visibility p;
     inventory := inventory p; max_inventory := max_inventory p;
     loot_count := loot_count p; rect := rect p;
     collision_rect := collision_rect p |}.

Definition set_direction (p : Player) (v : Direction) : Player :=
  {| position := position p; velocity := velocity p;
     acceleration := acceleration p; walk_speed := walk_speed p;
     run_speed := run_speed p; crouch_speed := crouch_speed p;
     current_speed := current_speed p; friction := friction p;
     state := state p; direction := v; is_crouching := is_crouching p;
     is_running := is_running p; is_looting := is_looting p;
     noise_level := noise_level p; visibility := visibility p;
     inventory := inventory p; max_inventory := max_inventory p;
     loot_count := loot_count p; rect := rect p;
     collision_rect := collision_rect p |}.

Definition set_is_crouching (p : Player) (v : bool) : Player :=
  {| position := position p; velocity := velocity p;
     acceleration := acceleration p; walk_speed := walk_speed p;
     run_speed := run_speed p; crouch_speed := crouch_speed p;
     current_speed := current_speed p; friction := friction p;
     state := state p; direction := direction p; is_crouching := v;
     is_running := is_running p; is_looting := is_looting p;
     noise_level := noise_level p; visibility := visibility p;
     inventory := inventory p; max_inventory := max_inventory p;
     loot_count := loot_count p; rect := rect p;
     collision_rect := collision_rect p |}.

Definition set_is_running (p : Player) (v : bool) : Player :=
  {| position := position p; velocity := velocity p;
     acceleration := acceleration p; walk_speed := walk_speed p;
     run_speed := run_speed p; crouch_speed := crouch_speed p;
     current_speed := current_speed p; friction := friction p;
     state := state p; direction := direction p;
     is_crouching := is_crouching p; is_running := v;
     is_looting := is_looting p; noise_level := noise_level p;
     visibility := visibility p; inventory := inventory p;
     max_inventory := max_inventory p; loot_count := loot_count p;
     rect := rect p; collision_rect := collision_rect p |}.

Definition set_is_looting (p : Player) (v : bool) : Player :=
  {| position := position p; velocity := velocity p;
     acceleration := acceleration p; walk_speed := walk_speed p;
     run_speed := run_speed p; crouch_speed := crouch_speed p;
     current_speed := current_speed p; friction := friction p;
     state := state p; direction := direction p;
     is_crouching := is_crouching p; is_running := is_running p;
     is_looting := v; noise_level := noise_level p; visibility := visibility p;
     inventory := inventory p; max_inventory := max_inventory p;
     loot_count := loot_count p; rect := rect p;
     collision_rect := collision_rect p |}.

Definition set_noise_level (p : Player) (v : R) : Player :=
  {| position := position p; velocity := velocity p;
     acceleration := acceleration p; walk_speed := walk_speed p;
     run_speed := run_speed p; crouch_speed := crouch_speed p;
     current_speed := current_speed p; friction := friction p;
     state := state p; direction := direction p;
     is_crouching := is_crouching p; is_running := is_running p;
     is_looting := is_looting p; noise_level := v; visibility := visibility p;
     inventory := inventory p; max_inventory := max_inventory p;
     loot_count := loot_count p; rect := rect p;
     collision_rect := collision_rect p |}.

Definition set_inventory (p : Player) (v : list nat) : Player :=
  {| position := position p; velocity := velocity p;
     acceleration := acceleration p; walk_speed := walk_speed p;
     run_speed := run_speed p; crouch_speed := crouch_speed p;
     current_speed := current_speed p; friction := friction p;
     state := state p; direction := direction p;
     is_crouching := is_crouching p; is_running := is_running p;
     is_looting := is_looting p; noise_level := noise_level p;
     visibility := visibility p; inventory := v;
     max_inventory := max_inventory p; loot_count := loot_count p;
     rect := rect p; collision_rect := collision_rect p |}.

Definition set_loot_count (p : Player) (v : Z) : Player :=
  {| position := position p; velocity := velocity p;
     acceleration := acceleration p; walk_speed := walk_speed p;
     run_speed := run_speed p; crouch_speed := crouch_speed p;
     current_speed := current_speed p; friction := friction p;
     state := state p; direction := direction p;
     is_crouching := is_crouching p; is_running := is_running p;
     is_looting := is_looting p; noise_level := noise_level p;
     visibility := visibility p; inventory := inventory p;
     max_inventory := max_inventory p; loot_count := v; rect := rect p;
     collision_rect := collision_rect p |}.

Definition set_rect (p : Player) (v : Rect) : Player :=
  {| position := position p; velocity := velocity p;
     acceleration := acceleration p; walk_speed := walk_speed p;
     run_speed := run_speed p; crouch_speed := crouch_speed p;
     current_speed := current_speed p; friction := friction p;
     state := state p; direction := direction p;
     is_crouching := is_crouching p; is_running := is_running p;
     is_looting := is_looting p; noise_level := noise_level p;
     visibility := visibility p; inventory := inventory p;
     max_inventory := max_inventory p; loot_count := loot_count p; rect := v;
     collision_rect := collision_rect p |}.

Definition set_collision_rect (p : Player) (v : Rect) : Player :=
  {| position := position p; velocity := velocity p;
     acceleration := acceleration p; walk_speed := walk_speed p;
     run_speed := run_speed p; crouch_speed := crouch_speed p;
     current_speed := current_speed p; friction := friction p;
     state := state p; direction := direction p;
     is_crouching := is_crouching p; is_running := is_running p;
     is_looting := is_looting p; noise_level := noise_level p;
     visibility := visibility p; inventory := inventory p;
     max_inventory := max_inventory p; loot_count := loot_count p;
     rect := rect p; collision_rect := v |}.

(** [Player.__init__(x, y)] without a sprite sheet. *)
Definition Player_init (x y : R) : Player :=
  {| position := mkVector2 x y;
     velocity := mkVector2 0 0;
     acceleration := mkVector2 0 0;
     walk_speed := 2;
     run_speed := 4;
     crouch_speed := 1;
     current_speed := 2;
     friction := 85 / 100;
     state := IDLE;
     direction := DOWN;
     is_crouching := false;
     is_running := false;
     is_looting := false;
     noise_level := 0;
     visibility := 0;
     inventory := [];
     max_inventory := 5;
     loot_count := 0;
     rect := set_center_floats (mkRect 0 0 32 32) x y;
     collision_rect :=
       centred (mkRect 0 0 24 24)
         (get_center (set_center_floats (mkRect 0 0 32 32) x y)) |}.

(** [Vector2.scale_to_length]: raises [ValueError] on a vector shorter than
    pygame's epsilon. *)
Definition epsilon : R := 1 / 1000000.

Definition scale_to_length (v : Vector2) (l : R) : result Vector2 :=
  let old_length := vlength v in
  if Rltb old_length epsilon then Raise ValueError
  else Ok (vscale v (l / old_length)).

(** [Player.update_noise_level]: the player afterwards (the returned value
    is its [noise_level]). *)
Definition update_noise_level (p : Player) : Player :=
  let speed := vlength (velocity p) in
  let p :=
    if is_looting p then set_noise_level p 10
    else if is_crouching p then set_noise_level p (speed * 5)
    else if is_running p then set_noise_level p (speed * 20)
    else set_noise_level p (speed * 10) in
  set_noise_level p (Rmax 0 (Rmin 100 (noise_level p))).

(** [Player.get_detection_radius] *)
Definition get_detection_radius (p : Player) : R :=
  50 + noise_level p * 2 + visibility p * (3 / 2).

Section Update.

(** The [collided] callback [pygame.sprite.collide_rect_ratio(0.8)], applied
    to the player's rectangle and a wall's. *)
Variable collide_rect_ratio : Rect -> Rect -> bool.

(** [Player.handle_collisions] *)
Definition handle_collisions (p : Player) (walls : list Rect)
    (old_position : Vector2) : result Player :=
  let collisions := List.filter (collide_rect_ratio (rect p)) walls in
  match collisions with
  | _ :: _ =>
      let p := set_position p old_position in
      r <~ set_center (rect p)
             (trunc (vx (position p)), trunc (vy (position p))) ;;
      let p := set_rect p r in
      r <~ set_center (collision_rect p) (get_center (rect p)) ;;
      let p := set_collision_rect p r in
      Ok (set_velocity p (mkVector2 0 0))
  | [] => Ok p
  end.

(** [Player.update(dt, walls)]; the animation step only advances frames
    and is left out. *)
Definition update (p : Player) (dt : R) (walls : option (list Rect))
    : result Player :=
  let p := set_velocity p (vadd (velocity p) (acceleration p)) in
  let p := set_velocity p (vscale (velocity p) (friction p)) in
  let speed_limit := current_speed p in
  p <~ (if Rltb speed_limit (vlength (velocity p)) then
          v <~ scale_to_length (velocity p) speed_limit ;;
          Ok (set_velocity p v)
        else Ok p) ;;
  let old_position := position p in
  let p := set_position p (vadd (position p) (velocity p)) in
  r <~ set_center (rect p) (trunc (vx (position p)), trunc (vy (position p))) ;;
  let p := set_rect p r in
  r <~ set_center (collision_rect p) (get_center (rect p)) ;;
  let p := set_collision_rect p r in
  p <~ match walls with
       | Some ((_ :: _) as walls) => handle_collisions p walls old_position
       | _ => Ok p
       end ;;
  let p := set_acceleration p (mkVector2 0 0) in
  Ok (update_noise_level p).

End Update.

(** The velocity [update] moves the player by: the old one with the
    acceleration added, slowed by the friction and cut to the speed
    limit; and the position this takes the player to. *)
Definition next_velocity (p : Player) : Vector2 :=
  let v := vscale (vadd (velocity p) (acceleration p)) (friction p) in
  if Rltb (current_speed p) (vlength v)
  then vscale v (current_speed p / vlength v)
  else v.

Definition destination (p : Player) : Vector2 :=
  vadd (position p) (next_velocity p).

(** What the noise of a player depends on, the velocity apart. *)
Definition same_manner (p q : Player) : Prop :=
  current_speed q = current_speed p /\
  is_looting q = is_looting p /\
  is_crouching q = is_crouching p /\
  is_running q = is_running p /\
  visibility q = visibility p.

(** [Player.move(direction_x, direction_y)] *)
Definition move (p : Player) (direction_x direction_y : R) : Player :=
  let p :=
    if is_crouching p then
      set_state (set_current_speed p (crouch_speed p)) CROUCHING
    else if is_running p then
      set_state (set_current_speed p (run_speed p)) RUNNING
    else
      set_state (set_current_speed p (walk_speed p)) WALKING in
  let p := set_acceleration p
             (mkVector2 (direction_x * current_speed p * (1 / 10))
                        (direction_y * current_speed p * (1 / 10))) in
  let p :=
    if Rltb 0 direction_x then set_direction p RIGHT
    else if Rltb direction_x 0 then set_direction p LEFT
    else if Rltb 0 direction_y then set_direction p DOWN
    else if Rltb direction_y 0 then set_direction p UP
    else p in
  if Reqb direction_x 0 && Reqb direction_y 0 then set_state p IDLE else p.

(** [Player.toggle_crouch] *)
Definition toggle_crouch (p : Player) : Player :=
  let p := set_is_crouching p (negb (is_crouching p)) in
  if is_crouching p then set_is_running p false else p.

(** [Player.toggle_run] *)
Definition toggle_run (p : Player) : Player :=
  let p := set_is_running p (negb (is_running p)) in
  if is_running p then set_is_crouching p false else p.

(** [Player.start_looting] *)
Definition start_looting (p : Player) : Player :=
  let p := set_is_looting p true in
  let p := set_state p LOOTING in
  set_velocity p (mkVector2 0 0).

(** [Player.stop_looting] *)
Definition stop_looting (p : Player) : Player :=
  let p := set_is_looting p false in
  set_state p IDLE.

(** [Player.add_loot(value)]: the returned count and the player. *)
Definition add_loot (p : Player) (value : Z) : Z * Player :=
  let p := set_loot_count p (loot_count p + value)%Z in
  (loot_count p, p).

(** [Player.add_to_inventory(item)] *)
Definition add_to_inventory (p : Player) (item : nat) : bool * Player :=
  if (length (inventory p) <? max_inventory p)%nat
  then (true, set_inventory p (inventory p ++ [item]))
  else (false, p).

(** [list.pop(i)] for a position [i] inside the list. *)
Fixpoint pop (l : list nat) (i : nat) : list nat :=
  match l, i with
  | [], _ => []
  | _ :: l', O => l'
  | a :: l', S i' => a :: pop l' i'
  end.

(** [Player.use_item(item_index)]: the returned item ([None] for Python's
    [None]) and the player. *)
Definition use_item (p : Player) (item_index : Z) : option nat * Player :=
  if ((0 <=? item_index) && (item_index <? Z.of_nat (length (inventory p))))%Z
  then (nth_error (inventory p) (Z.to_nat item_index),
        set_inventory p (pop (inventory p) (Z.to_nat item_index)))
  else (None, p).

(** The calls a game makes on the crouch and run keys. *)
Inductive Key : Set := CrouchKey | RunKey.

Definition press (p : Player) (k : Key) : Player :=
  match k with
  | CrouchKey => toggle_crouch p
  | RunKey => toggle_run p
  end.

(** The calls that change the inventory. *)
Inductive InventoryCall : Set :=
| AddToInventory (item : nat)
| UseItem (item_index : Z).

Definition call (p : Player) (c : InventoryCall) : Player :=
  match c with
  | AddToInventory item => snd (add_to_inventory p item)
  | UseItem item_index => snd (use_item p item_index)
  end.

(** Key presses and inventory calls made one after the other. *)
Definition presses (p : Player) (keys : list Key) : Player :=
  fold_left press keys p.

Definition calls (p : Player) (cs : list InventoryCall) : Player :=
  fold_left call cs p.

End PlayerLogic.

(* ===================================================================== *)
(** * guard.py: the state machine as a whole                             *)
(* ===================================================================== *)

Module GuardRules.
Import Geometry GuardAI.

(** The states a handler can leave the guard in, by the state the tick
    begins in and by whether a player is passed. *)
Definition handler_states (s : GuardState) (player_present : bool) : list GuardState :=
  match s with
  | PATROLLING => [PATROLLING]
  | SUSPICIOUS => [SUSPICIOUS; PATROLLING]
  | INVESTIGATING => [INVESTIGATING; PATROLLING; SUSPICIOUS]
  | ALERTED => if player_present then [ALERTED] else [SEARCHING]
  | SEARCHING => [SEARCHING; PATROLLING]
  end.

(** The states a tick can end in: the detection check, run only when a
    player is passed, adds ALERTED. *)
Definition next_states (s : GuardState) (player_present : bool) : list GuardState :=
  handler_states s player_present ++ (if player_present then [ALERTED] else []).

Definition present {A} (o : option A) : bool :=
  match o with
  | Some _ => true
  | None => false
  end.

(** The waypoint index points into the route. *)
Definition route_in_bounds (g : Guard) : Prop :=
  (current_patrol_point g < length (patrol_points g))%nat.

(** The route is the given one and the waypoint index points into it. *)
Definition keeps_route (route : list (R * R)) (g : Guard) : Prop :=
  patrol_points g = route /\ route_in_bounds g.

(** The velocity is at most a unit vector and the speeds are the
    constructor's. *)
Definition within_limits (g : Guard) : Prop :=
  vx (velocity g) * vx (velocity g) + vy (velocity g) * vy (velocity g) <= 1 /\
  walk_speed g = 3 / 2 /\
  run_speed g = 3 /\
  (current_speed g = 3 / 2 \/ current_speed g = 3).

(** The rectangle sits where the position says: it is centred on the
    truncated position. *)
Definition rect_follows_position (g : Guard) : Prop :=
  rect g
  = centred (rect g) (trunc (vx (position g)), trunc (vy (position g))).

(** The position the guard tries to reach in a tick. *)
Definition attempted (g : Guard) (dt : R) : Vector2 :=
  vadd (position g) (vscale (vscale (velocity g) dt) (current_speed g)).

(** The guard at the attempted position, and the guard put back after a
    collision: the two outcomes of a [move] that returns. *)
Definition advanced (g : Guard) (dt : R) : Guard :=
  set_rect (set_position g (attempted g dt))
    (centred (rect g)
       (trunc (vx (attempted g dt)), trunc (vy (attempted g dt)))).

Definition rolled_back (g : Guard) (dt : R) : Guard :=
  set_velocity
    (set_rect (set_position (advanced g dt) (position g))
       (centred (rect (advanced g dt))
          (trunc (vx (position g)), trunc (vy (position g)))))
    (mkVector2 0 0).

(** Some wall of [walls] meets the rectangle the guard has at the
    attempted position. *)
Definition blocked (g : Guard) (dt : R) (walls : option (list Rect)) : bool :=
  match walls with
  | Some ws => existsb (colliderect (rect (advanced g dt))) ws
  | None => false
  end.

(** A [move] returns when the attempted position is representable and,
    if a wall sends the guard back, the old position is as well. *)
Definition can_move (g : Guard) (dt : R) (walls : option (list Rect)) : bool :=
  representable (attempted g dt)
  && (representable (position g) || negb (blocked g dt walls)).


End GuardRules.

(* ===================================================================== *)
(** * map_loader.py: what an import leaves in the groups                 *)
(* ===================================================================== *)

Module MapFacts.
Import Geometry MapLoader.

(** The tile fills a cell of a grid of [w] by [h] cells of [size] pixels. *)
Definition on_grid (w h size : Z) (tile : Tile) : Prop :=
  exists x y,
    (0 <= x < w)%Z /\ (0 <= y < h)%Z /\
    rect tile = mkRect (x * size) (y * size) size size.

(** The tile types that have a group of their own. *)
Definition grouped_types : list string :=
  ["wall"; "floor"; "door"; "vent"; "loot"; "security"].

(** Every group holds tiles of its own type only; the object group holds
    the tiles of every other type. *)
Definition sorted_by_type (m : MapLoader) : Prop :=
  Forall (fun t => tile_type t = "wall") (wall_sprites m) /\
  Forall (fun t => tile_type t = "floor") (floor_sprites m) /\
  Forall (fun t => tile_type t = "door") (door_sprites m) /\
  Forall (fun t => tile_type t = "vent") (vent_sprites m) /\
  Forall (fun t => tile_type t = "loot") (loot_sprites m) /\
  Forall (fun t => tile_type t = "security") (security_sprites m) /\
  Forall (fun t => ~ In (tile_type t) grouped_types) (object_sprites m).

(** What the loops of an import keep: the frame of the loader, the tiles on
    the grid, the groups sorted. *)
Definition import_invariant (w h size : Z) (m : MapLoader) : Prop :=
  width m = w /\ height m = h /\ tile_size m = size /\
  Forall (on_grid w h size) (all_sprites m) /\
  sorted_by_type m.

(** The number of cells of a layer that hold a tile: the nonzero IDs among
    the first [width * height] entries of its data. *)
Definition filled_cells (w h : Z) (layer : Layer) : nat :=
  length (List.filter (fun tile_id => negb (tile_id =? 0)%Z)
            (firstn (Z.to_nat w * Z.to_nat h) (get (data layer) []))).

Definition filled_cells_of (doc : MapData) : nat :=
  fold_right Nat.add 0%nat
    (map (filled_cells (get (doc_width doc) 0%Z) (get (doc_height doc) 0%Z))
         (get (layers doc) [])).

End MapFacts.

(* ===================================================================== *)
(** * Properties                                                         *)
(* ===================================================================== *)

Lemma Rltb_true x y : Rltb x y = true <-> x < y.
Proof. unfold Rltb; destruct (Rlt_dec x y); split; intros; try lra; congruence. Qed.

Lemma Rltb_false x y : Rltb x y = false <-> y <= x.
Proof. unfold Rltb; destruct (Rlt_dec x y); split; intros; try lra; congruence. Qed.

Lemma Rleb_true x y : Rleb x y = true <-> x <= y.
Proof. unfold Rleb; destruct (Rle_dec x y); split; intros; try lra; congruence. Qed.

Lemma Rleb_false x y : Rleb x y = false <-> y < x.
Proof. unfold Rleb; destruct (Rle_dec x y); split; intros; try lra; congruence. Qed.

Lemma Reqb_true x y : Reqb x y = true <-> x = y.
Proof. unfold Reqb; destruct (Req_dec_T x y); split; intros; try lra; congruence. Qed.

Lemma Reqb_false x y : Reqb x y = false <-> x <> y.
Proof. unfold Reqb; destruct (Req_dec_T x y); split; intros; try lra; congruence. Qed.

Lemma Reqb_refl x : Reqb x x = true.
Proof. now apply Reqb_true. Qed.

Lemma trunc_IZR (z : Z) : trunc (IZR z) = z.
Proof.
  unfold trunc. destruct (Rle_dec 0 (IZR z)) as [H|H].
  - symmetry. apply Int_part_spec. lra.
  - rewrite <- opp_IZR.
    replace (Int_part (IZR (- z))) with (- z)%Z; [lia|].
    apply Int_part_spec. lra.
Qed.

Lemma trunc_near (x : R) : x - 1 < IZR (trunc x) < x + 1.
Proof.
  unfold trunc. destruct (Rle_dec 0 x) as [H|H].
  - destruct (base_Int_part x). lra.
  - destruct (base_Int_part (- x)). rewrite opp_IZR. lra.
Qed.

Lemma int_of_float_IZR (z : Z) :
  Geometry.fits_int z = true -> Geometry.int_of_float (IZR z) = z.
Proof. intros H. unfold Geometry.int_of_float. now rewrite trunc_IZR, H. Qed.

Lemma fits_int_spec (z : Z) :
  Geometry.fits_int z = true
  <-> (Geometry.INT_MIN <= z <= Geometry.INT_MAX)%Z.
Proof. unfold Geometry.fits_int. lia. Qed.

Lemma nearest_eval (x : R) (z : Z) :
  IZR z - 1 / 2 < x < IZR z + 1 / 2 -> Geometry.nearest x = z.
Proof.
  intros Hx. unfold Geometry.nearest. destruct (Rle_dec 0 x) as [H|H].
  - symmetry. apply Int_part_spec. lra.
  - assert (Hz : Int_part (- x + 1 / 2) = (- z)%Z).
    { symmetry. apply Int_part_spec. rewrite opp_IZR. lra. }
    rewrite Hz. lia.
Qed.

(** Two values of the conversions: a rectangle centred on the floats
    (0.75, -0.75) is centred on (1, -1), and a float coordinate beyond the
    range of [int] becomes [INT_MIN]. *)
Example centre_is_rounded :
  Geometry.set_center_floats (Geometry.mkRect 0 0 32 32) (3 / 4) (- (3 / 4))
  = Geometry.mkRect (-15) (-17) 32 32.
Proof.
  unfold Geometry.set_center_floats, Geometry.int_of_rounded.
  rewrite (nearest_eval (3 / 4) 1) by lra.
  rewrite (nearest_eval (- (3 / 4)) (-1)) by lra.
  reflexivity.
Qed.

Example float_beyond_int :
  Geometry.Rect_of_floats (3000000000 - 2) 0 4 4
  = Geometry.mkRect Geometry.INT_MIN 0 4 4.
Proof.
  unfold Geometry.Rect_of_floats, Geometry.int_of_float.
  replace (3000000000 - 2) with (IZR 2999999998) by lra.
  rewrite !trunc_IZR. reflexivity.
Qed.

(** Deciding a float comparison whose operands are known. *)
Ltac float_cmp :=
  repeat match goal with
  | |- context [Rltb ?a ?b] =>
      first [ replace (Rltb a b) with true by (symmetry; apply Rltb_true; lra)
            | replace (Rltb a b) with false by (symmetry; apply Rltb_false; lra) ]
  | |- context [Rleb ?a ?b] =>
      first [ replace (Rleb a b) with true by (symmetry; apply Rleb_true; lra)
            | replace (Rleb a b) with false by (symmetry; apply Rleb_false; lra) ]
  | |- context [Reqb ?a ?b] =>
      first [ replace (Reqb a b) with true by (symmetry; apply Reqb_true; lra)
            | replace (Reqb a b) with false by (symmetry; apply Reqb_false; lra) ]
  end.

(** Evaluating the rectangle tests of a goal whose rectangles are known. *)
Ltac rect_tests :=
  repeat match goal with
  | |- context [existsb ?f ?l] =>
      let b := eval vm_compute in (existsb f l) in
      change (existsb f l) with b
  end.

(* --------------------------------------------------------------------- *)
(** ** Loot                                                              *)
(* --------------------------------------------------------------------- *)

Section LootProperties.
Import Loot.

Lemma steal_time_init id x y t v :
  steal_time (LootItem_init id x y t v) = _get_steal_time t v.
Proof. reflexivity. Qed.

Lemma base_time_positive t : 0 < dict_get base_times t 2.
Proof. destruct t; simpl; lra. Qed.

(** C6.  The steal duration of every loot item is
    [baseTime(type) * (1 + value/1000)] for a fixed table of positive base
    times in which CASH is the smallest and ARTIFACT the largest entry; a
    CASH item is stolen strictly faster than an ARTIFACT item of the same
    value (for every value above -1000, so for every positive one, and for
    200 in particular); and for a fixed type the duration grows strictly
    with the value. *)
Theorem steal_time_by_type_and_value :
  exists baseTime : LootType -> R,
    (forall t, 0 < baseTime t) /\
    (forall t, t <> CASH -> baseTime CASH < baseTime t) /\
    (forall t, t <> ARTIFACT -> baseTime t < baseTime ARTIFACT) /\
    (forall id x y t v,
        steal_time (LootItem_init id x y t v) = baseTime t * (1 + IZR v / 1000)) /\
    (forall id x y id' x' y' v,
        (-1000 < v)%Z ->
        steal_time (LootItem_init id x y CASH v)
        < steal_time (LootItem_init id' x' y' ARTIFACT v)) /\
    (forall id x y id' x' y',
        steal_time (LootItem_init id x y CASH 200)
        < steal_time (LootItem_init id' x' y' ARTIFACT 200)) /\
    (forall id x y id' x' y' t v1 v2,
        (v1 < v2)%Z ->
        steal_time (LootItem_init id x y t v1)
        < steal_time (LootItem_init id' x' y' t v2)).
Proof.
  exists (fun t => dict_get base_times t 2).
  split; [exact base_time_positive|].
  split; [intros [] H; simpl; try lra; congruence|].
  split; [intros [] H; simpl; try lra; congruence|].
  split; [reflexivity|].
  split.
  { intros. rewrite !steal_time_init. unfold _get_steal_time. simpl.
    apply IZR_lt in H. lra. }
  split.
  { intros. rewrite !steal_time_init. unfold _get_steal_time. simpl. lra. }
  intros id x y id' x' y' t v1 v2 H. rewrite !steal_time_init.
  unfold _get_steal_time. apply IZR_lt in H.
  pose proof (base_time_positive t) as Hb. nra.
Qed.

Lemma steal_time_by_type_and_value_witness :
  steal_time (LootItem_init 0 100 100 CASH 200)
  < steal_time (LootItem_init 1 400 250 ARTIFACT 200)
  /\ steal_time (LootItem_init 0 100 100 JEWELS 300)
     < steal_time (LootItem_init 0 100 100 JEWELS 800).
Proof.
  destruct steal_time_by_type_and_value as (b & _ & _ & _ & _ & Hca & _ & Hmono).
  split.
  - apply Hca. lia.
  - apply Hmono. lia.
Defined.

(** C7.  On an item that is already being stolen, [start_stealing] returns
    failure and leaves the item (flag and progress included) as it was;
    [stop_stealing] succeeds, clears the flag, resets the progress to 0 and
    touches nothing else. *)
Theorem stealing_restart_and_stop (it : LootItem) :
  being_stolen it = true ->
  start_stealing it = (false, it) /\
  fst (stop_stealing it) = true /\
  being_stolen (snd (stop_stealing it)) = false /\
  steal_progress (snd (stop_stealing it)) = 0 /\
  uid (snd (stop_stealing it)) = uid it /\
  loot_type (snd (stop_stealing it)) = loot_type it /\
  value (snd (stop_stealing it)) = value it /\
  steal_time (snd (stop_stealing it)) = steal_time it.
Proof.
  intros H. unfold start_stealing, stop_stealing. rewrite H. simpl. tauto.
Qed.

Lemma stealing_restart_and_stop_witness :
  let it := snd (start_stealing (LootItem_init 0 100 100 CASH 200)) in
  being_stolen it = true /\
  start_stealing it = (false, it) /\
  steal_progress (snd (stop_stealing it)) = 0.
Proof.
  intros it.
  assert (H : being_stolen it = true) by reflexivity.
  split; [exact H|].
  destruct (stealing_restart_and_stop it H) as (Hs & _ & _ & Hp & _).
  split; [exact Hs | exact Hp].
Defined.

(** Adding and removing a live item moves the live total by its value. *)
Lemma live_value_insert (sprites : gmap nat LootItem) k it :
  sprites !! k = None ->
  map_fold (fun _ it acc => (value it + acc)%Z) 0%Z (<[k := it]> sprites)
  = (value it + map_fold (fun _ it acc => (value it + acc)%Z) 0%Z sprites)%Z.
Proof.
  intros H. apply (map_fold_insert_L (fun _ it acc => (value it + acc)%Z)); [|exact H].
  intros. lia.
Qed.

Lemma live_value_delete (sprites : gmap nat LootItem) k it :
  sprites !! k = Some it ->
  map_fold (fun _ it acc => (value it + acc)%Z) 0%Z sprites
  = (value it + map_fold (fun _ it acc => (value it + acc)%Z) 0%Z (delete k sprites))%Z.
Proof.
  intros H. apply (map_fold_delete_L (fun _ it acc => (value it + acc)%Z)); [|exact H].
  intros. lia.
Qed.

Lemma generate_loot_identities m x y t v dt dv :
  identities_ok m -> identities_ok (snd (generate_loot m x y t v dt dv)).
Proof.
  intros H k Hk. simpl in *.
  rewrite lookup_insert_ne by lia. apply H. lia.
Qed.

Lemma generate_loot_balance m x y t v dt dv :
  identities_ok m -> accounts_balance m ->
  accounts_balance (snd (generate_loot m x y t v dt dv)).
Proof.
  unfold accounts_balance, live_value. intros Hid Hb. simpl.
  rewrite live_value_insert by (apply Hid; lia). simpl. lia.
Qed.

Lemma collect_loot_identities m it :
  identities_ok m -> identities_ok (snd (collect_loot m it)).
Proof.
  intros H k Hk. unfold collect_loot in *.
  destruct (loot_sprites m !! uid it) eqn:E; simpl in *.
  - apply lookup_delete_None. right. now apply H.
  - now apply H.
Qed.

Lemma collect_loot_balance m it :
  accounts_balance m -> accounts_balance (snd (collect_loot m it)).
Proof.
  unfold accounts_balance, live_value, collect_loot. intros Hb.
  destruct (loot_sprites m !! uid it) as [it'|] eqn:E; simpl; [|exact Hb].
  rewrite (live_value_delete _ _ _ E) in Hb. lia.
Qed.

Lemma init_identities : identities_ok LootManager_init.
Proof.
  intros k Hk. cbn in Hk. cbn.
  repeat (rewrite lookup_insert_ne by lia). apply lookup_empty.
Qed.

Lemma init_balance : accounts_balance LootManager_init.
Proof.
  unfold LootManager_init, create_test_loot.
  repeat (apply generate_loot_balance;
          [repeat apply generate_loot_identities; intros k _; apply lookup_empty|]).
  reflexivity.
Qed.

Lemma reachable_identities m : reachable m -> identities_ok m.
Proof.
  induction 1.
  - exact init_identities.
  - now apply generate_loot_identities.
  - now apply collect_loot_identities.
Qed.

(** C10.  [collected_value] plus the values of the live loot items equals
    [total_value]: after construction, and after every [generate_loot] and
    [collect_loot] on a manager in which it held, hence in every manager a
    program can reach; collecting an item that is not in the live
    collection returns 0 and changes nothing. *)
Theorem loot_accounts_balance :
  accounts_balance LootManager_init /\
  (forall m x y t v dt dv,
      identities_ok m -> accounts_balance m ->
      accounts_balance (snd (generate_loot m x y t v dt dv))) /\
  (forall m it,
      accounts_balance m -> accounts_balance (snd (collect_loot m it))) /\
  (forall m, reachable m -> identities_ok m /\ accounts_balance m) /\
  (forall m it,
      loot_sprites m !! uid it = None -> collect_loot m it = (0%Z, m)).
Proof.
  split; [exact init_balance|].
  split; [exact generate_loot_balance|].
  split; [exact collect_loot_balance|].
  split.
  - intros m Hr. split; [now apply reachable_identities|].
    induction Hr.
    + exact init_balance.
    + apply generate_loot_balance; [now apply reachable_identities | assumption].
    + now apply collect_loot_balance.
  - intros m it H. unfold collect_loot. now rewrite H.
Qed.

Lemma loot_accounts_balance_witness :
  let m := snd (generate_loot LootManager_init 7 7 None None 41 99) in
  let it := LootItem_init 0 100 100 CASH 200 in
  accounts_balance (snd (collect_loot m it)) /\
  collect_loot (snd (collect_loot m it)) it = (0%Z, snd (collect_loot m it)).
Proof.
  intros m it.
  destruct loot_accounts_balance as (_ & _ & _ & Hreach & Habsent).
  split.
  - apply Hreach. apply reach_collect, reach_generate, reach_init.
  - apply Habsent. vm_compute. reflexivity.
Defined.

End LootProperties.

(* --------------------------------------------------------------------- *)
(** ** Map import                                                        *)
(* --------------------------------------------------------------------- *)

Section MapProperties.
Import Geometry MapLoader.

Lemma index_in_range {A} (l : list A) (i : Z) :
  (0 <= i < Z.of_nat (length l))%Z ->
  exists a, index l i = Ok a /\ nth_error l (Z.to_nat i) = Some a.
Proof.
  intros H. unfold index.
  replace (i <? 0)%Z with false by lia.
  replace ((i <? 0) || (Z.of_nat (length l) <=? i))%Z with false by lia.
  destruct (nth_error l (Z.to_nat i)) as [a|] eqn:E; [eauto|].
  apply nth_error_None in E. lia.
Qed.

Lemma find_tile_info_total sets tile_id :
  exists info, find_tile_info sets tile_id = Ok info.
Proof.
  induction sets as [|ts sets IH]; simpl; [eauto|].
  destruct (_ && _)%Z eqn:E; [|exact IH].
  apply andb_prop in E as [E1 E2].
  destruct (index_in_range (get (tiles ts) []) (tile_id - get (firstgid ts) 1)%Z)
    as (a & Ha & _); [lia | eauto].
Qed.


Lemma _get_tile_info_total m tile_id :
  exists info, _get_tile_info m tile_id = Ok info.
Proof.
  unfold _get_tile_info. destruct (map_data m); [apply find_tile_info_total | eauto].
Qed.


Lemma same_frame_refl m : same_frame m m.
Proof. now repeat split. Qed.

Lemma same_frame_trans m1 m2 m3 :
  same_frame m1 m2 -> same_frame m2 m3 -> same_frame m1 m3.
Proof. unfold same_frame. intuition congruence. Qed.

Lemma add_to_group_frame m tile : same_frame m (add_to_group m tile).
Proof.
  destruct m. unfold add_to_group, same_frame.
  repeat (destruct (String.eqb _ _); [now repeat split|]). now repeat split.
Qed.

Lemma create_tile_total layer_data y m x :
  (0 <= y * width m + x)%Z ->
  exists m', create_tile layer_data y m x = Ok m' /\ same_frame m m'.
Proof.
  intros Hidx. unfold create_tile.
  destruct (Z.leb_spec (Z.of_nat (length layer_data)) (y * width m + x));
    [eauto using same_frame_refl|].
  destruct (index_in_range layer_data (y * width m + x)%Z) as (tile_id & -> & _);
    [lia|]. simpl.
  destruct (tile_id =? 0)%Z; [eauto using same_frame_refl|].
  destruct (_get_tile_info_total m tile_id) as (info & ->). simpl.
  eauto using add_to_group_frame.
Qed.

Lemma for_each_total {A} (Q : A -> Prop) (l : list A)
    (body : MapLoader -> A -> result MapLoader) (m0 : MapLoader) :
  (forall m a, same_frame m0 m -> Q a ->
               exists m', body m a = Ok m' /\ same_frame m m') ->
  Forall Q l ->
  forall m, same_frame m0 m ->
            exists m', for_each l body m = Ok m' /\ same_frame m m'.
Proof.
  intros Hbody. induction 1 as [|a l Ha _ IH]; intros m Hm; simpl.
  - eauto using same_frame_refl.
  - destruct (Hbody m a Hm Ha) as (m1 & -> & F1). simpl.
    destruct (IH m1) as (m2 & -> & F2); eauto using same_frame_trans.
Qed.

Lemma range_bounds n : Forall (fun i => (0 <= i < n)%Z) (range n).
Proof.
  unfold range. apply Forall_forall. intros i Hi.
  apply list_elem_of_In, in_map_iff in Hi as (k & <- & Hk).
  apply in_seq in Hk. lia.
Qed.

Lemma row_total layer_data y m :
  (0 <= y)%Z ->
  exists m', for_each (range (width m)) (create_tile layer_data y) m = Ok m'
             /\ same_frame m m'.
Proof.
  intros Hy.
  apply (for_each_total (fun x => 0 <= x < width m)%Z) with (m0 := m);
    [| apply range_bounds | apply same_frame_refl].
  intros m1 x (Hw & _) Hx. apply create_tile_total. rewrite Hw. nia.
Qed.

Lemma layer_total layer_data m :
  exists m', for_each (range (height m))
               (fun m y => for_each (range (width m)) (create_tile layer_data y) m) m
             = Ok m' /\ same_frame m m'.
Proof.
  apply (for_each_total (fun y => 0 <= y)%Z) with (m0 := m);
    [| | apply same_frame_refl].
  - intros m1 y _ Hy. now apply row_total.
  - eapply Forall_impl; [apply range_bounds|]. simpl. lia.
Qed.

Lemma _create_tiles_total m : exists m', _create_tiles m = Ok m'.
Proof.
  unfold _create_tiles. destruct (map_data m) as [doc|]; [|eauto].
  destruct (for_each_total (fun _ => True) (get (layers doc) [])
    (fun m layer =>
       for_each (range (height m))
         (fun m y => for_each (range (width m))
                       (create_tile (get (data layer) []) y) m) m) m)
    with (m := m) as (m' & Hm' & _); eauto using same_frame_refl.
  - intros m1 layer _ _. apply layer_total.
  - apply Forall_forall. trivial.
Qed.





End MapProperties.

(* --------------------------------------------------------------------- *)
(** ** Line of sight                                                     *)
(* --------------------------------------------------------------------- *)

Section LineOfSight.
Import Geometry Collision.

Variables (start_pos : R * R) (dx dy distance : R) (walls : list Rect) (step : R).
Hypothesis step_positive : 0 < step.

Local Abbreviation hit d := (existsb (colliderect (check_rect start_pos dx dy d)) walls).

(** Enough steps from [c] to pass the end of the segment: the loop leaves
    with [True] when no probe on the way meets a wall. *)
Lemma cast_ray_clear (n : nat) :
  forall c fuel,
    distance <= c + INR n * step ->
    (forall k, c + INR k * step < distance -> hit (c + INR k * step) = false) ->
    (n <= fuel)%nat ->
    cast_ray fuel start_pos dx dy distance walls step c = Some true.
Proof.
  induction n as [|n IH]; intros c fuel Hend Hclear Hfuel.
  - simpl in Hend.
    destruct fuel; simpl; replace (Rltb c distance) with false
      by (symmetry; apply Rltb_false; lra); reflexivity.
  - destruct fuel as [|fuel]; [lia|]. simpl.
    destruct (Rltb c distance) eqn:Hc; [|reflexivity].
    apply Rltb_true in Hc.
    pose proof (Hclear 0%nat) as H0. simpl in H0.
    replace (c + 0 * step) with c in H0 by ring.
    rewrite H0 by exact Hc.
    apply IH; [| |lia].
    + rewrite S_INR in Hend. lra.
    + intros k Hk.
      replace (c + step + INR k * step) with (c + INR (S k) * step) in *
        by (rewrite S_INR; ring).
      now apply Hclear.
Qed.

(** A probe that meets a wall before the end of the segment stops the loop
    with [False], at that probe or at an earlier one. *)
Lemma cast_ray_blocked (k : nat) :
  forall c fuel,
    c + INR k * step < distance ->
    hit (c + INR k * step) = true ->
    (S k <= fuel)%nat ->
    cast_ray fuel start_pos dx dy distance walls step c = Some false.
Proof.
  induction k as [|k IH]; intros c fuel Hin Hhit Hfuel;
    (destruct fuel as [|fuel]; [lia|]); simpl.
  - simpl in Hin, Hhit. replace (c + 0 * step) with c in * by ring.
    replace (Rltb c distance) with true by (symmetry; apply Rltb_true; lra).
    now rewrite Hhit.
  - assert (0 <= INR k) by apply pos_INR.
    rewrite S_INR in Hin.
    replace (Rltb c distance) with true by (symmetry; apply Rltb_true; nra).
    destruct (hit c); [reflexivity|].
    apply IH; [| |lia].
    + lra.
    + replace (c + step + INR k * step) with (c + INR (S k) * step)
        by (rewrite S_INR; ring).
      exact Hhit.
Qed.

(** The number of steps after which the samples have passed [distance]. *)
Lemma steps_to_pass : exists n, distance <= 0 + INR n * step.
Proof.
  exists (Z.to_nat (up (distance / step))).
  destruct (archimed (distance / step)) as [Hup _].
  assert (Hn : IZR (up (distance / step)) <= INR (Z.to_nat (up (distance / step)))).
  { rewrite INR_IZR_INZ. apply IZR_le. lia. }
  assert (Hd : distance = distance / step * step) by (field; lra).
  rewrite Hd at 1. nra.
Qed.

End LineOfSight.

Section LineOfSightClaims.
Import Geometry Collision.

Lemma zero_length (a b : R) : sqrt ((a - a) * (a - a) + (b - b) * (b - b)) = 0.
Proof.
  replace ((a - a) * (a - a) + (b - b) * (b - b)) with 0 by ring. apply sqrt_0.
Qed.

(** The C cast leaves a coordinate within one unit of the float, or at
    [INT_MIN] when the float lies below the range of [int]: either way the
    4 by 4 probe built at [x - 2] spans [x] whenever [x] lies between two
    C [int]s. *)
Lemma probe_spans (x : R) (lo hi : Z) :
  (INT_MIN <= lo)%Z -> (hi <= INT_MAX)%Z ->
  IZR lo <= x < IZR hi ->
  (int_of_float (x - 2) < hi /\ lo < int_of_float (x - 2) + 4)%Z.
Proof.
  intros Hlo Hhi Hx. pose proof (trunc_near (x - 2)) as Ht.
  apply IZR_le in Hlo, Hhi. unfold INT_MIN, INT_MAX in *.
  unfold int_of_float. destruct (fits_int (trunc (x - 2))) eqn:Hfit.
  - split; apply lt_IZR; rewrite ?plus_IZR; lra.
  - assert (Hout : ~ (INT_MIN <= trunc (x - 2) <= INT_MAX)%Z).
    { intros H. apply fits_int_spec in H. congruence. }
    assert (Hbelow : (trunc (x - 2) < INT_MIN)%Z).
    { destruct (Z_lt_le_dec (trunc (x - 2)) INT_MIN) as [H|H]; [exact H|].
      exfalso. apply Hout. split; [exact H|].
      apply le_IZR. unfold INT_MAX. lra. }
    apply IZR_lt in Hbelow. unfold INT_MIN in *.
    split; apply lt_IZR; rewrite ?plus_IZR; lra.
Qed.

(** A probe built around a point inside a wall meets the wall. *)
Lemma probe_meets (x y : R) (r : Rect) :
  int_sides r -> inside r x y ->
  colliderect (Rect_of_floats (x - 2) (y - 2) 4 4) r = true.
Proof.
  intros (Hl & Hr & Ht & Hb) [Hx Hy].
  destruct (probe_spans x (left r) (right r) Hl Hr Hx) as [Hx1 Hx2].
  destruct (probe_spans y (top r) (bottom r) Ht Hb Hy) as [Hy1 Hy2].
  assert (Hw : (left r < right r)%Z) by (apply lt_IZR; lra).
  assert (Hh : (top r < bottom r)%Z) by (apply lt_IZR; lra).
  unfold colliderect, Rect_of_floats, right, bottom in *. simpl.
  replace (width r =? 0)%Z with false by (symmetry; apply Z.eqb_neq; lia).
  replace (height r =? 0)%Z with false by (symmetry; apply Z.eqb_neq; lia).
  simpl. rewrite !andb_true_iff, !Z.ltb_lt. lia.
Qed.

(** A stretch of the segment longer than [step] holds a sample. *)
Lemma sample_in_stretch (step a b : R) :
  0 < step -> 0 <= a -> a + step < b ->
  exists k : nat, a < INR k * step < b.
Proof.
  intros Hstep Ha Hab.
  destruct (archimed (a / step)) as [Hup Hlow].
  assert (Hq : 0 <= a / step) by (apply Rle_mult_inv_pos; lra).
  assert (Hpos : (0 <= up (a / step))%Z)
    by (apply le_IZR; lra).
  exists (Z.to_nat (up (a / step))).
  rewrite INR_IZR_INZ, Z2Nat.id by exact Hpos.
  assert (Ha' : a = a / step * step) by (field; lra).
  split.
  - rewrite Ha' at 1. apply Rmult_lt_compat_r; lra.
  - assert (IZR (up (a / step)) * step <= (a / step + 1) * step)
      by (apply Rmult_le_compat_r; lra).
    replace ((a / step + 1) * step) with (a + step) in * by (field; lra).
    lra.
Qed.

(** C3, as the code has it.  Equal endpoints give [True] whatever the fuel.
    With a positive step the loop ends: if no sampled probe square meets a
    wall the answer is [True], and if some sampled probe square meets a
    wall the answer is [False].  What decides is the probes, one every
    [step] units and each 4 by 4.  A sample point inside an obstacle
    blocks the sight, so a segment that stays inside an obstacle over a
    stretch longer than [step] is blocked; an obstacle the segment is
    inside only between two samples can go unseen, however wide it is. *)
Theorem line_of_sight_follows_the_probes :
  forall (start_pos end_pos : R * R) (walls : list Rect) (step : R),
    (forall fuel, check_line_of_sight fuel start_pos start_pos walls step = Some true)
    /\
    (0 < step ->
     (forall k, sampled start_pos end_pos step k ->
                existsb (colliderect (probe start_pos end_pos step k)) walls = false) ->
     exists n, forall fuel, (n <= fuel)%nat ->
       check_line_of_sight fuel start_pos end_pos walls step = Some true)
    /\
    (0 < step ->
     forall k, sampled start_pos end_pos step k ->
               existsb (colliderect (probe start_pos end_pos step k)) walls = true ->
     exists n, forall fuel, (n <= fuel)%nat ->
       check_line_of_sight fuel start_pos end_pos walls step = Some false)
    /\
    (0 < step ->
     forall k r, sampled start_pos end_pos step k ->
                 In r walls -> int_sides r ->
                 inside r (fst (point_at start_pos end_pos (INR k * step)))
                          (snd (point_at start_pos end_pos (INR k * step))) ->
     exists n, forall fuel, (n <= fuel)%nat ->
       check_line_of_sight fuel start_pos end_pos walls step = Some false)
    /\
    (0 < step ->
     forall r a b,
       In r walls -> int_sides r ->
       0 <= a -> a + step < b ->
       b <= sqrt ((fst end_pos - fst start_pos) * (fst end_pos - fst start_pos)
                  + (snd end_pos - snd start_pos) * (snd end_pos - snd start_pos)) ->
       (forall s, a < s < b ->
                  inside r (fst (point_at start_pos end_pos s))
                           (snd (point_at start_pos end_pos s))) ->
     exists n, forall fuel, (n <= fuel)%nat ->
       check_line_of_sight fuel start_pos end_pos walls step = Some false).
Proof.
  intros start_pos end_pos walls step.
  assert (Hblocked :
    0 < step ->
    forall k, sampled start_pos end_pos step k ->
              existsb (colliderect (probe start_pos end_pos step k)) walls = true ->
    exists n, forall fuel, (n <= fuel)%nat ->
      check_line_of_sight fuel start_pos end_pos walls step = Some false).
  { intros Hstep k Hk Hhit. unfold check_line_of_sight, sampled, probe in *.
    set (dx := fst end_pos - fst start_pos) in *.
    set (dy := snd end_pos - snd start_pos) in *.
    set (distance := sqrt (dx * dx + dy * dy)) in *.
    assert (0 <= INR k) by apply pos_INR.
    replace (Reqb distance 0) with false by (symmetry; apply Reqb_false; nra).
    exists (S k). intros fuel Hfuel.
    apply cast_ray_blocked with (k := k); [exact Hstep | | | exact Hfuel];
      replace (0 + INR k * step) with (INR k * step) by ring; assumption. }
  assert (Hinside :
    0 < step ->
    forall k r, sampled start_pos end_pos step k ->
                In r walls -> int_sides r ->
                inside r (fst (point_at start_pos end_pos (INR k * step)))
                         (snd (point_at start_pos end_pos (INR k * step))) ->
    exists n, forall fuel, (n <= fuel)%nat ->
      check_line_of_sight fuel start_pos end_pos walls step = Some false).
  { intros Hstep k r Hk Hr Hsides Hin.
    apply (Hblocked Hstep k Hk). apply existsb_exists. exists r.
    split; [exact Hr|]. unfold probe, check_rect.
    now apply probe_meets. }
  split; [|split; [|split; [exact Hblocked | split; [exact Hinside|]]]].
  - intros fuel. unfold check_line_of_sight. rewrite zero_length.
    now rewrite Reqb_refl.
  - intros Hstep Hclear. unfold check_line_of_sight, sampled, probe in *.
    set (dx := fst end_pos - fst start_pos) in *.
    set (dy := snd end_pos - snd start_pos) in *.
    set (distance := sqrt (dx * dx + dy * dy)) in *.
    destruct (Reqb distance 0); [exists 0%nat; reflexivity|].
    destruct (steps_to_pass distance step Hstep) as (n & Hn).
    exists n. intros fuel Hfuel.
    apply cast_ray_clear with (n := n); [exact Hn | | exact Hfuel].
    intros k Hk. replace (0 + INR k * step) with (INR k * step) in * by ring.
    now apply Hclear.
  - intros Hstep r a b Hr Hsides Ha Hab Hb Hin.
    destruct (sample_in_stretch step a b Hstep Ha Hab) as (k & Hk1 & Hk2).
    apply (Hinside Hstep k r); [| exact Hr | exact Hsides | apply Hin; lra].
    unfold sampled. lra.
Qed.

(** A segment that clips the corner of a 100 by 100 wall between two
    probes: from (8, 13) to (11, 9), of length 5, with the default step 5.
    The only probe is the square at the start; the segment is inside the
    wall around (10.1, 10.2). *)
Lemma corner_clip_length : sqrt ((11 - 8) * (11 - 8) + (9 - 13) * (9 - 13)) = 5.
Proof.
  replace ((11 - 8) * (11 - 8) + (9 - 13) * (9 - 13)) with (5 * 5) by ring.
  apply sqrt_square. lra.
Qed.

Lemma wide_obstacle_crossed_unseen :
  let wall := mkRect 10 10 100 100 in
  crosses (8, 13) (11, 9) wall /\
  wider_than wall 5 /\
  forall fuel, (1 <= fuel)%nat ->
    check_line_of_sight fuel (8, 13) (11, 9) [wall] 5 = Some true.
Proof.
  intros wall. split; [|split].
  - unfold crosses, inside, wall, right, bottom. simpl.
    rewrite !plus_IZR.
    split; [lra|]. split; [lra|]. exists (7 / 10). lra.
  - unfold wider_than, wall. simpl. lra.
  - intros [|fuel] Hfuel; [lia|].
    unfold check_line_of_sight. simpl fst. simpl snd.
    rewrite corner_clip_length. float_cmp. simpl. float_cmp.
    unfold check_rect, Rect_of_floats. simpl fst. simpl snd.
    replace (8 + (11 - 8) / 5 * 0 - 2) with (IZR 6) by (simpl; field).
    replace (13 + (9 - 13) / 5 * 0 - 2) with (IZR 11) by (simpl; field).
    rewrite !int_of_float_IZR by reflexivity.
    subst wall. rect_tests.
    destruct fuel; simpl; float_cmp; reflexivity.
Qed.

Lemma line_of_sight_follows_the_probes_witness :
  (exists n, forall fuel, (n <= fuel)%nat ->
     check_line_of_sight fuel (0, 0) (0, 4) [] 5 = Some true) /\
  (exists n, forall fuel, (n <= fuel)%nat ->
     check_line_of_sight fuel (0, 0) (0, 4) [mkRect 0 0 8 8] 5 = Some false) /\
  (exists n, forall fuel, (n <= fuel)%nat ->
     check_line_of_sight fuel (0, 0) (0, 40) [mkRect (-4) 10 8 8] 5 = Some false).
Proof.
  assert (Hlen : forall l, 0 <= l ->
                 sqrt ((0 - 0) * (0 - 0) + (l - 0) * (l - 0)) = l).
  { intros l Hl. replace ((0 - 0) * (0 - 0) + (l - 0) * (l - 0)) with (l * l) by ring.
    now apply sqrt_square. }
  split; [|split].
  - destruct (line_of_sight_follows_the_probes (0, 0) (0, 4) [] 5)
      as (_ & Hclear & _).
    apply Hclear; [lra|]. reflexivity.
  - destruct (line_of_sight_follows_the_probes (0, 0) (0, 4) [mkRect 0 0 8 8] 5)
      as (_ & _ & Hhit & _).
    apply (Hhit ltac:(lra) 0%nat).
    + unfold sampled. simpl. rewrite Hlen; lra.
    + unfold probe, check_rect, Rect_of_floats. simpl fst. simpl snd.
      rewrite Hlen by lra. simpl INR.
      replace (0 + (0 - 0) / 4 * (0 * 5) - 2) with (IZR (-2)) by (simpl; field).
      replace (0 + (4 - 0) / 4 * (0 * 5) - 2) with (IZR (-2)) by (simpl; field).
      rewrite !int_of_float_IZR by reflexivity. reflexivity.
  - destruct (line_of_sight_follows_the_probes (0, 0) (0, 40)
                [mkRect (-4) 10 8 8] 5) as (_ & _ & _ & _ & Hstretch).
    apply (Hstretch ltac:(lra) (mkRect (-4) 10 8 8) 10 16).
    + now left.
    + unfold int_sides, INT_MIN, INT_MAX, right, bottom. simpl. lia.
    + lra.
    + lra.
    + simpl fst. simpl snd. rewrite Hlen; lra.
    + intros s Hs. unfold point_at, inside, right, bottom. simpl fst. simpl snd.
      rewrite Hlen by lra. simpl left. simpl top. simpl width. simpl height.
      replace (0 + (0 - 0) / 40 * s) with 0 by field.
      replace (0 + (40 - 0) / 40 * s) with s by field.
      rewrite !plus_IZR. lra.
Defined.

End LineOfSightClaims.

(* --------------------------------------------------------------------- *)
(** ** Guard: the detection check                                        *)
(* --------------------------------------------------------------------- *)

Section Detection.
Import Geometry GuardAI.

Lemma vlength_self (a : Vector2) : vlength (vsub a a) = 0.
Proof. unfold vlength, vsub. simpl. apply zero_length. Qed.

Lemma vlength_nonneg (a : Vector2) : 0 <= vlength a.
Proof. apply sqrt_pos. Qed.

(** The chance the code computes is the one of the specification. *)
Lemma detection_chance_spec (distance vd noise : R) (crouching : bool) :
  (if crouching then (1 - distance / vd) * (1 + noise / 100) * (1 / 2)
   else (1 - distance / vd) * (1 + noise / 100))
  = spec_detection_probability distance vd noise crouching.
Proof. unfold spec_detection_probability. destruct crouching; lra. Qed.

Lemma check_beyond_view_distance g p roll :
  view_distance g < distance_to g p ->
  check_player_detection g p roll = Ok (false, g).
Proof.
  intros H. unfold check_player_detection. fold (distance_to g p).
  now replace (Rltb _ _) with true by (symmetry; now apply Rltb_true).
Qed.

Lemma check_outside_view_angle g p roll :
  distance_to g p <= view_distance g ->
  view_angle g / 2 < angle_diff g p ->
  check_player_detection g p roll = Ok (false, g).
Proof.
  intros Hd Ha. unfold check_player_detection.
  fold (distance_to g p). fold (angle_diff g p).
  replace (Rltb (view_distance g) _) with false
    by (symmetry; now apply Rltb_false).
  now replace (Rltb (view_angle g / 2) _) with true
    by (symmetry; now apply Rltb_true).
Qed.

Lemma check_in_view g p roll :
  view_distance g <> 0 ->
  distance_to g p <= view_distance g ->
  angle_diff g p <= view_angle g / 2 ->
  check_player_detection g p roll
  = Ok (if Rltb roll (spec_detection_probability (distance_to g p)
                        (view_distance g) (noise_level p) (is_crouching p))
        then (true, alert g (player_position p))
        else (false, g)).
Proof.
  intros Hvd Hd Ha. unfold check_player_detection.
  fold (distance_to g p). fold (angle_diff g p).
  replace (Rltb (view_distance g) _) with false
    by (symmetry; now apply Rltb_false).
  replace (Rltb (view_angle g / 2) _) with false
    by (symmetry; now apply Rltb_false).
  unfold pydiv.
  replace (Reqb (view_distance g) 0) with false
    by (symmetry; now apply Reqb_false).
  simpl. rewrite detection_chance_spec.
  now destruct (Rltb roll _).
Qed.

(** The check either leaves the guard alone or alerts it; with a nonzero
    view distance it does not raise. *)
Lemma check_outcome g p roll r :
  check_player_detection g p roll = Ok r ->
  r = (false, g) \/ r = (true, alert g (player_position p)).
Proof.
  unfold check_player_detection.
  destruct (Rltb (view_distance g) _); [intros [= <-]; now left|].
  destruct (Rltb (view_angle g / 2) _); [intros [= <-]; now left|].
  unfold pydiv. destruct (Reqb (view_distance g) 0); [discriminate|]. simpl.
  destruct (Rltb roll _); intros [= <-]; [now right | now left].
Qed.

Lemma check_total g p roll :
  view_distance g <> 0 ->
  exists r, check_player_detection g p roll = Ok r.
Proof.
  intros Hvd. unfold check_player_detection.
  destruct (Rltb (view_distance g) _); [eauto|].
  destruct (Rltb (view_angle g / 2) _); [eauto|].
  unfold pydiv.
  replace (Reqb (view_distance g) 0) with false
    by (symmetry; now apply Reqb_false).
  simpl. destruct (Rltb roll _); eauto.
Qed.

(** C1.  Within view distance and view angle the check succeeds exactly
    when the draw is below
    [(1 - distance/view_distance) * (1 + noise/100)], halved for a crouching
    player.  At distance 0 with noise 0 and no crouching that probability
    is 1, so every draw of [[0, 1)] succeeds; at distance [view_distance] it
    is 0, so no draw succeeds. *)
Theorem detection_probability_in_view (g : Guard) (p : Player) (roll : R) :
  view_distance g <> 0 ->
  distance_to g p <= view_distance g ->
  angle_diff g p <= view_angle g / 2 ->
  let chance :=
    spec_detection_probability (distance_to g p) (view_distance g)
      (noise_level p) (is_crouching p) in
  check_player_detection g p roll
  = Ok (if Rltb roll chance then (true, alert g (player_position p))
        else (false, g))
  /\ (distance_to g p = 0 -> noise_level p = 0 -> is_crouching p = false ->
      chance = 1 /\
      (0 <= roll < 1 ->
       check_player_detection g p roll = Ok (true, alert g (player_position p))))
  /\ (distance_to g p = view_distance g ->
      chance = 0 /\
      (0 <= roll -> check_player_detection g p roll = Ok (false, g))).
Proof.
  intros Hvd Hd Ha chance.
  pose proof (check_in_view g p roll Hvd Hd Ha) as Hcheck. fold chance in Hcheck.
  split; [exact Hcheck|]. split.
  - intros H0 Hn Hc.
    assert (Hone : chance = 1).
    { unfold chance, spec_detection_probability. rewrite H0, Hn, Hc. field.
      exact Hvd. }
    split; [exact Hone|]. intros Hroll. rewrite Hcheck, Hone.
    now replace (Rltb roll 1) with true by (symmetry; apply Rltb_true; lra).
  - intros Heq.
    assert (Hzero : chance = 0).
    { unfold chance, spec_detection_probability. rewrite Heq.
      destruct (is_crouching p); field; exact Hvd. }
    split; [exact Hzero|]. intros Hroll. rewrite Hcheck, Hzero.
    now replace (Rltb roll 0) with false by (symmetry; apply Rltb_false; lra).
Qed.

(** C5.  Whatever the state of the guard, a successful check leaves it
    ALERTED, its alert position at the player's position, its state timer
    at 0, its speed at the run speed and its suspicion at 100; every other
    attribute is as before. *)
Theorem detection_alerts_the_guard (g g' : Guard) (p : Player) (roll : R) :
  check_player_detection g p roll = Ok (true, g') ->
  state g' = ALERTED /\
  alert_position g' = Some (player_position p) /\
  state_timer g' = 0 /\
  current_speed g' = run_speed g /\
  suspicion_level g' = 100%Z /\
  position g' = position g /\
  velocity g' = velocity g /\
  patrol_points g' = patrol_points g /\
  current_patrol_point g' = current_patrol_point g /\
  patrol_wait_time g' = patrol_wait_time g /\
  wait_timer g' = wait_timer g /\
  walk_speed g' = walk_speed g /\
  run_speed g' = run_speed g /\
  view_distance g' = view_distance g /\
  view_angle g' = view_angle g /\
  view_direction g' = view_direction g /\
  rect g' = rect g.
Proof.
  intros H. apply check_outcome in H as [H|H]; [discriminate|].
  injection H as ->. simpl. repeat split; reflexivity.
Qed.

(** C9.  A check that returns false leaves the guard as it was, and the
    check does return false when the player is beyond the view distance,
    when the player is outside the view half-angle, and when the draw is
    not below the detection probability. *)
Theorem failed_detection_changes_nothing (g : Guard) (p : Player) (roll : R) :
  (forall g', check_player_detection g p roll = Ok (false, g') -> g' = g) /\
  (view_distance g < distance_to g p ->
   check_player_detection g p roll = Ok (false, g)) /\
  (distance_to g p <= view_distance g ->
   view_angle g / 2 < angle_diff g p ->
   check_player_detection g p roll = Ok (false, g)) /\
  (view_distance g <> 0 ->
   distance_to g p <= view_distance g ->
   angle_diff g p <= view_angle g / 2 ->
   spec_detection_probability (distance_to g p) (view_distance g)
     (noise_level p) (is_crouching p) <= roll ->
   check_player_detection g p roll = Ok (false, g)).
Proof.
  split; [|split; [|split]].
  - intros g' H. apply check_outcome in H as [H|H]; [|discriminate].
    now injection H.
  - apply check_beyond_view_distance.
  - apply check_outside_view_angle.
  - intros Hvd Hd Ha Hroll. rewrite check_in_view by assumption.
    now replace (Rltb roll _) with false by (symmetry; now apply Rltb_false).
Qed.


(** A player straight ahead of a guard that looks along the x axis. *)
Lemma sqrt_of_square (d e : R) : 0 <= d -> e = d * d -> sqrt e = d.
Proof. intros Hd ->. now apply sqrt_square. Qed.

Lemma atan2_ahead (y x : R) : y = 0 -> 0 <= x -> atan2 y x = 0.
Proof.
  intros -> Hx. unfold atan2. destruct (Rltb 0 x) eqn:E.
  - replace (0 / x) with 0 by (apply Rltb_true in E; field; lra). apply atan_0.
  - float_cmp. reflexivity.
Qed.

Lemma pymod_half_turn : pymod 180 360 = 180.
Proof.
  unfold pymod. replace (Int_part (180 / 360)) with 0%Z; [lra|].
  apply Int_part_spec. lra.
Qed.

Lemma straight_ahead g p (d : R) :
  0 <= d ->
  view_direction g = 0 ->
  vx (player_position p) = vx (position g) + d ->
  vy (player_position p) = vy (position g) ->
  distance_to g p = d /\ angle_diff g p = 0.
Proof.
  intros Hd Hv Hx Hy. split.
  - unfold distance_to, vlength, vsub. simpl. rewrite Hx, Hy.
    apply sqrt_of_square; [exact Hd | ring].
  - unfold angle_diff, vsub. simpl. rewrite Hx, Hy, Hv.
    rewrite atan2_ahead by lra.
    replace (degrees 0 - 0 + 180) with 180 by (unfold degrees; lra).
    rewrite pymod_half_turn. replace (180 - 180) with 0 by lra. apply Rabs_R0.
Qed.

Lemma detection_probability_in_view_witness :
  let g := Guard_init 0 0 None in
  let p := mkPlayer (mkVector2 0 0) 0 false in
  check_player_detection g p (1 / 2) = Ok (true, alert g (player_position p)).
Proof.
  intros g p.
  destruct (straight_ahead g p 0) as [Hd Ha]; [lra | reflexivity | simpl; lra | reflexivity |].
  assert (Hvd : view_distance g <> 0) by (simpl; lra).
  assert (Hd' : distance_to g p <= view_distance g) by (rewrite Hd; simpl; lra).
  assert (Ha' : angle_diff g p <= view_angle g / 2) by (rewrite Ha; simpl; lra).
  destruct (detection_probability_in_view g p (1 / 2) Hvd Hd' Ha') as (_ & Hnear & _).
  apply Hnear; [exact Hd | reflexivity | reflexivity | lra].
Defined.

Lemma detection_alerts_the_guard_witness :
  let g := Guard_init 0 0 None in
  let p := mkPlayer (mkVector2 0 0) 0 false in
  state (alert g (player_position p)) = ALERTED /\
  alert_position (alert g (player_position p)) = Some (mkVector2 0 0).
Proof.
  intros g p.
  destruct (detection_alerts_the_guard g (alert g (player_position p)) p (1 / 2))
    as (Hs & Hp & _).
  - destruct (straight_ahead g p 0) as [Hd Ha];
      [lra | reflexivity | simpl; lra | reflexivity |].
    rewrite check_in_view; [| simpl; lra | rewrite Hd; simpl; lra
                            | rewrite Ha; simpl; lra].
    rewrite Hd. unfold spec_detection_probability. simpl.
    now replace (Rltb _ _) with true by (symmetry; apply Rltb_true; lra).
  - split; [exact Hs | exact Hp].
Defined.

Lemma failed_detection_changes_nothing_witness :
  let g := Guard_init 0 0 None in
  let p := mkPlayer (mkVector2 200 0) 0 false in
  check_player_detection g p (1 / 2) = Ok (false, g).
Proof.
  intros g p.
  destruct (failed_detection_changes_nothing g p (1 / 2)) as (_ & Hfar & _).
  apply Hfar.
  destruct (straight_ahead g p 200) as [Hd _];
    [lra | reflexivity | simpl; lra | reflexivity |].
  rewrite Hd. simpl. lra.
Defined.

End Detection.

(* --------------------------------------------------------------------- *)
(** ** Guard: ticks                                                      *)
(* --------------------------------------------------------------------- *)

Section Ticks.
Import Geometry GuardAI GuardRules.

(** Case analysis on every test a handler makes. *)
Ltac handler_cases :=
  repeat match goal with
  | |- context [if ?b then _ else _] => destruct b eqn:?
  | |- context [match ?x with _ => _ end] => destruct x eqn:?
  end.

Lemma alert_keeps_route x y g pos :
  route_is_post x y g -> route_is_post x y (alert g pos).
Proof. intros [H1 H2]. split; assumption. Qed.

(** [move] by cases: the attempted position must be representable, and so
    must the old one when a wall sends the guard back. *)
Lemma move_cases g dt walls :
  move g dt walls
  = if representable (attempted g dt) then
      match walls with
      | Some (w0 :: ws) =>
          match filter (fun w => colliderect (rect (advanced g dt)) w) (w0 :: ws) with
          | _ :: _ =>
              if representable (position g) then Ok (rolled_back g dt)
              else Raise TypeError
          | [] => Ok (advanced g dt)
          end
      | _ => Ok (advanced g dt)
      end
    else Raise TypeError.
Proof.
  unfold move, set_center, representable. cbn [fst snd position set_position].
  fold (attempted g dt).
  destruct (fits_int (trunc (vx (attempted g dt)))
            && fits_int (trunc (vy (attempted g dt)))); [|reflexivity].
  cbv beta iota delta [rbind].
  destruct walls as [[|w0 ws]|]; try reflexivity.
  change (rect (set_rect (set_position g (attempted g dt))
           (centred (rect (set_position g (attempted g dt)))
              (trunc (vx (attempted g dt)), trunc (vy (attempted g dt))))))
    with (rect (advanced g dt)).
  destruct (filter (fun w => colliderect (rect (advanced g dt)) w) (w0 :: ws));
    [reflexivity|].
  destruct (fits_int (trunc (vx (position g)))
            && fits_int (trunc (vy (position g)))); reflexivity.
Qed.

Lemma move_returns g dt walls g' :
  move g dt walls = Ok g' ->
  g' = advanced g dt \/ g' = rolled_back g dt.
Proof.
  rewrite move_cases.
  destruct (representable (attempted g dt)); [|discriminate].
  destruct walls as [[|w0 ws]|]; try (intros [= <-]; now left).
  destruct (filter (fun w => colliderect (rect (advanced g dt)) w) (w0 :: ws));
    [intros [= <-]; now left|].
  destruct (representable (position g)); [|discriminate].
  intros [= <-]. now right.
Qed.

Lemma move_keeps_route x y g dt walls g' :
  route_is_post x y g -> move g dt walls = Ok g' -> route_is_post x y g'.
Proof.
  intros [H1 H2] Hm. apply move_returns in Hm as [-> | ->]; split; assumption.
Qed.

Lemma check_keeps_route x y g p roll r :
  route_is_post x y g ->
  check_player_detection g p roll = Ok r ->
  route_is_post x y (snd r).
Proof.
  intros H Hc. apply check_outcome in Hc as [-> | ->]; simpl;
    [assumption | now apply alert_keeps_route].
Qed.

(** On a one-point route the patrol handler never raises, and it leaves the
    route and the waypoint index as they are. *)
Lemma handle_patrol_keeps_route x y g dt :
  route_is_post x y g ->
  exists g', handle_patrol g dt = Ok g' /\ route_is_post x y g'.
Proof.
  intros [H1 H2]. unfold handle_patrol.
  destruct (Rltb 0 (wait_timer g)); [eexists; split; [reflexivity | now split]|].
  rewrite H1, H2. simpl.
  destruct (Rltb _ 2) eqn:Hnear; simpl.
  - rewrite H1, H2. simpl. eexists; split; [reflexivity | now split].
  - unfold normalize. apply Rltb_false in Hnear.
    replace (Reqb _ 0) with false by (symmetry; apply Reqb_false; lra).
    simpl. eexists; split; [reflexivity | now split].
Qed.

Lemma handler_keeps_route x y g dt player d g' :
  route_is_post x y g ->
  match state g with
  | PATROLLING => handle_patrol g dt
  | SUSPICIOUS => handle_suspicious g dt
  | INVESTIGATING => handle_investigation g dt
  | ALERTED => handle_alert g dt player
  | SEARCHING => handle_search g dt d
  end = Ok g' ->
  route_is_post x y g'.
Proof.
  intros Hr. destruct (state g).
  - destruct (handle_patrol_keeps_route x y g dt Hr) as (g1 & -> & H1).
    now intros [= <-].
  - unfold handle_suspicious. destruct Hr. handler_cases; intros [= <-]; now split.
  - unfold handle_investigation, normalize. destruct Hr.
    handler_cases; simpl; intros [= <-]; now split.
  - unfold handle_alert, normalize. destruct Hr.
    handler_cases; simpl; intros [= <-]; now split.
  - unfold handle_search. destruct Hr. handler_cases; intros [= <-]; now split.
Qed.

Lemma update_keeps_route x y g dt player walls d g' :
  route_is_post x y g ->
  update g dt player walls d = Ok g' ->
  route_is_post x y g'.
Proof.
  intros Hr. unfold update.
  set (g1 := set_state_timer g (state_timer g + dt)).
  assert (Hr1 : route_is_post x y g1) by (destruct Hr; now split).
  destruct (match state g1 with PATROLLING => _ | _ => _ end) as [g2|e] eqn:Hh;
    [|discriminate].
  apply (handler_keeps_route x y) in Hh; [|exact Hr1]. simpl.
  destruct (move g2 dt walls) as [g3|e] eqn:Hmove; [|discriminate].
  pose proof (move_keeps_route x y g2 dt walls g3 Hh Hmove) as Hm. simpl.
  destruct player as [p|]; [|now intros [= <-]].
  destruct (check_player_detection _ p _) as [r|e] eqn:Hc; [|discriminate].
  simpl. intros [= <-]. exact (check_keeps_route x y _ p _ r Hm Hc).
Qed.

Lemma handle_patrol_at_post x y g dt :
  at_post x y g ->
  exists g', handle_patrol g dt = Ok g' /\ at_post x y g'.
Proof.
  intros ([Hpts Hidx] & Hpos & Hvel & Hvd). unfold handle_patrol.
  destruct (Rltb 0 (wait_timer g)).
  - eexists; split; [reflexivity|]. now repeat split.
  - rewrite Hpts, Hidx, Hpos. simpl.
    change (vsub _ _) with (vsub (mkVector2 x y) (mkVector2 x y)).
    rewrite vlength_self. float_cmp. simpl. rewrite Hpts, Hidx. simpl.
    eexists; split; [reflexivity|]. now repeat split.
Qed.

Lemma stay_put (p : Vector2) (dt speed : R) :
  vadd p (vscale (vscale (mkVector2 0 0) dt) speed) = p.
Proof. destruct p. unfold vadd, vscale. simpl. f_equal; ring. Qed.

(** A guard at its post attempts the post itself: the move returns exactly
    when the post is representable. *)
Lemma move_at_post x y g dt walls :
  at_post x y g ->
  if representable (mkVector2 x y)
  then exists g', move g dt walls = Ok g' /\ at_post x y g'
  else move g dt walls = Raise TypeError.
Proof.
  intros ([Hpts Hidx] & Hpos & Hvel & Hvd).
  assert (Hstay : attempted g dt = mkVector2 x y).
  { unfold attempted. rewrite Hpos, Hvel. apply stay_put. }
  rewrite move_cases, Hstay, Hpos.
  destruct (representable (mkVector2 x y)); [|reflexivity].
  assert (Ha : at_post x y (advanced g dt)).
  { unfold at_post, route_is_post, advanced.
    cbn [patrol_points current_patrol_point position velocity view_distance
         set_rect set_position].
    rewrite Hstay. auto. }
  assert (Hb : at_post x y (rolled_back g dt)).
  { unfold at_post, route_is_post, rolled_back, advanced.
    cbn [patrol_points current_patrol_point position velocity view_distance
         set_rect set_position set_velocity].
    auto. }
  destruct walls as [[|w0 ws]|];
    try (exists (advanced g dt); split; [reflexivity | exact Ha]).
  destruct (filter (fun w => colliderect (rect (advanced g dt)) w) (w0 :: ws)).
  - exists (advanced g dt). split; [reflexivity | exact Ha].
  - exists (rolled_back g dt). split; [reflexivity | exact Hb].
Qed.

Lemma alert_at_post x y g pos : at_post x y g -> at_post x y (alert g pos).
Proof. intros ([Hpts Hidx] & Hpos & Hvel & Hvd). now repeat split. Qed.

(** A tick that begins on patrol at the post ends at the post, or raises
    [TypeError] when the post is not representable. *)
Lemma patrol_tick_at_post x y g dt player walls d :
  at_post x y g ->
  state g = PATROLLING ->
  if representable (mkVector2 x y)
  then exists g', update g dt player walls d = Ok g' /\ at_post x y g'
  else update g dt player walls d = Raise TypeError.
Proof.
  intros Hpost Hst. unfold update.
  set (g1 := set_state_timer g (state_timer g + dt)).
  assert (Hpost1 : at_post x y g1).
  { destruct Hpost as ([Hpts Hidx] & Hpos & Hvel & Hvd). now repeat split. }
  change (state g1) with (state g). rewrite Hst.
  destruct (handle_patrol_at_post x y g1 dt Hpost1) as (g2 & -> & Hpost2). simpl.
  pose proof (move_at_post x y g2 dt walls Hpost2) as Hmove.
  destruct (representable (mkVector2 x y)); [|now rewrite Hmove].
  destruct Hmove as (g3 & -> & Hpost3). simpl.
  destruct player as [p|]; [|eauto].
  destruct (check_total g3 p (detect_roll d)) as (r & Hr).
  { destruct Hpost3 as (_ & _ & _ & ->). lra. }
  rewrite Hr. simpl. eexists; split; [reflexivity|].
  apply check_outcome in Hr as [-> | ->]; simpl;
    [assumption | now apply alert_at_post].
Qed.

Lemma init_at_post x y points :
  points = None \/ points = Some [] ->
  at_post x y (Guard_init x y points).
Proof. intros [-> | ->]; now repeat split. Qed.

Lemma patrol_run_at_post x y points g :
  points = None \/ points = Some [] ->
  patrol_run (Guard_init x y points) g ->
  at_post x y g.
Proof.
  intros Hp. induction 1 as [|g dt player walls d g' _ IH Hst Hup].
  - now apply init_at_post.
  - pose proof (patrol_tick_at_post x y g dt player walls d IH Hst) as Htick.
    destruct (representable (mkVector2 x y)); [|congruence].
    destruct Htick as (g1 & H1 & Hpost). congruence.
Qed.

Lemma run_keeps_route x y points g :
  points = None \/ points = Some [] ->
  run (Guard_init x y points) g ->
  route_is_post x y g.
Proof.
  intros Hp. induction 1 as [|g dt player walls d g' _ IH Hup].
  - now apply init_at_post.
  - exact (update_keeps_route x y g dt player walls d g' IH Hup).
Qed.

(** C8, as the code has it.  A guard built with no route, or with the empty
    route, is the guard built with the one-point route made of its spawn
    position.  As long as every tick so far began on patrol, a tick that
    begins on patrol leaves the guard at its spawn position with zero
    velocity; it does not raise when the spawn position is representable
    in the guard's rectangle, and it raises [TypeError] from the
    re-centring of the rectangle when it is not.  Whatever ticks the guard
    has gone through, the patrol handler does not raise: the route has one
    point and the waypoint index is 0. *)
Theorem empty_route_guard_keeps_its_post (x y : R) (points : option (list (R * R))) :
  points = None \/ points = Some [] ->
  Guard_init x y points = Guard_init x y (Some [(x, y)]) /\
  (forall g,
      patrol_run (Guard_init x y points) g ->
      state g = PATROLLING ->
      forall dt player walls d,
        if representable (mkVector2 x y)
        then exists g',
               update g dt player walls d = Ok g' /\
               velocity g' = mkVector2 0 0 /\
               position g' = mkVector2 x y
        else update g dt player walls d = Raise TypeError) /\
  (forall g,
      run (Guard_init x y points) g ->
      patrol_points g = [(x, y)] /\
      (current_patrol_point g < length (patrol_points g))%nat /\
      forall dt, exists g', handle_patrol g dt = Ok g').
Proof.
  intros Hp. split; [destruct Hp as [-> | ->]; reflexivity|]. split.
  - intros g Hrun Hst dt player walls d.
    pose proof (patrol_run_at_post x y points g Hp Hrun) as Hpost.
    pose proof (patrol_tick_at_post x y g dt player walls d Hpost Hst) as Htick.
    destruct (representable (mkVector2 x y)); [|exact Htick].
    destruct Htick as (g' & Hup & _ & Hpos & Hvel & _).
    eauto.
  - intros g Hrun.
    pose proof (run_keeps_route x y points g Hp Hrun) as Hr.
    destruct Hr as [Hpts Hidx]. split; [exact Hpts|]. split.
    + rewrite Hpts, Hidx. simpl. lia.
    + intros dt.
      destruct (handle_patrol_keeps_route x y g dt (conj Hpts Hidx)) as (g' & Hg' & _).
      eauto.
Qed.

Lemma representable_IZR (a b : Z) :
  fits_int a = true -> fits_int b = true ->
  representable (mkVector2 (IZR a) (IZR b)) = true.
Proof.
  intros Ha Hb. unfold representable. simpl. now rewrite !trunc_IZR, Ha, Hb.
Qed.

Lemma empty_route_guard_keeps_its_post_witness :
  exists g',
    update (Guard_init 4 7 (Some [])) 1 (Some intruder) None rolls = Ok g' /\
    velocity g' = mkVector2 0 0 /\
    position g' = mkVector2 4 7.
Proof.
  destruct (empty_route_guard_keeps_its_post 4 7 (Some [])) as (_ & Hstill & _);
    [now right|].
  pose proof (Hstill _ (patrol_run_start _) eq_refl 1 (Some intruder) None rolls)
    as Htick.
  rewrite (representable_IZR 4 7) in Htick by reflexivity.
  exact Htick.
Defined.

(** A post outside the range of C [int]s: the guard is built (the float
    coordinates are converted), and every tick raises when it re-centres
    the rectangle. *)
Lemma post_beyond_int_range_raises
    (dt : R) (player : option Player) (walls : option (list Rect)) (d : Draws) :
  update (Guard_init 3000000000 0 None) dt player walls d = Raise TypeError.
Proof.
  pose proof (patrol_tick_at_post 3000000000 0 (Guard_init 3000000000 0 None)
                dt player walls d
                (init_at_post _ _ None (or_introl eq_refl)) eq_refl) as H.
  assert (Hrep : representable (mkVector2 3000000000 0) = false).
  { unfold representable. cbn [vx vy]. rewrite !trunc_IZR. reflexivity. }
  now rewrite Hrep in H.
Qed.

(** The player is [d] units straight ahead of the guard about to run the
    detection check: the check becomes a test of the draw. *)
Ltac see_player d :=
  match goal with
  | |- context [check_player_detection ?G ?P ?r] =>
      let Hd := fresh "Hd" in
      let Ha := fresh "Ha" in
      destruct (straight_ahead G P d) as [Hd Ha];
      [ lra
      | simpl; rewrite ?atan2_ahead by lra; unfold degrees; lra
      | simpl; lra
      | simpl; lra
      | rewrite (check_in_view G P r) by (rewrite ?Hd, ?Ha; simpl; lra);
        rewrite Hd; unfold spec_detection_probability; simpl; clear Hd Ha ]
  end.

(** The length of a vector whose coordinates are known. *)
Ltac measure d :=
  match goal with
  | |- context [vlength ?v] =>
      replace (vlength v) with d
        by (symmetry; apply sqrt_of_square; [lra | simpl; field])
  end.

Lemma trunc_eval (x : R) (z : Z) :
  (0 <= z)%Z -> IZR z <= x < IZR z + 1 -> trunc x = z.
Proof.
  intros Hz Hx. apply IZR_le in Hz. unfold trunc.
  destruct (Rle_dec 0 x) as [H|H]; [|lra].
  symmetry. apply Int_part_spec. lra.
Qed.

Lemma atan2_behind (y x : R) : y = 0 -> x < 0 -> atan2 y x = PI.
Proof.
  intros -> Hx. unfold atan2. float_cmp.
  replace (0 / x) with 0 by (field; lra). rewrite atan_0. lra.
Qed.

Lemma degrees_PI : degrees PI = 180.
Proof. unfold degrees. field. apply PI_neq0. Qed.

(** Two guards with the same attributes are the same guard. *)
Lemma guard_eq (g h : Guard) :
  position g = position h -> velocity g = velocity h ->
  patrol_points g = patrol_points h ->
  current_patrol_point g = current_patrol_point h ->
  patrol_wait_time g = patrol_wait_time h -> wait_timer g = wait_timer h ->
  walk_speed g = walk_speed h -> run_speed g = run_speed h ->
  current_speed g = current_speed h -> state g = state h ->
  state_timer g = state_timer h -> suspicion_level g = suspicion_level h ->
  alert_position g = alert_position h -> view_distance g = view_distance h ->
  view_angle g = view_angle h -> view_direction g = view_direction h ->
  rect g = rect h ->
  g = h.
Proof. destruct g, h. simpl. intros. subst. reflexivity. Qed.

(** Comparing the guard a tick produces with the expected one, attribute by
    attribute; [cx] and [cy] are the integer coordinates of its centre. *)
Ltac same_guard cx cy :=
  unfold advanced, attempted;
  f_equal; apply guard_eq; simpl; unfold vadd, vscale, seen; simpl;
  try reflexivity; try lra; try (f_equal; field);
  try (rewrite atan2_ahead by lra; unfold degrees; lra);
  try (repeat match goal with
              | |- context [trunc ?e] =>
                  first [ replace (trunc e) with cx
                            by (symmetry; apply trunc_eval; [lia | lra])
                        | replace (trunc e) with cy
                            by (symmetry; apply trunc_eval; [lia | lra]) ]
              end;
       reflexivity).

Lemma representable_eval (v : Vector2) (cx cy : Z) :
  fits_int cx = true -> fits_int cy = true ->
  trunc (vx v) = cx -> trunc (vy v) = cy ->
  representable v = true.
Proof. intros Hx Hy Ex Ey. unfold representable. now rewrite Ex, Ey, Hx, Hy. Qed.

(** The move of a tick without walls whose attempted position has the
    integer coordinates [cx] and [cy]. *)
Ltac step_to cx cy :=
  rewrite move_cases;
  rewrite (representable_eval _ cx cy)
    by first [ reflexivity
             | apply trunc_eval;
               [lia | unfold attempted, vadd, vscale; simpl; lra] ];
  cbv beta iota delta [rbind].

Lemma walk_tick1 :
  update (Guard_init 0 0 None) 0 (Some intruder) None rolls = Ok walk1.
Proof.
  unfold update, handle_patrol. simpl. float_cmp. simpl.
  rewrite vlength_self. float_cmp. simpl. step_to 0%Z 0%Z.
  see_player 3. float_cmp. simpl. same_guard 0%Z 0%Z.
Qed.

Lemma walk_tick2 : update walk1 1 (Some intruder) None rolls = Ok walk2.
Proof.
  unfold update, handle_alert. simpl. unfold normalize. measure 3.
  float_cmp. simpl. step_to 3%Z 0%Z.
  see_player 0. float_cmp. simpl. same_guard 3%Z 0%Z.
Qed.

Lemma walk_tick3 : update walk2 0 None None rolls = Ok walk3.
Proof.
  unfold update, handle_alert. simpl. step_to 3%Z 0%Z. same_guard 3%Z 0%Z.
Qed.

Lemma walk_tick4 : update walk3 11 None None rolls = Ok walk4.
Proof.
  unfold update, handle_search. simpl. float_cmp. simpl. step_to 19%Z 0%Z.
  same_guard 19%Z 0%Z.
Qed.

Lemma walk_tick5 : update walk4 2 None None rolls = Ok walk5.
Proof.
  unfold update, handle_patrol. simpl. float_cmp. simpl. step_to 19%Z 0%Z.
  same_guard 19%Z 0%Z.
Qed.

Lemma walk_tick6 : update walk5 0 None None rolls = Ok walk6.
Proof.
  unfold update, handle_patrol. simpl. float_cmp. simpl.
  measure (39 / 2). float_cmp. unfold normalize. measure (39 / 2).
  float_cmp. simpl. step_to 19%Z 0%Z. same_guard 19%Z 0%Z.
  rewrite atan2_behind; [apply degrees_PI | field | lra].
Qed.

(** A guard built without a route that leaves its post and comes back to
    patrol.  The player stands at (3, 0).  Tick 1 detects the player, tick 2
    runs to the player, tick 3 (no player any more) starts the search,
    tick 4 ends it 11 seconds later, the guard still drifting; tick 5 is a
    patrol tick that uses up the wait at the waypoint; tick 6 is a patrol
    tick, and it sets the velocity toward the spawn position. *)
Lemma returning_guard_walks_back :
  update (Guard_init 0 0 None) 0 (Some intruder) None rolls = Ok walk1 /\
  update walk1 1 (Some intruder) None rolls = Ok walk2 /\
  update walk2 0 None None rolls = Ok walk3 /\
  update walk3 11 None None rolls = Ok walk4 /\
  update walk4 2 None None rolls = Ok walk5 /\
  state walk5 = PATROLLING /\
  update walk5 0 None None rolls = Ok walk6 /\
  velocity walk6 = mkVector2 (-1) 0 /\
  velocity walk6 <> mkVector2 0 0.
Proof.
  split; [exact walk_tick1|]. split; [exact walk_tick2|].
  split; [exact walk_tick3|]. split; [exact walk_tick4|].
  split; [exact walk_tick5|]. split; [reflexivity|].
  split; [exact walk_tick6|]. split; [reflexivity|].
  simpl. intros [= H]. lra.
Qed.

(** C2.  An ALERTED guard whose position is the player's raises
    [ValueError] from its tick: [handle_alert] normalises the zero vector.
    (The patrol and investigation handlers test the length first.) *)
Theorem alerted_tick_raises_on_top_of_player
    (g : Guard) (p : Player) (dt : R) (walls : option (list Rect)) (d : Draws) :
  state g = ALERTED ->
  player_position p = position g ->
  update g dt (Some p) walls d = Raise ValueError.
Proof.
  intros Hst Hpos. unfold update. simpl. rewrite Hst.
  unfold handle_alert, normalize. simpl. rewrite Hpos, vlength_self, Reqb_refl.
  reflexivity.
Qed.

(** A guard built at (0, 0) without a route, and a player standing there:
    the first tick alerts the guard whatever the draw below 1, the second
    raises. *)
Lemma alerted_tick_raises_on_top_of_player_witness :
  exists g1,
    update (Guard_init 0 0 None) 1 (Some visitor) None rolls = Ok g1 /\
    update g1 1 (Some visitor) None rolls = Raise ValueError.
Proof.
  eexists. split.
  - unfold update, handle_patrol. simpl. float_cmp. simpl.
    rewrite vlength_self. float_cmp. simpl. step_to 0%Z 0%Z.
    see_player 0. float_cmp. simpl. reflexivity.
  - apply alerted_tick_raises_on_top_of_player; [reflexivity|].
    unfold advanced, attempted, vadd, vscale. simpl. f_equal; field.
Defined.

End Ticks.

(* --------------------------------------------------------------------- *)
(** ** Shape queries                                                     *)
(* --------------------------------------------------------------------- *)

Section ShapeQueries.
Import Geometry Queries.

Lemma sqrt_below (e r : R) : 0 <= e -> (sqrt e < r <-> 0 < r /\ e < r * r).
Proof.
  intros He. pose proof (sqrt_pos e) as Hpos.
  pose proof (sqrt_sqrt e He) as Hsq. split.
  - intros H. split; [lra|]. nra.
  - intros [Hr H]. destruct (Rlt_dec (sqrt e) r) as [|Hn]; [assumption|].
    exfalso. apply Rnot_lt_le in Hn. nra.
Qed.

Lemma sum_of_squares_nonneg (a b : R) : 0 <= a * a + b * b.
Proof. nra. Qed.

(** X1.  A point is in a circle exactly when the radius is positive and the
    squared distance to the centre is below the squared radius: a point at
    distance exactly [radius] is outside, a circle of radius 0 or less
    contains nothing, and the test does not change when point and centre
    are swapped. *)
Theorem point_in_circle_is_strict (point center : R * R) (radius : R) :
  let dx := fst point - fst center in
  let dy := snd point - snd center in
  (check_point_in_circle point center radius = true
   <-> 0 < radius /\ dx * dx + dy * dy < radius * radius) /\
  (sqrt (dx * dx + dy * dy) = radius ->
   check_point_in_circle point center radius = false) /\
  (radius <= 0 -> check_point_in_circle point center radius = false) /\
  check_point_in_circle point center radius
  = check_point_in_circle center point radius.
Proof.
  intros dx dy. unfold check_point_in_circle. fold dx dy.
  split; [|split; [|split]].
  - rewrite Rltb_true. apply sqrt_below, sum_of_squares_nonneg.
  - intros H. apply Rltb_false. lra.
  - intros H. apply Rltb_false.
    pose proof (sqrt_pos (dx * dx + dy * dy)). lra.
  - f_equal. f_equal. unfold dx, dy. ring.
Qed.

Lemma point_in_circle_is_strict_witness :
  check_point_in_circle (3, 4) (0, 0) 5 = false /\
  check_point_in_circle (3, 4) (0, 0) 6 = true.
Proof.
  split.
  - destruct (point_in_circle_is_strict (3, 4) (0, 0) 5) as (_ & Hedge & _).
    apply Hedge. simpl. apply sqrt_of_square; [lra | ring].
  - destruct (point_in_circle_is_strict (3, 4) (0, 0) 6) as (Hin & _).
    apply Hin. simpl. lra.
Defined.

Lemma circle_reaches_grows center r1 r2 sprite :
  r1 <= r2 -> circle_reaches center r1 sprite = true ->
  circle_reaches center r2 sprite = true.
Proof.
  unfold circle_reaches. rewrite !Rltb_true. lra.
Qed.

Lemma circle_reaches_from_inside center radius sprite :
  0 < radius ->
  IZR (left sprite) <= fst center <= IZR (right sprite) ->
  IZR (top sprite) <= snd center <= IZR (bottom sprite) ->
  circle_reaches center radius sprite = true.
Proof.
  intros Hr Hx Hy. unfold circle_reaches.
  rewrite (Rmin_left (fst center)), (Rmin_left (snd center)) by lra.
  rewrite !Rmax_right by lra. rewrite zero_length. now apply Rltb_true.
Qed.

Lemma circle_reaches_nothing center radius sprite :
  radius <= 0 -> circle_reaches center radius sprite = false.
Proof.
  intros Hr. unfold circle_reaches. apply Rltb_false.
  match goal with |- _ <= sqrt ?e => pose proof (sqrt_pos e) end. lra.
Qed.

(** X2.  The sprites a circle query reports belong to the group; a radius
    of 0 or less reports none; a larger radius reports at least the sprites
    a smaller one does; and a sprite whose rectangle holds the centre is
    reported for every positive radius. *)
Theorem circle_query_reports (center : R * R) (sprite_group : list Rect) :
  (forall radius sprite,
      In sprite (check_circle_collision center radius sprite_group) ->
      In sprite sprite_group) /\
  (forall radius, radius <= 0 ->
      check_circle_collision center radius sprite_group = []) /\
  (forall r1 r2 sprite, r1 <= r2 ->
      In sprite (check_circle_collision center r1 sprite_group) ->
      In sprite (check_circle_collision center r2 sprite_group)) /\
  (forall radius sprite,
      0 < radius -> In sprite sprite_group ->
      IZR (left sprite) <= fst center <= IZR (right sprite) ->
      IZR (top sprite) <= snd center <= IZR (bottom sprite) ->
      In sprite (check_circle_collision center radius sprite_group)).
Proof.
  unfold check_circle_collision. split; [|split; [|split]].
  - intros radius sprite H. now apply filter_In in H.
  - intros radius Hr. induction sprite_group as [|s l IH]; [reflexivity|].
    simpl. now rewrite circle_reaches_nothing.
  - intros r1 r2 sprite Hle H. apply filter_In in H as [Hin Hreach].
    apply filter_In. split; [assumption|].
    now apply (circle_reaches_grows center r1 r2).
  - intros radius sprite Hr Hin Hx Hy. apply filter_In. split; [assumption|].
    now apply circle_reaches_from_inside.
Qed.

Lemma circle_query_reports_witness :
  In (mkRect 0 0 10 10)
     (check_circle_collision (5, 5) 1 [mkRect 20 20 4 4; mkRect 0 0 10 10]) /\
  check_circle_collision (5, 5) 0 [mkRect 20 20 4 4; mkRect 0 0 10 10] = [].
Proof.
  destruct (circle_query_reports (5, 5) [mkRect 20 20 4 4; mkRect 0 0 10 10])
    as (_ & Hnone & _ & Hinside).
  split.
  - apply Hinside; [lra | right; left; reflexivity | |];
      unfold right, bottom; simpl; rewrite ?plus_IZR; lra.
  - apply Hnone. lra.
Defined.

(** The test that lets an edge toggle [inside]. *)
Lemma edge_untouched point s p2 :
  Rltb (Rmin (snd (p1 s)) (snd p2)) (snd point)
  && Rleb (snd point) (Rmax (snd (p1 s)) (snd p2))
  && Rleb (fst point) (Rmax (fst (p1 s)) (fst p2)) = false ->
  edge point s p2 = inr (mkScan (inside s) p2 (xinters s)).
Proof. intros H. unfold edge. now rewrite H. Qed.

(** Inside the three tests the edge is not horizontal, so [xinters] is
    assigned before it is read and the division has a nonzero divisor. *)
Lemma edge_total point s p2 :
  exists s', edge point s p2 = inr s' /\ p1 s' = p2.
Proof.
  unfold edge.
  destruct (_ && _ && _) eqn:Hcond; [|eauto].
  apply andb_prop in Hcond as [Hcond _]. apply andb_prop in Hcond as [Hlo Hhi].
  apply Rltb_true in Hlo. apply Rleb_true in Hhi.
  assert (Hne : snd (p1 s) <> snd p2).
  { intros Heq. rewrite Heq in Hlo, Hhi. unfold Rmin, Rmax in *.
    destruct (Rle_dec (snd p2) (snd p2)); lra. }
  replace (Reqb (snd (p1 s)) (snd p2)) with false
    by (symmetry; now apply Reqb_false).
  unfold pydiv.
  replace (Reqb (snd p2 - snd (p1 s)) 0) with false
    by (symmetry; apply Reqb_false; lra).
  simpl. destruct (Reqb (fst (p1 s)) (fst p2)); [eauto|].
  destruct (Rleb (fst point) _); eauto.
Qed.

Lemma edges_total point vertices indices :
  vertices <> [] ->
  forall s, exists s', edges point vertices s indices = inr s'.
Proof.
  intros Hne. induction indices as [|i rest IH]; intros s; simpl; [eauto|].
  destruct (nth_error vertices (i mod length vertices)) as [p2|] eqn:E.
  - destruct (edge_total point s p2) as (s' & -> & _). apply IH.
  - apply nth_error_None in E.
    assert (length vertices <> 0)%nat by (destruct vertices; simpl; congruence).
    pose proof (Nat.mod_upper_bound i (length vertices)). lia.
Qed.

(** X3.  The polygon query raises [IndexError] on an empty vertex list and
    on nothing else: for every non-empty list it returns a boolean, without
    dividing by zero and without reading [xinters] before it is assigned. *)
Theorem polygon_query_raises_only_on_empty (point : R * R) :
  check_point_in_polygon point [] = inl (Builtin IndexError) /\
  forall vertices, vertices <> [] ->
                   exists b, check_point_in_polygon point vertices = inr b.
Proof.
  split; [reflexivity|]. intros vertices Hne. unfold check_point_in_polygon.
  destruct vertices as [|first rest]; [congruence|]. simpl nth_error.
  destruct (edges_total point (first :: rest) (seq 1 (length (first :: rest)))
              Hne (mkScan false first None)) as (s' & ->).
  eauto.
Qed.

Lemma polygon_query_raises_only_on_empty_witness :
  exists b, check_point_in_polygon (1, 1) [(0, 0); (4, 0); (0, 4)] = inr b.
Proof.
  destruct (polygon_query_raises_only_on_empty (1, 1)) as (_ & H).
  apply H. discriminate.
Defined.

(** An edge none of whose tests can pass, whatever the scan so far. *)
Lemma edges_untouched point vertices indices :
  (forall v w, In v vertices -> In w vertices ->
     Rltb (Rmin (snd v) (snd w)) (snd point)
     && Rleb (snd point) (Rmax (snd v) (snd w))
     && Rleb (fst point) (Rmax (fst v) (fst w)) = false) ->
  vertices <> [] ->
  forall s, In (p1 s) vertices ->
            exists s', edges point vertices s indices = inr s'
                       /\ inside s' = inside s.
Proof.
  intros Hout Hne. induction indices as [|i rest IH]; intros s Hs; simpl; [eauto|].
  destruct (nth_error vertices (i mod length vertices)) as [p2|] eqn:E.
  - assert (Hp2 : In p2 vertices) by (eapply nth_error_In; eassumption).
    rewrite edge_untouched by (now apply Hout).
    destruct (IH (mkScan (inside s) p2 (xinters s)) Hp2) as (s' & -> & Hs').
    eauto.
  - apply nth_error_None in E.
    assert (length vertices <> 0)%nat by (destruct vertices; simpl; congruence).
    pose proof (Nat.mod_upper_bound i (length vertices)). lia.
Qed.

(** X4.  A point whose [y] exceeds every vertex's, a point whose [y] is at
    most every vertex's, and a point whose [x] exceeds every vertex's are
    all reported outside the polygon. *)
Theorem polygon_excludes_points_beyond_its_vertices
    (point : R * R) (vertices : list (R * R)) :
  vertices <> [] ->
  (forall v, In v vertices -> snd v < snd point) \/
  (forall v, In v vertices -> snd point <= snd v) \/
  (forall v, In v vertices -> fst v < fst point) ->
  check_point_in_polygon point vertices = inr false.
Proof.
  intros Hne Hside. unfold check_point_in_polygon.
  destruct vertices as [|first rest]; [congruence|]. simpl nth_error.
  destruct (edges_untouched point (first :: rest)
              (seq 1 (length (first :: rest)))) with (s := mkScan false first None)
    as (s' & -> & Hs'); [| assumption | now left | now rewrite Hs'].
  intros v w Hv Hw.
  destruct Hside as [Habove | [Hbelow | Hright]].
  - specialize (Habove v Hv) as Hv'. specialize (Habove w Hw) as Hw'.
    replace (Rleb (snd point) (Rmax (snd v) (snd w))) with false.
    + now rewrite andb_false_r.
    + symmetry. apply Rleb_false. unfold Rmax. destruct (Rle_dec _ _); lra.
  - specialize (Hbelow v Hv) as Hv'. specialize (Hbelow w Hw) as Hw'.
    replace (Rltb (Rmin (snd v) (snd w)) (snd point)) with false; [reflexivity|].
    symmetry. apply Rltb_false. unfold Rmin. destruct (Rle_dec _ _); lra.
  - specialize (Hright v Hv) as Hv'. specialize (Hright w Hw) as Hw'.
    replace (Rleb (fst point) (Rmax (fst v) (fst w))) with false.
    + now rewrite andb_false_r.
    + symmetry. apply Rleb_false. unfold Rmax. destruct (Rle_dec _ _); lra.
Qed.

Lemma polygon_excludes_points_beyond_its_vertices_witness :
  check_point_in_polygon (5, 1) [(0, 0); (4, 0); (0, 4)] = inr false.
Proof.
  apply polygon_excludes_points_beyond_its_vertices; [discriminate|].
  right. right. intros v [<- | [<- | [<- | []]]]; simpl; lra.
Defined.

(** A horizontal edge never toggles; a vertical edge toggles exactly when
    the point's [y] is in its half-open span and the point is not to its
    right. *)
Lemma edge_horizontal point s p2 :
  snd (p1 s) = snd p2 ->
  edge point s p2 = inr (mkScan (inside s) p2 (xinters s)).
Proof.
  intros Heq. apply edge_untouched. rewrite Heq.
  destruct (Rltb _ _) eqn:Hlo; [|reflexivity].
  destruct (Rleb (snd point) _) eqn:Hhi; [|reflexivity].
  apply Rltb_true in Hlo. apply Rleb_true in Hhi.
  unfold Rmin, Rmax in *. destruct (Rle_dec (snd p2) (snd p2)); lra.
Qed.

Lemma edge_vertical point s p2 :
  fst (p1 s) = fst p2 ->
  exists xi,
    edge point s p2
    = inr (mkScan
             (xorb (inside s)
                (Rltb (Rmin (snd (p1 s)) (snd p2)) (snd point)
                 && Rleb (snd point) (Rmax (snd (p1 s)) (snd p2))
                 && Rleb (fst point) (fst p2)))
             p2 xi).
Proof.
  intros Heq.
  assert (Hmax : Rmax (fst (p1 s)) (fst p2) = fst p2).
  { rewrite Heq. unfold Rmax. now destruct (Rle_dec _ _). }
  destruct (Rltb (Rmin (snd (p1 s)) (snd p2)) (snd point)
            && Rleb (snd point) (Rmax (snd (p1 s)) (snd p2))
            && Rleb (fst point) (fst p2)) eqn:Hcond.
  - unfold edge. rewrite Hmax, Hcond.
    apply andb_prop in Hcond as [Hcond _]. apply andb_prop in Hcond as [Hlo Hhi].
    apply Rltb_true in Hlo. apply Rleb_true in Hhi.
    assert (Hne : snd (p1 s) <> snd p2).
    { intros E. rewrite E in Hlo, Hhi. unfold Rmin, Rmax in *.
      destruct (Rle_dec (snd p2) (snd p2)); lra. }
    replace (Reqb (snd (p1 s)) (snd p2)) with false
      by (symmetry; now apply Reqb_false).
    unfold pydiv.
    replace (Reqb (snd p2 - snd (p1 s)) 0) with false
      by (symmetry; apply Reqb_false; lra).
    simpl. rewrite Heq, Reqb_refl. rewrite xorb_true_r. eauto.
  - rewrite edge_untouched by (now rewrite Hmax). rewrite xorb_false_r. eauto.
Qed.

(** X5.  For the polygon made of the corners of an axis-aligned rectangle,
    the query reports exactly the points with [x] in the half-open span
    (min, max] of the two [x] sides and [y] in the half-open span
    (min, max] of the two [y] sides: the sides with the larger coordinate
    belong to the polygon, the other two do not. *)
Theorem polygon_query_on_a_box (x y a b c d : R) :
  exists inside,
    check_point_in_polygon (x, y) (box a b c d) = inr inside /\
    (inside = true <->
     Rmin a c < x <= Rmax a c /\ Rmin b d < y <= Rmax b d).
Proof.
  unfold check_point_in_polygon, box. simpl.
  rewrite edge_horizontal by reflexivity. cbn [inside p1 xinters].
  match goal with
  | |- context [edge ?pt ?s ?p2] =>
      destruct (edge_vertical pt s p2) as (xi2 & ->); [reflexivity|]
  end.
  cbn [inside p1 xinters].
  rewrite edge_horizontal by reflexivity. cbn [inside p1 xinters].
  match goal with
  | |- context [edge ?pt ?s ?p2] =>
      destruct (edge_vertical pt s p2) as (xi4 & ->); [reflexivity|]
  end.
  simpl. eexists. split; [reflexivity|].
  rewrite (Rmin_comm d b), (Rmax_comm d b).
  destruct (Rltb (Rmin b d) y) eqn:Hlo;
    [apply Rltb_true in Hlo | apply Rltb_false in Hlo];
  (destruct (Rleb y (Rmax b d)) eqn:Hhi;
    [apply Rleb_true in Hhi | apply Rleb_false in Hhi]);
  (destruct (Rleb x c) eqn:Hc;
    [apply Rleb_true in Hc | apply Rleb_false in Hc]);
  (destruct (Rleb x a) eqn:Ha;
    [apply Rleb_true in Ha | apply Rleb_false in Ha]);
  simpl; unfold Rmin, Rmax in *;
  destruct (Rle_dec a c); destruct (Rle_dec b d);
  split; intros H; try discriminate; try reflexivity; try lra.
Qed.

End ShapeQueries.

(* --------------------------------------------------------------------- *)
(** ** Guard: the state machine as a whole                               *)
(* --------------------------------------------------------------------- *)

Section StateMachine.
Import Geometry GuardAI GuardRules.

Ltac branches :=
  unfold rbind;
  repeat (cbv beta;
          match goal with
          | |- context [if ?b then _ else _] => destruct b eqn:?
          | |- context [match ?x with _ => _ end] => destruct x eqn:?
          end).

(** What a move that returns leaves alone. *)
Lemma move_frame g dt walls g' :
  move g dt walls = Ok g' ->
  state g' = state g /\
  state_timer g' = state_timer g /\
  view_direction g' = view_direction g /\
  view_distance g' = view_distance g /\
  alert_position g' = alert_position g.
Proof.
  intros H. apply move_returns in H as [-> | ->]; repeat split; reflexivity.
Qed.

Lemma check_state g p roll r :
  check_player_detection g p roll = Ok r ->
  state (snd r) = state g \/ state (snd r) = ALERTED.
Proof.
  intros H. apply check_outcome in H as [-> | ->]; simpl; [now left | now right].
Qed.

Lemma handler_state g dt player d g' :
  match state g with
  | PATROLLING => handle_patrol g dt
  | SUSPICIOUS => handle_suspicious g dt
  | INVESTIGATING => handle_investigation g dt
  | ALERTED => handle_alert g dt player
  | SEARCHING => handle_search g dt d
  end = Ok g' ->
  In (state g') (handler_states (state g) (present player)).
Proof.
  destruct (state g) eqn:Hst.
  - unfold handle_patrol, index, pymod_nat, normalize.
    branches; simpl; try discriminate; intros [= <-]; simpl; rewrite Hst;
      now left.
  - unfold handle_suspicious. branches; intros [= <-]; simpl; rewrite ?Hst; auto.
  - unfold handle_investigation, normalize.
    branches; simpl; try discriminate; intros [= <-]; simpl; rewrite ?Hst; auto.
  - unfold handle_alert, normalize.
    branches; simpl; try discriminate; intros [= <-]; simpl; rewrite ?Hst; auto.
  - unfold handle_search. branches; intros [= <-]; simpl; rewrite ?Hst; auto.
Qed.

Lemma update_state g dt player walls d g' :
  update g dt player walls d = Ok g' ->
  In (state g') (next_states (state g) (present player)).
Proof.
  unfold update.
  set (g1 := set_state_timer g (state_timer g + dt)).
  change (state g) with (state g1).
  destruct (match state g1 with PATROLLING => _ | _ => _ end) as [g2|e] eqn:Hh;
    [|discriminate].
  apply handler_state in Hh. simpl. unfold next_states.
  destruct (move g2 dt walls) as [g3|e] eqn:Hm; [|discriminate].
  apply move_frame in Hm as (Hs & _). simpl.
  destruct player as [p|]; simpl.
  - destruct (check_player_detection _ p _) as [r|e] eqn:Hc; [|discriminate].
    simpl. intros [= <-]. apply check_state in Hc.
    rewrite Hs in Hc. apply in_or_app.
    destruct Hc as [-> | ->]; [now left | right; now left].
  - intros [= <-]. rewrite Hs. apply in_or_app. now left.
Qed.

(** X6.  The transition table of a tick.  From PATROLLING the guard stays;
    from SUSPICIOUS it stays or returns to PATROLLING; from INVESTIGATING
    it stays, returns to PATROLLING or becomes SUSPICIOUS; from SEARCHING
    it stays or returns to PATROLLING; from ALERTED it stays when a player
    is passed and becomes SEARCHING when none is; and only a tick that is
    passed a player can end ALERTED from another state.  So a guard that
    starts from the constructor is never INVESTIGATING nor SUSPICIOUS. *)
Theorem tick_follows_the_transition_table :
  (forall g dt player walls d g',
      update g dt player walls d = Ok g' ->
      In (state g') (next_states (state g) (present player))) /\
  (forall x y points g,
      run (Guard_init x y points) g ->
      state g = PATROLLING \/ state g = ALERTED \/ state g = SEARCHING).
Proof.
  split; [exact update_state|].
  intros x y points g Hrun.
  induction Hrun as [|g dt player walls d g' _ IH Hup]; [now left|].
  apply update_state in Hup. unfold next_states in Hup.
  destruct IH as [H | [H | H]]; rewrite H in Hup;
    destruct player; simpl in Hup; intuition congruence.
Qed.

Lemma tick_follows_the_transition_table_witness :
  In (state walk3) (next_states (state walk2) (present (@None Player))).
Proof.
  destruct tick_follows_the_transition_table as (Htable & _).
  apply (Htable walk2 0 None None rolls walk3). exact walk_tick3.
Defined.

(** *** The route *)

Lemma handle_patrol_in_bounds route g dt :
  keeps_route route g ->
  exists g', handle_patrol g dt = Ok g' /\ keeps_route route g'.
Proof.
  intros [Hpts Hidx]. unfold route_in_bounds in Hidx. unfold handle_patrol.
  destruct (Rltb 0 (wait_timer g)); [eexists; split; [reflexivity | now split]|].
  unfold index.
  destruct (nth_error (patrol_points g) (current_patrol_point g)) as [p|] eqn:E;
    [|apply nth_error_None in E; lia].
  simpl. destruct (Rltb _ 2) eqn:Hnear; simpl.
  - unfold pymod_nat.
    cbn [patrol_points current_patrol_point set_wait_timer].
    destruct (length (patrol_points g)) as [|n] eqn:Hlen; [lia|].
    cbv beta iota delta [rbind].
    eexists; split; [reflexivity|]. split; [exact Hpts|].
    unfold route_in_bounds.
    cbn [patrol_points current_patrol_point set_current_patrol_point set_wait_timer].
    rewrite Hlen. apply Nat.mod_upper_bound. lia.
  - unfold normalize. apply Rltb_false in Hnear.
    replace (Reqb _ 0) with false by (symmetry; apply Reqb_false; lra).
    simpl. eexists; split; [reflexivity | now split].
Qed.

Lemma handler_in_bounds route g dt player d g' :
  keeps_route route g ->
  match state g with
  | PATROLLING => handle_patrol g dt
  | SUSPICIOUS => handle_suspicious g dt
  | INVESTIGATING => handle_investigation g dt
  | ALERTED => handle_alert g dt player
  | SEARCHING => handle_search g dt d
  end = Ok g' ->
  keeps_route route g'.
Proof.
  intros Hr. destruct (state g).
  - destruct (handle_patrol_in_bounds route g dt Hr) as (g1 & -> & H1).
    now intros [= <-].
  - unfold handle_suspicious. destruct Hr.
    branches; intros [= <-]; now split.
  - unfold handle_investigation, normalize. destruct Hr.
    branches; simpl; try discriminate; intros [= <-]; now split.
  - unfold handle_alert, normalize. destruct Hr.
    branches; simpl; try discriminate; intros [= <-]; now split.
  - unfold handle_search. destruct Hr. branches; intros [= <-]; now split.
Qed.

Lemma update_in_bounds route g dt player walls d g' :
  keeps_route route g ->
  update g dt player walls d = Ok g' ->
  keeps_route route g'.
Proof.
  intros Hr. unfold update.
  set (g1 := set_state_timer g (state_timer g + dt)).
  assert (Hr1 : keeps_route route g1) by (destruct Hr; now split).
  destruct (match state g1 with PATROLLING => _ | _ => _ end) as [g2|e] eqn:Hh;
    [|discriminate].
  apply (handler_in_bounds route) in Hh; [|exact Hr1]. simpl.
  destruct (move g2 dt walls) as [g3|e] eqn:Hmove; [|discriminate].
  assert (Hm : keeps_route route g3).
  { destruct Hh. apply move_returns in Hmove as [-> | ->]; now split. }
  simpl.
  destruct player as [p|]; [|now intros [= <-]].
  destruct (check_player_detection _ p _) as [r|e] eqn:Hc; [|discriminate].
  simpl. intros [= <-].
  apply check_outcome in Hc as [-> | ->]; simpl; [assumption|].
  destruct Hm. now split.
Qed.

Lemma py_or_nonempty {A} (points : option (list A)) (a : A) :
  py_or points [a] <> [].
Proof. destruct points as [[|b l]|]; simpl; discriminate. Qed.

(** X7.  Whatever route a guard is built with, and whatever ticks it goes
    through, its route stays the one it was built with (the spawn position
    alone when none or an empty one was given), its waypoint index stays
    inside the route, and its patrol handler does not raise. *)
Theorem waypoint_index_stays_in_bounds
    (x y : R) (points : option (list (R * R))) (g : Guard) :
  run (Guard_init x y points) g ->
  patrol_points g = py_or points [(x, y)] /\
  route_in_bounds g /\
  forall dt, exists g', handle_patrol g dt = Ok g'.
Proof.
  intros Hrun.
  assert (H : keeps_route (py_or points [(x, y)]) g).
  { induction Hrun as [|g dt player walls d g' _ IH Hup].
    - split; [reflexivity|]. unfold route_in_bounds. simpl.
      pose proof (py_or_nonempty points (x, y)).
      destruct (py_or points [(x, y)]); [congruence | simpl; lia].
    - exact (update_in_bounds _ g dt player walls d g' IH Hup). }
  destruct H as [Hpts Hidx]. split; [exact Hpts|]. split; [exact Hidx|].
  intros dt.
  destruct (handle_patrol_in_bounds _ g dt (conj Hpts Hidx)) as (g' & Hg' & _).
  eauto.
Qed.

Lemma waypoint_index_stays_in_bounds_witness :
  route_in_bounds walk1.
Proof.
  apply (waypoint_index_stays_in_bounds 0 0 None walk1).
  eapply run_tick; [apply run_start | exact walk_tick1].
Defined.

(** *** Speed *)

Lemma normalize_unit v u :
  normalize v = Ok u -> vx u * vx u + vy u * vy u = 1.
Proof.
  unfold normalize, vlength. destruct (Reqb _ 0) eqn:E; [discriminate|].
  apply Reqb_false in E. intros [= <-]. simpl.
  pose proof (sqrt_sqrt _ (sum_of_squares_nonneg (vx v) (vy v))) as Hsq.
  set (l := sqrt (vx v * vx v + vy v * vy v)) in *.
  replace (vx v / l * (vx v / l) + vy v / l * (vy v / l))
    with ((vx v * vx v + vy v * vy v) / (l * l)) by (field; exact E).
  rewrite <- Hsq. field. nra.
Qed.

Lemma heading_unit angle :
  cos (radians angle) * cos (radians angle)
  + sin (radians angle) * sin (radians angle) = 1.
Proof. pose proof (sin2_cos2 (radians angle)) as H. unfold Rsqr in H. lra. Qed.

Lemma handler_within_limits g dt player d g' :
  within_limits g ->
  match state g with
  | PATROLLING => handle_patrol g dt
  | SUSPICIOUS => handle_suspicious g dt
  | INVESTIGATING => handle_investigation g dt
  | ALERTED => handle_alert g dt player
  | SEARCHING => handle_search g dt d
  end = Ok g' ->
  within_limits g' /\ position g' = position g.
Proof.
  intros (Hv & Hw & Hr & Hs). unfold within_limits.
  destruct (state g).
  - unfold handle_patrol, index, pymod_nat.
    destruct (Rltb 0 (wait_timer g));
      [intros [= <-]; simpl; repeat split; auto; lra|].
    destruct (nth_error _ _) as [p|]; [|discriminate]. simpl.
    destruct (Rltb _ 2).
    + simpl. destruct (length (patrol_points g)); [discriminate|].
      intros [= <-]. simpl. repeat split; auto.
    + destruct (normalize _) as [u|] eqn:Hu; [|discriminate].
      intros [= <-]. simpl. apply normalize_unit in Hu.
      repeat split; auto; lra.
  - unfold handle_suspicious. destruct (Rltb 3 _); intros [= <-]; simpl;
      repeat split; auto; lra.
  - unfold handle_investigation.
    destruct (alert_position g) as [a|]; [|intros [= <-]; simpl; repeat split; auto].
    destruct (negb (vtruthy a)); [intros [= <-]; simpl; repeat split; auto|].
    destruct (Rltb _ 5); [intros [= <-]; simpl; repeat split; auto|].
    destruct (normalize _) as [u|] eqn:Hu; [|discriminate].
    intros [= <-]. simpl. apply normalize_unit in Hu. repeat split; auto; lra.
  - unfold handle_alert.
    destruct player as [p|]; [|intros [= <-]; simpl; repeat split; auto].
    destruct (normalize _) as [u|] eqn:Hu; [|discriminate].
    intros [= <-]. simpl. apply normalize_unit in Hu. repeat split; auto; lra.
  - unfold handle_search.
    destruct (Rltb 10 _); [intros [= <-]; simpl; repeat split; auto|].
    destruct (Rltb _ (2 / 100)); intros [= <-]; simpl; repeat split; auto.
    pose proof (heading_unit (search_angle d)). lra.
Qed.

Lemma move_within_limits g dt walls g' :
  within_limits g -> move g dt walls = Ok g' -> within_limits g'.
Proof.
  intros (Hv & Hw & Hr & Hs) Hm. unfold within_limits.
  apply move_returns in Hm as [-> | ->]; simpl; repeat split; auto; lra.
Qed.

Lemma move_step g dt walls g' :
  move g dt walls = Ok g' ->
  position g' = position g \/ position g' = attempted g dt.
Proof. intros Hm. apply move_returns in Hm as [-> | ->]; simpl; auto. Qed.

Lemma step_bounded g dt v :
  within_limits g ->
  v = position g \/ v = attempted g dt ->
  (vx v - vx (position g)) * (vx v - vx (position g))
  + (vy v - vy (position g)) * (vy v - vy (position g))
  <= (3 * dt) * (3 * dt).
Proof.
  intros (Hv & _ & _ & Hs) [-> | ->].
  - nra.
  - unfold attempted, vadd, vscale. simpl.
    set (a := vx (velocity g)) in *. set (b := vy (velocity g)) in *.
    set (c := current_speed g) in *.
    assert (Hc : c * c <= 9) by (destruct Hs as [-> | ->]; lra).
    replace ((vx (position g) + a * dt * c - vx (position g))
             * (vx (position g) + a * dt * c - vx (position g))
             + (vy (position g) + b * dt * c - vy (position g))
               * (vy (position g) + b * dt * c - vy (position g)))
      with ((a * a + b * b) * (c * c) * (dt * dt)) by ring.
    assert (0 <= dt * dt) by nra. assert (0 <= c * c) by nra.
    assert (0 <= a * a + b * b) by nra.
    assert ((a * a + b * b) * (c * c) <= 9) by nra.
    nra.
Qed.

Lemma update_within_limits g dt player walls d g' :
  within_limits g ->
  update g dt player walls d = Ok g' ->
  within_limits g' /\
  (vx (position g') - vx (position g)) * (vx (position g') - vx (position g))
  + (vy (position g') - vy (position g)) * (vy (position g') - vy (position g))
  <= (3 * dt) * (3 * dt).
Proof.
  intros Hl. unfold update.
  set (g1 := set_state_timer g (state_timer g + dt)).
  assert (Hl1 : within_limits g1) by exact Hl.
  destruct (match state g1 with PATROLLING => _ | _ => _ end) as [g2|e] eqn:Hh;
    [|discriminate].
  apply handler_within_limits in Hh as [Hl2 Hp2]; [|exact Hl1]. simpl.
  change (position g1) with (position g) in Hp2.
  destruct (move g2 dt walls) as [g3|e] eqn:Hmove; [|discriminate].
  pose proof (move_within_limits g2 dt walls g3 Hl2 Hmove) as Hl3.
  pose proof (step_bounded g2 dt _ Hl2 (move_step g2 dt walls g3 Hmove)) as Hstep.
  rewrite Hp2 in Hstep. simpl.
  destruct player as [p|]; [|intros [= <-]; now split].
  destruct (check_player_detection _ p _) as [r|e] eqn:Hc; [|discriminate].
  simpl. intros [= <-].
  apply check_outcome in Hc as [-> | ->]; simpl; [now split|].
  split; [|exact Hstep].
  destruct Hl3 as (Hv & Hw & Hr & Hs). unfold within_limits. simpl.
  repeat split; auto.
Qed.

(** X8.  A guard that starts from the constructor never has a velocity
    longer than 1 nor a speed other than the walk speed 1.5 or the run
    speed 3, so in a tick of length [dt] it moves at most [3 * dt] units. *)
Theorem guard_moves_at_most_run_speed
    (x y : R) (points : option (list (R * R))) (g : Guard) :
  run (Guard_init x y points) g ->
  within_limits g /\
  forall dt player walls d g',
    update g dt player walls d = Ok g' ->
    (vx (position g') - vx (position g)) * (vx (position g') - vx (position g))
    + (vy (position g') - vy (position g)) * (vy (position g') - vy (position g))
    <= (3 * dt) * (3 * dt).
Proof.
  intros Hrun.
  assert (Hl : within_limits g).
  { induction Hrun as [|g dt player walls d g' _ IH Hup].
    - unfold within_limits. simpl. repeat split; auto; lra.
    - now apply (update_within_limits g dt player walls d g'). }
  split; [exact Hl|]. intros dt player walls d g' Hup.
  now apply (update_within_limits g dt player walls d g').
Qed.

Lemma guard_moves_at_most_run_speed_witness :
  (vx (position walk2) - vx (position walk1)) * (vx (position walk2) - vx (position walk1))
  + (vy (position walk2) - vy (position walk1)) * (vy (position walk2) - vy (position walk1))
  <= (3 * 1) * (3 * 1).
Proof.
  destruct (guard_moves_at_most_run_speed 0 0 None walk1) as (_ & H).
  - eapply run_tick; [apply run_start | exact walk_tick1].
  - apply (H 1 (Some intruder) None rolls walk2). exact walk_tick2.
Defined.

(** *** Moving *)

Lemma no_collision_means_clear (r : Rect) (walls : list Rect) :
  filter (fun w => colliderect r w) walls = [] ->
  forall w, In w walls -> colliderect r w = false.
Proof.
  intros Hnone w Hw. destruct (colliderect r w) eqn:E; [|reflexivity].
  assert (Hin : w ∈ filter (fun w => colliderect r w) walls).
  { apply list_elem_of_filter. split; [now rewrite E | now apply list_elem_of_In]. }
  rewrite Hnone in Hin. now apply not_elem_of_nil in Hin.
Qed.

Lemma collision_has_a_wall (r : Rect) (walls : list Rect) w ws :
  filter (fun w => colliderect r w) walls = w :: ws ->
  In w walls /\ colliderect r w = true.
Proof.
  intros Hsome.
  assert (Hin : w ∈ filter (fun w => colliderect r w) walls)
    by (rewrite Hsome; apply list_elem_of_here).
  apply list_elem_of_filter in Hin as [Hc Hin].
  split; [now apply list_elem_of_In | now apply Is_true_true].
Qed.

Lemma blocked_spec g dt w0 ws :
  blocked g dt (Some (w0 :: ws))
  = match filter (fun w => colliderect (rect (advanced g dt)) w) (w0 :: ws) with
    | _ :: _ => true
    | [] => false
    end.
Proof.
  unfold blocked.
  destruct (filter (fun w => colliderect (rect (advanced g dt)) w) (w0 :: ws))
    as [|w ws'] eqn:Hf.
  - apply not_true_is_false. intros Hex.
    apply existsb_exists in Hex as (w & Hin & Hw).
    now rewrite (no_collision_means_clear _ _ Hf w Hin) in Hw.
  - apply collision_has_a_wall in Hf as [Hin Hc].
    apply existsb_exists. eauto.
Qed.

(** When [move] returns and when it raises. *)
Lemma move_outcome g dt walls :
  move g dt walls
  = if can_move g dt walls
    then Ok (if blocked g dt walls then rolled_back g dt else advanced g dt)
    else Raise TypeError.
Proof.
  rewrite move_cases. unfold can_move.
  destruct (representable (attempted g dt)); [|reflexivity].
  destruct walls as [[|w0 ws]|];
    try (cbn; now rewrite orb_true_r).
  rewrite blocked_spec.
  destruct (filter (fun w => colliderect (rect (advanced g dt)) w) (w0 :: ws)).
  - cbn. now rewrite orb_true_r.
  - cbn. rewrite orb_false_r. reflexivity.
Qed.

Lemma advanced_rect g dt :
  width (rect (advanced g dt)) = width (rect g) /\
  height (rect (advanced g dt)) = height (rect g) /\
  rect_follows_position (advanced g dt).
Proof.
  unfold rect_follows_position, advanced, centred.
  cbn [rect position set_rect set_position width height fst snd].
  split; [reflexivity|]. split; reflexivity.
Qed.

Lemma rolled_back_rect g dt :
  width (rect (rolled_back g dt)) = width (rect g) /\
  height (rect (rolled_back g dt)) = height (rect g) /\
  rect_follows_position (rolled_back g dt).
Proof.
  unfold rect_follows_position, rolled_back, advanced, centred.
  cbn [rect position set_rect set_position set_velocity width height fst snd].
  split; [reflexivity|]. split; reflexivity.
Qed.

(** X9.  A move is all or nothing, or it raises.  When it returns, either
    the guard is at the position it attempted, with its velocity kept and
    its rectangle clear of every wall; or some wall met the rectangle at
    the attempted position, and the guard is back at the position it had,
    with zero velocity; either way the rectangle keeps its size and is
    centred on the truncated position.  It raises only [TypeError], from
    re-centring the rectangle: when the attempted position is not
    representable in C [int]s, or when a wall sends the guard back to a
    position that is not.  In every other case it returns. *)
Theorem move_is_all_or_nothing (g : Guard) (dt : R) (walls : option (list Rect)) :
  match move g dt walls with
  | Ok g' =>
      width (rect g') = width (rect g) /\
      height (rect g') = height (rect g) /\
      rect_follows_position g' /\
      ((position g' = attempted g dt /\
        velocity g' = velocity g /\
        forall ws w, walls = Some ws -> In w ws ->
                     colliderect (rect g') w = false)
       \/
       (position g' = position g /\
        velocity g' = mkVector2 0 0 /\
        exists ws w,
          walls = Some ws /\ In w ws /\
          colliderect
            (centred (rect g)
               (trunc (vx (attempted g dt)), trunc (vy (attempted g dt)))) w
          = true))
  | Raise e =>
      e = TypeError /\
      (representable (attempted g dt) = false \/
       representable (position g) = false /\ blocked g dt walls = true)
  end /\
  (representable (attempted g dt) = true ->
   representable (position g) = true \/ blocked g dt walls = false ->
   exists g', move g dt walls = Ok g').
Proof.
  destruct (advanced_rect g dt) as (Haw & Hah & Haf).
  destruct (rolled_back_rect g dt) as (Hrw & Hrh & Hrf).
  split.
  - rewrite move_cases.
    destruct (representable (attempted g dt)) eqn:Hatt;
      [|split; [reflexivity | now left]].
    destruct walls as [[|w0 ws]|].
    + split; [exact Haw|]. split; [exact Hah|]. split; [exact Haf|].
      left. split; [reflexivity|]. split; [reflexivity|].
      intros ws w [= <-] [].
    + pose proof (blocked_spec g dt w0 ws) as Hb.
      destruct (filter (fun w => colliderect (rect (advanced g dt)) w) (w0 :: ws))
        as [|w ws'] eqn:Hf.
      * split; [exact Haw|]. split; [exact Hah|]. split; [exact Haf|].
        left. split; [reflexivity|]. split; [reflexivity|].
        intros ws0 w [= <-] Hw. exact (no_collision_means_clear _ _ Hf w Hw).
      * destruct (representable (position g)) eqn:Hold;
          [|split; [reflexivity | right; now split]].
        split; [exact Hrw|]. split; [exact Hrh|]. split; [exact Hrf|].
        right. split; [reflexivity|]. split; [reflexivity|].
        apply collision_has_a_wall in Hf as [Hin Hc].
        exists (w0 :: ws), w. split; [reflexivity|]. split; [exact Hin | exact Hc].
    + split; [exact Haw|]. split; [exact Hah|]. split; [exact Haf|].
      left. split; [reflexivity|]. split; [reflexivity|].
      intros; discriminate.
  - intros Hatt Hold. rewrite move_outcome. unfold can_move.
    rewrite Hatt. destruct Hold as [-> | ->]; cbn [andb orb negb];
      rewrite ?orb_true_r; eauto.
Qed.

Lemma move_is_all_or_nothing_witness :
  exists g', move walk2 1 (Some [mkRect 10 (-8) 8 8]) = Ok g'.
Proof.
  destruct (move_is_all_or_nothing walk2 1 (Some [mkRect 10 (-8) 8 8]))
    as (_ & Hreturns).
  apply Hreturns.
  - apply (representable_eval _ 6 0); try reflexivity;
      apply trunc_eval; try lia; unfold attempted, vadd, vscale; simpl; lra.
  - left. apply (representable_eval _ 3 0); try reflexivity;
      apply trunc_eval; try lia; simpl; lra.
Defined.

(** *** Standing guard: suspicion and investigation *)

Lemma move_of_still g dt walls :
  velocity g = mkVector2 0 0 ->
  move g dt walls
  = if representable (position g)
    then Ok (if blocked g dt walls then rolled_back g dt else advanced g dt)
    else Raise TypeError.
Proof.
  intros Hv. rewrite move_outcome. unfold can_move.
  assert (Ha : attempted g dt = position g).
  { unfold attempted. rewrite Hv. apply stay_put. }
  rewrite Ha. now destruct (representable (position g)).
Qed.

Lemma still_stays g dt walls :
  velocity g = mkVector2 0 0 ->
  position (if blocked g dt walls then rolled_back g dt else advanced g dt)
  = position g /\
  velocity (if blocked g dt walls then rolled_back g dt else advanced g dt)
  = mkVector2 0 0.
Proof.
  intros Hv.
  assert (Ha : attempted g dt = position g).
  { unfold attempted. rewrite Hv. apply stay_put. }
  destruct (blocked g dt walls); simpl; auto.
Qed.

(** The tick of a guard whose handler has run, when no player is passed. *)
Lemma tick_without_player g dt walls d g2 :
  match state g with
  | PATROLLING => handle_patrol (set_state_timer g (state_timer g + dt)) dt
  | SUSPICIOUS => handle_suspicious (set_state_timer g (state_timer g + dt)) dt
  | INVESTIGATING =>
      handle_investigation (set_state_timer g (state_timer g + dt)) dt
  | ALERTED => handle_alert (set_state_timer g (state_timer g + dt)) dt None
  | SEARCHING => handle_search (set_state_timer g (state_timer g + dt)) dt d
  end = Ok g2 ->
  update g dt None walls d = move g2 dt walls.
Proof.
  intros Hh. unfold update.
  change (state (set_state_timer g (state_timer g + dt))) with (state g).
  rewrite Hh. cbv beta iota delta [rbind].
  now destruct (move g2 dt walls).
Qed.

(** X10.  A tick that begins SUSPICIOUS.  Until 3 seconds have passed in
    the state, the guard stands: if its position is representable in C
    [int]s the tick returns and leaves the guard where it is, with zero
    velocity and a view direction within 45 degrees of the x axis, still
    SUSPICIOUS unless the player it was passed is detected; if its
    position is not representable, the tick raises [TypeError].  Once more
    than 3 seconds have passed, a tick without a player that returns has
    put the guard back to PATROLLING and reset the state timer; such a
    tick raises nothing but [TypeError], and it returns exactly when the
    move the guard attempts with the velocity it had can be made. *)
Theorem suspicious_guard_stands_and_looks
    (g : Guard) (dt : R) (player : option Player)
    (walls : option (list Rect)) (d : Draws) :
  state g = SUSPICIOUS ->
  view_distance g <> 0 ->
  (state_timer g + dt <= 3 ->
   if representable (position g)
   then exists g',
          update g dt player walls d = Ok g' /\
          position g' = position g /\
          velocity g' = mkVector2 0 0 /\
          -45 <= view_direction g' <= 45 /\
          (state g' = SUSPICIOUS \/ state g' = ALERTED /\ present player = true)
   else update g dt player walls d = Raise TypeError) /\
  (3 < state_timer g + dt ->
   if can_move g dt walls
   then exists g',
          update g dt None walls d = Ok g' /\
          state g' = PATROLLING /\ state_timer g' = 0
   else update g dt None walls d = Raise TypeError).
Proof.
  intros Hst Hvd. split.
  - intros Hearly. apply Rltb_false in Hearly. unfold update.
    set (g1 := set_state_timer g (state_timer g + dt)).
    change (state g1) with (state g). rewrite Hst. unfold handle_suspicious.
    change (state_timer g1) with (state_timer g + dt). rewrite Hearly.
    cbv beta iota delta [rbind].
    set (g3 := set_velocity (set_view_direction g1 (sin ((state_timer g + dt) * 2) * 45))
                 (mkVector2 0 0)).
    rewrite (move_of_still g3 dt walls eq_refl).
    change (position g3) with (position g).
    destruct (representable (position g)); [|reflexivity].
    destruct (still_stays g3 dt walls eq_refl) as (Hp & Hv).
    set (g4 := if blocked g3 dt walls then rolled_back g3 dt else advanced g3 dt) in *.
    assert (Hframe : state g4 = SUSPICIOUS /\ view_direction g4 = view_direction g3 /\
                     view_distance g4 = view_distance g).
    { unfold g4. destruct (blocked g3 dt walls); repeat split; exact Hst. }
    destruct Hframe as (Hs & Hvd3 & Hd).
    assert (Hlook : -45 <= view_direction g3 <= 45).
    { simpl. pose proof (SIN_bound ((state_timer g + dt) * 2)). lra. }
    change (position g3) with (position g) in Hp.
    destruct player as [p|].
    + destruct (check_total g4 p (detect_roll d)) as (r & Hr);
        [now rewrite Hd|].
      rewrite Hr. simpl. eexists. split; [reflexivity|].
      apply check_outcome in Hr as [-> | ->]; simpl.
      * rewrite Hp, Hv, Hvd3, Hs. repeat split; try apply Hlook. now left.
      * rewrite Hp, Hv, Hvd3. repeat split; try apply Hlook. right. now split.
    + eexists. split; [reflexivity|].
      rewrite Hp, Hv, Hvd3, Hs. repeat split; try apply Hlook. now left.
  - intros Hlate. apply Rltb_true in Hlate.
    set (g2 := set_state_timer
                 (set_state (set_state_timer g (state_timer g + dt)) PATROLLING) 0).
    rewrite (tick_without_player g dt walls d g2).
    + rewrite move_outcome.
      change (can_move g2 dt walls) with (can_move g dt walls).
      destruct (can_move g dt walls); [|reflexivity].
      eexists. split; [reflexivity|].
      destruct (blocked g2 dt walls); split; reflexivity.
    + rewrite Hst. unfold handle_suspicious.
      change (state_timer (set_state_timer g (state_timer g + dt)))
        with (state_timer g + dt).
      now rewrite Hlate.
Qed.

Lemma suspicious_guard_stands_and_looks_witness :
  exists g', update (set_state walk5 SUSPICIOUS) (1 / 2) None None rolls = Ok g'
             /\ position g' = position walk5.
Proof.
  destruct (suspicious_guard_stands_and_looks (set_state walk5 SUSPICIOUS)
              (1 / 2) None None rolls) as (Hearly & _).
  - reflexivity.
  - simpl. lra.
  - assert (Hrep : representable (position (set_state walk5 SUSPICIOUS)) = true).
    { apply (representable_eval _ 19 0); try reflexivity;
        apply trunc_eval; try lia; simpl; lra. }
    rewrite Hrep in Hearly.
    destruct Hearly as (g' & Hg' & Hpos & _); [simpl; lra|].
    exists g'. split; [exact Hg' | exact Hpos].
Defined.




End StateMachine.

(* --------------------------------------------------------------------- *)
(** ** Loot: stealing frame by frame, collecting, progress               *)
(* --------------------------------------------------------------------- *)

Section LootFrames.
Import Loot LootProgress.

Lemma update_stealing_step it dt :
  being_stolen it = true ->
  steal_time it <> 0 ->
  update_stealing it dt
  = Ok (Rleb 100 (steal_progress it + 100 / steal_time it * dt),
        set_stealing it true (steal_progress it + 100 / steal_time it * dt)).
Proof.
  intros Hb Hst. unfold update_stealing, pydiv. rewrite Hb.
  replace (Reqb (steal_time it) 0) with false by (symmetry; now apply Reqb_false).
  simpl. now destruct (Rleb 100 _).
Qed.

Lemma steal_frames_run it dts :
  being_stolen it = true ->
  0 < steal_time it ->
  Forall (fun dt => 0 <= dt) dts ->
  exists flags it',
    steal_frames it dts = Ok (flags, it') /\
    length flags = length dts /\
    being_stolen it' = true /\
    steal_time it' = steal_time it /\
    value it' = value it /\
    steal_progress it <= steal_progress it' /\
    (dts <> [] -> (List.last flags false = true <-> 100 <= steal_progress it')) /\
    (100 <= steal_progress it -> forall j, (j < length flags)%nat ->
                                           nth j flags false = true) /\
    (forall i j, (i <= j < length flags)%nat ->
                 nth i flags false = true -> nth j flags false = true).
Proof.
  intros Hb Hst Hdts. revert it Hb Hst.
  induction Hdts as [|dt rest Hdt _ IH]; intros it Hb Hst.
  - exists [], it. simpl. repeat split; try lra; try congruence; intros; lia.
  - simpl steal_frames. rewrite update_stealing_step by (assumption || lra).
    simpl.
    set (p1 := steal_progress it + 100 / steal_time it * dt).
    set (it1 := set_stealing it true p1).
    assert (Hgrow : steal_progress it <= p1).
    { unfold p1. assert (0 < 100 / steal_time it) by (apply Rdiv_lt_0_compat; lra).
      nra. }
    destruct (IH it1 eq_refl Hst)
      as (flags & it' & Hrun & Hlen & Hb' & Hst' & Hv & Hmono & Hlast & Hdone & Hsticky).
    rewrite Hrun. simpl. exists (Rleb 100 p1 :: flags), it'.
    change (steal_progress it1) with p1 in *.
    split; [reflexivity|]. split; [simpl; now rewrite Hlen|].
    split; [exact Hb'|]. split; [exact Hst'|]. split; [exact Hv|].
    split; [lra|].
    assert (Hall : 100 <= p1 -> forall j, (j < S (length flags))%nat ->
                   nth j (Rleb 100 p1 :: flags) false = true).
    { intros Hp [|j] Hj; simpl.
      - now apply Rleb_true.
      - apply Hdone; [exact Hp | lia]. }
    split; [|split].
    + intros _. destruct rest as [|dt' rest'].
      * destruct flags; [|discriminate Hlen]. simpl.
        assert (Hsame : steal_progress it' = p1).
        { simpl in Hrun. injection Hrun as <-. reflexivity. }
        rewrite Hsame. apply Rleb_true.
      * destruct flags as [|f flags']; [discriminate Hlen|].
        change (List.last (Rleb 100 p1 :: f :: flags') false)
          with (List.last (f :: flags') false).
        apply Hlast. discriminate.
    + intros Hp. apply Hall. lra.
    + intros [|i] j Hij Hi.
      * simpl in Hi. apply Rleb_true in Hi. apply Hall; [exact Hi|]. simpl in Hij. lia.
      * destruct j as [|j]; [lia|]. simpl in *. apply (Hsticky i j); [lia | exact Hi].
Qed.

(** X12.  While an item is being stolen, the calls of [update_stealing]
    for frames of non-negative length never raise and change nothing but
    the progress, which only grows: it is not reset and not capped at
    100.  Each call reports completion exactly when the progress has
    reached 100 after it, so once a call has reported completion every
    later call does too. *)
Theorem stealing_progress_only_grows (it : LootItem) (dts : list R) :
  being_stolen it = true ->
  0 < steal_time it ->
  Forall (fun dt => 0 <= dt) dts ->
  exists flags it',
    steal_frames it dts = Ok (flags, it') /\
    length flags = length dts /\
    being_stolen it' = true /\
    steal_time it' = steal_time it /\
    value it' = value it /\
    steal_progress it <= steal_progress it' /\
    (dts <> [] -> (List.last flags false = true <-> 100 <= steal_progress it')) /\
    (forall i j, (i <= j < length flags)%nat ->
                 nth i flags false = true -> nth j flags false = true).
Proof.
  intros Hb Hst Hdts.
  destruct (steal_frames_run it dts Hb Hst Hdts) as
    (flags & it' & Hrun & Hlen & Hb' & Hst' & Hv & Hmono & Hlast & _ & Hsticky).
  exists flags, it'. repeat split; try assumption; now apply Hlast.
Qed.

Lemma stealing_progress_only_grows_witness :
  let it := snd (start_stealing (LootItem_init 0 100 100 CASH 200)) in
  exists flags it',
    steal_frames it [1; 1 / 2; 0] = Ok (flags, it') /\
    length flags = 3%nat /\
    0 <= steal_progress it'.
Proof.
  intros it.
  assert (Hst : steal_time it = 6 / 5).
  { unfold it. simpl. unfold _get_steal_time. simpl. lra. }
  destruct (stealing_progress_only_grows it [1; 1 / 2; 0])
    as (flags & it' & Hrun & Hlen & _ & _ & _ & Hmono & _).
  - reflexivity.
  - rewrite Hst. lra.
  - repeat constructor; lra.
  - exists flags, it'. split; [exact Hrun|]. split; [exact Hlen | exact Hmono].
Defined.

Lemma steal_time_zero t v : _get_steal_time t v = 0 <-> v = (-1000)%Z.
Proof.
  unfold _get_steal_time. pose proof (base_time_positive t) as Hb. split.
  - intros H. apply eq_IZR.
    assert (1 + IZR v / 1000 = 0) by nra. lra.
  - intros ->. replace (1 + IZR (-1000) / 1000) with 0 by lra. ring.
Qed.

(** X13.  An item that is not being stolen is left alone by
    [update_stealing], which then never raises.  Once the steal has
    started, [update_stealing] raises [ZeroDivisionError] exactly for the
    items of value -1000, whose steal time is 0. *)
Theorem update_stealing_divides_by_the_steal_time
    (id : nat) (x y : Z) (t : LootType) (v : Z) (dt : R) :
  let it := LootItem_init id x y t v in
  update_stealing it dt = Ok (false, it) /\
  (update_stealing (snd (start_stealing it)) dt = Raise ZeroDivisionError
   <-> v = (-1000)%Z).
Proof.
  intros it. split; [reflexivity|].
  unfold update_stealing, pydiv. simpl.
  destruct (Reqb (_get_steal_time t v) 0) eqn:E.
  - apply Reqb_true in E. apply steal_time_zero in E. simpl. tauto.
  - apply Reqb_false in E. simpl. split.
    + destruct (Rleb 100 _); discriminate.
    + intros Hv. apply (proj2 (steal_time_zero t v)) in Hv. contradiction.
Qed.

(** X14.  Collecting the same item a second time returns 0 and changes
    nothing, so no value is counted twice; and collecting an item right
    after generating it returns its value and leaves the live collection
    as it was before the item was generated. *)
Theorem collecting_counts_once :
  (forall m it,
      collect_loot (snd (collect_loot m it)) it = (0%Z, snd (collect_loot m it))) /\
  (forall m x y t v dt dv,
      identities_ok m ->
      let loot := fst (generate_loot m x y t v dt dv) in
      let m1 := snd (generate_loot m x y t v dt dv) in
      fst (collect_loot m1 loot) = value loot /\
      loot_sprites (snd (collect_loot m1 loot)) = loot_sprites m /\
      collected_value (snd (collect_loot m1 loot))
      = (collected_value m + value loot)%Z /\
      total_value (snd (collect_loot m1 loot)) = (total_value m + value loot)%Z).
Proof.
  split.
  - intros m it.
    destruct (loot_sprites m !! uid it) as [it'|] eqn:E.
    + assert (Hm : loot_sprites (snd (collect_loot m it)) !! uid it = None).
      { unfold collect_loot. rewrite E. simpl. apply lookup_delete_eq. }
      generalize dependent (snd (collect_loot m it)). intros m' Hm.
      unfold collect_loot. now rewrite Hm.
    + assert (Hm : snd (collect_loot m it) = m)
        by (unfold collect_loot; now rewrite E).
      rewrite Hm. unfold collect_loot. now rewrite E.
  - intros m x y t v dt dv Hid loot m1.
    assert (Hfresh : loot_sprites m !! allocated m = None) by (apply Hid; lia).
    unfold collect_loot, m1, loot. simpl. rewrite lookup_insert_eq. simpl.
    rewrite delete_insert_id by exact Hfresh. repeat split.
Qed.

Lemma collecting_counts_once_witness :
  let loot := fst (generate_loot LootManager_init 7 7 (Some CASH) (Some 250%Z) 0 0) in
  let m1 := snd (generate_loot LootManager_init 7 7 (Some CASH) (Some 250%Z) 0 0) in
  fst (collect_loot m1 loot) = 250%Z.
Proof.
  intros loot m1.
  destruct collecting_counts_once as (_ & Hround).
  destruct (Hround LootManager_init 7%Z 7%Z (Some CASH) (Some 250%Z) 0%Z 0%Z
              init_identities) as (Hv & _).
  exact Hv.
Defined.

Lemma reachable_balance m : reachable m -> accounts_balance m.
Proof.
  induction 1.
  - exact init_balance.
  - apply generate_loot_balance; [now apply reachable_identities | assumption].
  - now apply collect_loot_balance.
Qed.

(** X15.  [get_collection_progress] never raises: with a total of 0 it
    returns 0, otherwise 100 times collected over total.  In a manager a
    program can reach it returns 100 exactly when the live items are worth
    0 in all (in particular when none is left). *)
Theorem collection_progress_is_complete_when_nothing_is_left (m : LootManager) :
  (total_value m = 0%Z -> get_collection_progress m = Ok 0) /\
  (total_value m <> 0%Z ->
   get_collection_progress m
   = Ok (IZR (collected_value m) / IZR (total_value m) * 100)) /\
  (reachable m -> total_value m <> 0%Z ->
   (get_collection_progress m = Ok 100 <-> live_value m = 0%Z)).
Proof.
  assert (Hnz : total_value m <> 0%Z ->
                get_collection_progress m
                = Ok (IZR (collected_value m) / IZR (total_value m) * 100)).
  { intros Ht. unfold get_collection_progress, pydiv.
    replace (total_value m =? 0)%Z with false by lia.
    replace (Reqb (IZR (total_value m)) 0) with false; [reflexivity|].
    symmetry. apply Reqb_false. intros H. apply eq_IZR in H. contradiction. }
  split; [|split; [exact Hnz|]].
  - intros Ht. unfold get_collection_progress. now rewrite Ht.
  - intros Hr Ht. rewrite (Hnz Ht).
    pose proof (reachable_balance m Hr) as Hb. unfold accounts_balance in Hb.
    assert (HtR : IZR (total_value m) <> 0)
      by (intros H; apply eq_IZR in H; contradiction).
    split.
    + intros [= H].
      assert (Hc : IZR (collected_value m) = IZR (total_value m)).
      { apply (Rmult_eq_reg_r (/ IZR (total_value m)));
          [|now apply Rinv_neq_0_compat].
        rewrite Rinv_r by exact HtR. unfold Rdiv in H. lra. }
      apply eq_IZR in Hc. lia.
    + intros Hl. f_equal.
      replace (collected_value m) with (total_value m) by lia.
      field. exact HtR.
Qed.

Lemma collection_progress_is_complete_when_nothing_is_left_witness :
  get_collection_progress LootManager_init = Ok (0 / 6200 * 100).
Proof.
  destruct (collection_progress_is_complete_when_nothing_is_left LootManager_init)
    as (_ & Hnz & _).
  apply Hnz. vm_compute. discriminate.
Defined.

End LootFrames.

(* --------------------------------------------------------------------- *)
(** ** Map import: tile lookup and the groups                           *)
(* --------------------------------------------------------------------- *)

Section MapGroups.
Import Geometry MapLoader MapFacts.

Lemma find_tile_info_first pre ts post tile_id :
  Forall (fun ts => ~ covers ts tile_id) pre ->
  covers ts tile_id ->
  exists info,
    find_tile_info (pre ++ ts :: post) tile_id = Ok info /\
    nth_error (get (tiles ts) []) (Z.to_nat (tile_id - get (firstgid ts) 1%Z))
    = Some info.
Proof.
  intros Hpre Hts. induction Hpre as [|ts0 pre Hts0 _ IH]; simpl.
  - unfold covers in Hts.
    replace (_ && _)%Z with true by lia.
    apply index_in_range. lia.
  - destruct (_ && _)%Z eqn:E; [|exact IH].
    apply andb_prop in E as [E1 E2]. exfalso. apply Hts0. unfold covers. lia.
Qed.

(** X16.  A tile ID resolves in the first tileset whose ID range holds it,
    to the entry at offset [tile_id - firstgid] of that tileset; later
    tilesets whose range also holds it are not consulted. *)
Theorem tile_id_resolves_in_the_first_covering_tileset
    (m : MapLoader) (doc : MapData)
    (pre : list Tileset) (ts : Tileset) (post : list Tileset) (tile_id : Z) :
  map_data m = Some doc ->
  get (tilesets doc) [] = pre ++ ts :: post ->
  Forall (fun ts => ~ covers ts tile_id) pre ->
  covers ts tile_id ->
  exists info,
    _get_tile_info m tile_id = Ok info /\
    nth_error (get (tiles ts) []) (Z.to_nat (tile_id - get (firstgid ts) 1%Z))
    = Some info.
Proof.
  intros Hdoc Hsets Hpre Hts. unfold _get_tile_info. rewrite Hdoc, Hsets.
  now apply find_tile_info_first.
Qed.

Lemma tile_id_resolves_in_the_first_covering_tileset_witness :
  let floor_info := mkTileInfo (Some "floor") None None in
  let wall_info := mkTileInfo (Some "wall") None None in
  let sets := [mkTileset (Some 1%Z) (Some [wall_info]);
               mkTileset (Some 2%Z) (Some [wall_info; floor_info]);
               mkTileset (Some 3%Z) (Some [wall_info])] in
  let doc := mkMapData (Some 1%Z) (Some 1%Z) None (Some sets) in
  let m := mkMapLoader 16 ∅ (Some doc) 1 1 [] [] [] [] [] [] [] in
  exists info, _get_tile_info m 3 = Ok info /\ info_type info = Some "floor".
Proof.
  intros floor_info wall_info sets doc m.
  destruct (tile_id_resolves_in_the_first_covering_tileset m doc
              [mkTileset (Some 1%Z) (Some [wall_info])]
              (mkTileset (Some 2%Z) (Some [wall_info; floor_info]))
              [mkTileset (Some 3%Z) (Some [wall_info])] 3)
    as (info & Hinfo & Hnth).
  - reflexivity.
  - reflexivity.
  - constructor; [|constructor]. unfold covers. simpl. lia.
  - unfold covers. simpl. lia.
  - exists info. split; [exact Hinfo|]. simpl in Hnth. now injection Hnth as <-.
Defined.

(** Where [add_to_group] puts a tile. *)
Ltac group_cases m tile :=
  destruct m; unfold add_to_group; cbn [tile_type];
  repeat match goal with
  | |- context [String.eqb ?a ?b] => destruct (String.eqb_spec a b)
  end.

Lemma add_to_group_all (P : Tile -> Prop) m tile :
  Forall P (all_sprites (add_to_group m tile))
  <-> P tile /\ Forall P (all_sprites m).
Proof.
  group_cases m tile; unfold all_sprites; simpl;
    rewrite !Forall_app, ?Forall_cons, ?Forall_nil; tauto.
Qed.

Lemma add_to_group_count m tile :
  length (all_sprites (add_to_group m tile)) = S (length (all_sprites m)).
Proof.
  group_cases m tile; unfold all_sprites; simpl;
    rewrite !length_app; simpl; lia.
Qed.

Lemma add_to_group_sorted m tile :
  sorted_by_type m -> sorted_by_type (add_to_group m tile).
Proof.
  unfold sorted_by_type.
  group_cases m tile; simpl; rewrite ?Forall_app, ?Forall_cons, ?Forall_nil;
    intros (Hw & Hf & Hd & Hv & Hl & Hs & Ho); repeat split; try assumption.
  unfold grouped_types. simpl. intuition congruence.
Qed.

Lemma add_to_group_keeps m tile :
  width (add_to_group m tile) = width m /\
  height (add_to_group m tile) = height m /\
  tile_size (add_to_group m tile) = tile_size m.
Proof. group_cases m tile; now repeat split. Qed.

Lemma create_tile_invariant w h size layer_data y m x m' :
  (0 <= x < w)%Z -> (0 <= y < h)%Z ->
  import_invariant w h size m ->
  create_tile layer_data y m x = Ok m' ->
  import_invariant w h size m'.
Proof.
  intros Hx Hy Hinv. pose proof Hinv as (Hw & Hh & Hs & Hgrid & Hsorted).
  unfold create_tile.
  destruct (_ <=? _)%Z; [intros [= <-]; exact Hinv|].
  destruct (index layer_data _) as [tile_id|]; [|discriminate]. simpl.
  destruct (tile_id =? 0)%Z; [intros [= <-]; exact Hinv|].
  destruct (_get_tile_info m tile_id) as [info|]; [|discriminate]. simpl.
  intros [= <-].
  destruct (add_to_group_keeps m
              (Tile_init (tile_size m) (x * tile_size m) (y * tile_size m)
                 match tileset m !! get (info_name info) ("tile_" +:+ pretty tile_id) with
                 | Some img => img
                 | None => placeholder_tiles (get (info_type info) "wall")
                 end (get (info_type info) "wall") (get (info_properties info) [])))
    as (Hw' & Hh' & Hs').
  unfold import_invariant. rewrite Hw', Hh', Hs'.
  split; [exact Hw|]. split; [exact Hh|]. split; [exact Hs|]. split.
  - apply add_to_group_all. split; [|assumption].
    exists x, y. rewrite Hs. now repeat split.
  - now apply add_to_group_sorted.
Qed.

Lemma for_each_keeps {A} (I : MapLoader -> Prop) (Q : A -> Prop) (l : list A)
    (body : MapLoader -> A -> result MapLoader) :
  (forall m a m', Q a -> I m -> body m a = Ok m' -> I m') ->
  Forall Q l ->
  forall m m', I m -> for_each l body m = Ok m' -> I m'.
Proof.
  intros Hbody. induction 1 as [|a l Ha _ IH]; intros m m' Hm; simpl.
  - now intros [= <-].
  - destruct (body m a) as [m1|] eqn:E; [|discriminate]. simpl.
    apply IH. eapply Hbody; eassumption.
Qed.

Lemma _create_tiles_invariant w h size m m' :
  import_invariant w h size m ->
  _create_tiles m = Ok m' ->
  import_invariant w h size m'.
Proof.
  intros Hm. unfold _create_tiles.
  destruct (map_data m) as [doc|]; [|now intros [= <-]].
  apply (for_each_keeps (import_invariant w h size) (fun _ => True));
    [| apply Forall_forall; trivial | exact Hm].
  intros m1 layer m1' _ Hm1.
  assert (Hh : height m1 = h) by apply Hm1.
  rewrite Hh.
  apply (for_each_keeps (import_invariant w h size) (fun y => 0 <= y < h)%Z);
    [| apply range_bounds | exact Hm1].
  intros m2 y m2' Hy Hm2.
  assert (Hw : width m2 = w) by apply Hm2.
  rewrite Hw.
  apply (for_each_keeps (import_invariant w h size) (fun x => 0 <= x < w)%Z);
    [| apply range_bounds | exact Hm2].
  intros m3 x m3' Hx Hm3. now apply create_tile_invariant.
Qed.

(** X17.  After [load_map], every tile of every group fills one cell of
    the grid: its rectangle is [tile_size] wide and high and sits at
    [(x * tile_size, y * tile_size)] for a cell [(x, y)] inside the
    [width] by [height] map of the document. *)
Theorem imported_tiles_lie_on_the_grid (m0 : MapLoader) (doc : MapData) (m : MapLoader) :
  load_map m0 doc = Ok m ->
  width m = get (doc_width doc) 0%Z /\
  height m = get (doc_height doc) 0%Z /\
  tile_size m = tile_size m0 /\
  Forall (on_grid (width m) (height m) (tile_size m)) (all_sprites m).
Proof.
  unfold load_map. intros H.
  apply (_create_tiles_invariant (get (doc_width doc) 0%Z)
           (get (doc_height doc) 0%Z) (tile_size m0)) in H.
  - destruct H as (-> & -> & -> & Hgrid & _). now repeat split.
  - unfold import_invariant, sorted_by_type, all_sprites. simpl.
    repeat split; constructor.
Qed.

(** X18.  After [load_map], the groups are sorted by tile type: the wall,
    floor, door, vent, loot and security groups hold only tiles of their
    own type, and the object group only tiles of other types. *)
Theorem imported_tiles_are_sorted_by_type (m0 : MapLoader) (doc : MapData) (m : MapLoader) :
  load_map m0 doc = Ok m -> sorted_by_type m.
Proof.
  unfold load_map. intros H.
  apply (_create_tiles_invariant (get (doc_width doc) 0%Z)
           (get (doc_height doc) 0%Z) (tile_size m0)) in H.
  - apply H.
  - unfold import_invariant, sorted_by_type, all_sprites. simpl.
    repeat split; constructor.
Qed.

Lemma imported_tiles_lie_on_the_grid_witness :
  exists m,
    load_map (MapLoader_init 16) one_cell_level = Ok m /\
    Forall (on_grid 1 1 16) (all_sprites m).
Proof.
  destruct (_create_tiles_total
              (mkMapLoader 16 ∅ (Some one_cell_level) 1 1 [] [] [] [] [] [] []))
    as (m & Hm).
  exists m. split; [exact Hm|].
  destruct (imported_tiles_lie_on_the_grid (MapLoader_init 16) one_cell_level m Hm)
    as (Hw & Hh & Hs & Hgrid).
  rewrite Hw, Hh, Hs in Hgrid. exact Hgrid.
Defined.

Lemma imported_tiles_are_sorted_by_type_witness :
  exists m,
    load_map (MapLoader_init 16) one_cell_level = Ok m /\ sorted_by_type m.
Proof.
  destruct (_create_tiles_total
              (mkMapLoader 16 ∅ (Some one_cell_level) 1 1 [] [] [] [] [] [] []))
    as (m & Hm).
  exists m. split; [exact Hm|].
  exact (imported_tiles_are_sorted_by_type (MapLoader_init 16) one_cell_level m Hm).
Defined.

(** *** Counting the tiles *)

Local Abbreviation filled l :=
  (length (List.filter (fun tile_id => negb (tile_id =? 0)%Z) l)).

Lemma firstn_plus {A} (a c : nat) (l : list A) :
  firstn (a + c) l = firstn a l ++ firstn c (skipn a l).
Proof.
  revert l. induction a as [|a IH]; intros l; [reflexivity|].
  destruct l as [|x l]; simpl; [now rewrite firstn_nil|]. now rewrite IH.
Qed.

Lemma skipn_plus {A} (a b : nat) (l : list A) :
  skipn a (skipn b l) = skipn (b + a) l.
Proof.
  revert l. induction b as [|b IH]; intros l; [reflexivity|].
  destruct l as [|x l]; simpl; [now rewrite skipn_nil|]. apply IH.
Qed.

Lemma filled_app (l1 l2 : list Z) : filled (l1 ++ l2) = (filled l1 + filled l2)%nat.
Proof. now rewrite List.filter_app, length_app. Qed.

Lemma cell_of_data (l : list Z) (k : nat) :
  firstn 1 (skipn k l) = match nth_error l k with Some a => [a] | None => [] end.
Proof.
  revert l. induction k as [|k IH]; intros [|x l]; simpl; try reflexivity.
  apply IH.
Qed.

Lemma create_tile_count layer_data y m x m' :
  (0 <= y * width m + x)%Z ->
  create_tile layer_data y m x = Ok m' ->
  same_frame m m' /\
  length (all_sprites m')
  = (length (all_sprites m)
     + filled (firstn 1 (skipn (Z.to_nat (y * width m + x)) layer_data)))%nat.
Proof.
  intros Hidx. rewrite cell_of_data. unfold create_tile.
  destruct (Z.leb_spec (Z.of_nat (length layer_data)) (y * width m + x)) as [Hout|Hin].
  - intros [= <-]. split; [apply same_frame_refl|].
    replace (nth_error layer_data _) with (@None Z); [simpl; lia|].
    symmetry. apply nth_error_None. lia.
  - destruct (index_in_range layer_data (y * width m + x)%Z) as (tile_id & -> & ->);
      [lia|]. simpl.
    destruct (Z.eqb_spec tile_id 0) as [->|Hnz].
    + intros [= <-]. split; [apply same_frame_refl | simpl; lia].
    + destruct (_get_tile_info m tile_id) as [info|]; [|discriminate]. simpl.
      intros [= <-]. split; [apply add_to_group_frame|].
      rewrite add_to_group_count.
      replace (negb (tile_id =? 0)%Z) with true by lia. simpl. lia.
Qed.

Lemma row_count layer_data (y : nat) (n : nat) :
  forall (a : nat) m m',
    (0 <= width m)%Z ->
    for_each (map Z.of_nat (seq a n)) (create_tile layer_data (Z.of_nat y)) m = Ok m' ->
    same_frame m m' /\
    length (all_sprites m')
    = (length (all_sprites m)
       + filled (firstn n (skipn (y * Z.to_nat (width m) + a) layer_data)))%nat.
Proof.
  induction n as [|n IH]; intros a m m' Hw; simpl.
  - intros [= <-]. split; [apply same_frame_refl | lia].
  - destruct (create_tile layer_data (Z.of_nat y) m (Z.of_nat a)) as [m1|] eqn:E;
      [|discriminate].
    simpl. intros Hrest.
    apply create_tile_count in E as [F1 C1]; [|nia].
    assert (Hw1 : width m1 = width m) by apply F1.
    apply IH in Hrest as [F2 C2]; [|lia].
    split; [eapply same_frame_trans; eassumption|].
    rewrite C2, C1, Hw1.
    replace (Z.to_nat (Z.of_nat y * width m + Z.of_nat a))
      with (y * Z.to_nat (width m) + a)%nat by nia.
    change (S n) with (1 + n)%nat. rewrite firstn_plus, filled_app, skipn_plus.
    replace (y * Z.to_nat (width m) + a + 1)%nat
      with (y * Z.to_nat (width m) + S a)%nat by lia.
    lia.
Qed.

Lemma rows_count layer_data (k : nat) :
  forall (b : nat) m m',
    for_each (map Z.of_nat (seq b k))
      (fun m y => for_each (range (width m)) (create_tile layer_data y) m) m
    = Ok m' ->
    same_frame m m' /\
    length (all_sprites m')
    = (length (all_sprites m)
       + filled (firstn (k * Z.to_nat (width m))
                   (skipn (b * Z.to_nat (width m)) layer_data)))%nat.
Proof.
  induction k as [|k IH]; intros b m m'; simpl.
  - intros [= <-]. split; [apply same_frame_refl | lia].
  - destruct (for_each (range (width m)) (create_tile layer_data (Z.of_nat b)) m)
      as [m1|] eqn:E; [|discriminate].
    simpl. intros Hrest.
    assert (Hrow : same_frame m m1 /\
                   length (all_sprites m1)
                   = (length (all_sprites m)
                      + filled (firstn (Z.to_nat (width m))
                                  (skipn (b * Z.to_nat (width m)) layer_data)))%nat).
    { unfold range in E. destruct (Z.le_gt_cases 0 (width m)) as [Hw|Hw].
      - apply row_count in E as [F C]; [|exact Hw].
        split; [exact F|]. rewrite C. now rewrite Nat.add_0_r.
      - replace (Z.to_nat (width m)) with 0%nat in * by lia. simpl in E.
        injection E as <-. split; [apply same_frame_refl | simpl; lia]. }
    destruct Hrow as [F1 C1].
    assert (Hw1 : width m1 = width m) by apply F1.
    apply IH in Hrest as [F2 C2].
    split; [eapply same_frame_trans; eassumption|].
    rewrite C2, C1, Hw1, firstn_plus, filled_app, skipn_plus.
    replace (b * Z.to_nat (width m) + Z.to_nat (width m))%nat
      with (S b * Z.to_nat (width m))%nat by lia.
    lia.
Qed.

Lemma layers_count (ls : list Layer) :
  forall m m',
    for_each ls
      (fun m layer =>
         for_each (range (height m))
           (fun m y => for_each (range (width m))
                         (create_tile (get (data layer) []) y) m) m) m
    = Ok m' ->
    same_frame m m' /\
    length (all_sprites m')
    = (length (all_sprites m)
       + fold_right Nat.add 0%nat (map (filled_cells (width m) (height m)) ls))%nat.
Proof.
  induction ls as [|layer ls IH]; intros m m'; simpl.
  - intros [= <-]. split; [apply same_frame_refl | lia].
  - destruct (for_each (range (height m)) _ m) as [m1|] eqn:E; [|discriminate].
    simpl. intros Hrest. unfold range in E.
    apply rows_count in E as [F1 C1].
    assert (Hw1 : width m1 = width m) by apply F1.
    assert (Hh1 : height m1 = height m) by apply F1.
    apply IH in Hrest as [F2 C2].
    split; [eapply same_frame_trans; eassumption|].
    rewrite C2, C1, Hw1, Hh1. unfold filled_cells.
    change (0 * Z.to_nat (width m))%nat with 0%nat. rewrite skipn_O.
    rewrite (Nat.mul_comm (Z.to_nat (height m)) (Z.to_nat (width m))).
    lia.
Qed.

(** X19.  [load_map] creates one tile for every nonzero tile ID among the
    first [width * height] entries of each layer's data, and no other: the
    groups together hold as many tiles as the layers have such entries. *)
Theorem import_creates_one_tile_per_filled_cell
    (m0 : MapLoader) (doc : MapData) (m : MapLoader) :
  load_map m0 doc = Ok m ->
  length (all_sprites m) = filled_cells_of doc.
Proof.
  unfold load_map, _create_tiles. simpl map_data. cbv iota. intros H.
  apply layers_count in H as [_ C]. rewrite C. reflexivity.
Qed.

Lemma import_creates_one_tile_per_filled_cell_witness :
  exists m,
    load_map (MapLoader_init 16) one_cell_level = Ok m /\
    length (all_sprites m) = 1%nat.
Proof.
  destruct (_create_tiles_total
              (mkMapLoader 16 ∅ (Some one_cell_level) 1 1 [] [] [] [] [] [] []))
    as (m & Hm).
  exists m. split; [exact Hm|].
  exact (import_creates_one_tile_per_filled_cell (MapLoader_init 16)
           one_cell_level m Hm).
Defined.

End MapGroups.

(* --------------------------------------------------------------------- *)
(** ** Map import: spawn points                                          *)
(* --------------------------------------------------------------------- *)

Section SpawnPoints.
Import MapLoader Spawns.

Lemma to_tile_snaps m x y :
  (0 < tile_size m)%Z ->
  exists px py,
    to_tile m x y = Ok (px, py) /\
    (px mod tile_size m = 0)%Z /\ (py mod tile_size m = 0)%Z /\
    (px <= x < px + tile_size m)%Z /\ (py <= y < py + tile_size m)%Z.
Proof.
  intros Hts. unfold to_tile, floordiv.
  replace (tile_size m =? 0)%Z with false by lia. simpl.
  eexists _, _. split; [reflexivity|].
  pose proof (Z.div_mod x (tile_size m)) as Hx.
  pose proof (Z.mod_pos_bound x (tile_size m) Hts) as Hxm.
  pose proof (Z.div_mod y (tile_size m)) as Hy.
  pose proof (Z.mod_pos_bound y (tile_size m) Hts) as Hym.
  rewrite !Z.mod_mul by lia. repeat split; nia.
Qed.

Lemma first_of_type_snaps m kind objects :
  (0 < tile_size m)%Z ->
  exists px py,
    first_of_type m kind objects = Ok (px, py) /\
    (px mod tile_size m = 0)%Z /\ (py mod tile_size m = 0)%Z /\
    ((Forall (fun obj => has_type kind obj = false) objects /\ px = 0%Z /\ py = 0%Z)
     \/
     (exists pre obj post,
         objects = pre ++ obj :: post /\
         Forall (fun obj => has_type kind obj = false) pre /\
         has_type kind obj = true /\
         (px <= get (object_x obj) 0 < px + tile_size m)%Z /\
         (py <= get (object_y obj) 0 < py + tile_size m)%Z)).
Proof.
  intros Hts. induction objects as [|obj rest IH]; simpl.
  - exists 0%Z, 0%Z. rewrite Z.mod_0_l by lia. repeat split. left. now repeat split.
  - destruct (has_type kind obj) eqn:E.
    + destruct (to_tile_snaps m (get (object_x obj) 0%Z) (get (object_y obj) 0%Z) Hts)
        as (px & py & -> & Hpx & Hpy & Hx & Hy).
      exists px, py. repeat split; try assumption. right.
      exists [], obj, rest. repeat split; try assumption; try lia. constructor.
    + destruct IH as (px & py & -> & Hpx & Hpy & Hcase).
      exists px, py. repeat split; try assumption.
      destruct Hcase as [(Hall & -> & ->) | (pre & o & post & -> & Hpre & Ho & Hx & Hy)].
      * left. repeat split. now constructor.
      * right. exists (obj :: pre), o, post. repeat split; try assumption; try lia.
        now constructor.
Qed.

Lemma first_of_type_needs_a_tile_size m kind objects :
  tile_size m = 0%Z ->
  Exists (fun obj => has_type kind obj = true) objects ->
  first_of_type m kind objects = Raise ZeroDivisionError.
Proof.
  intros Hts. induction 1 as [obj rest Hobj | obj rest _ IH]; simpl.
  - rewrite Hobj. unfold to_tile, floordiv. now rewrite Hts.
  - destruct (has_type kind obj); [|exact IH].
    unfold to_tile, floordiv. now rewrite Hts.
Qed.

(** X20.  The player spawn point and the extraction point are (0, 0) when
    no map is loaded or no object has the type.  Otherwise the first
    object of the type decides, and with a positive tile size the point is
    the corner of the tile that holds the object: a multiple of the tile
    size in both coordinates, at most the object's coordinates and less
    than one tile below them.  With a tile size of 0 and an object of the
    type, both functions raise [ZeroDivisionError]. *)
Theorem spawn_points_snap_to_the_grid (m : MapLoader) (objects : list MapObject) :
  (map_data m = None ->
   get_player_spawn_point m objects = Ok (0, 0)%Z /\
   get_extraction_point m objects = Ok (0, 0)%Z) /\
  (map_data m <> None -> (0 < tile_size m)%Z ->
   forall kind query,
     (kind = "player_spawn" /\ query = get_player_spawn_point) \/
     (kind = "extraction" /\ query = get_extraction_point) ->
     exists px py,
       query m objects = Ok (px, py) /\
       (px mod tile_size m = 0)%Z /\ (py mod tile_size m = 0)%Z /\
       ((Forall (fun obj => has_type kind obj = false) objects
         /\ px = 0%Z /\ py = 0%Z)
        \/
        (exists pre obj post,
            objects = pre ++ obj :: post /\
            Forall (fun obj => has_type kind obj = false) pre /\
            has_type kind obj = true /\
            (px <= get (object_x obj) 0 < px + tile_size m)%Z /\
            (py <= get (object_y obj) 0 < py + tile_size m)%Z))) /\
  (map_data m <> None -> tile_size m = 0%Z ->
   (Exists (fun obj => has_type "player_spawn" obj = true) objects ->
    get_player_spawn_point m objects = Raise ZeroDivisionError) /\
   (Exists (fun obj => has_type "extraction" obj = true) objects ->
    get_extraction_point m objects = Raise ZeroDivisionError)).
Proof.
  unfold get_player_spawn_point, get_extraction_point.
  split; [|split].
  - intros ->. now split.
  - intros Hmap Hts kind query [[-> ->] | [-> ->]];
      destruct (map_data m); try congruence; now apply first_of_type_snaps.
  - intros Hmap Hts. destruct (map_data m); [|congruence].
    split; now apply first_of_type_needs_a_tile_size.
Qed.

Lemma spawn_points_snap_to_the_grid_witness :
  let m := mkMapLoader 16 ∅ (Some one_cell_level) 1 1 [] [] [] [] [] [] [] in
  let objects := [mkMapObject (Some "guard_spawn") (Some 40%Z) (Some 40%Z) None;
                  mkMapObject (Some "player_spawn") (Some 37%Z) (Some 70%Z) None] in
  exists px py, get_player_spawn_point m objects = Ok (px, py)
                /\ (px mod 16 = 0)%Z /\ (py mod 16 = 0)%Z.
Proof.
  intros m objects.
  destruct (spawn_points_snap_to_the_grid m objects) as (_ & Hsnap & _).
  destruct (Hsnap ltac:(discriminate) ltac:(simpl; lia) "player_spawn"
              get_player_spawn_point (or_introl (conj eq_refl eq_refl)))
    as (px & py & Hq & Hx & Hy & _).
  exists px, py. repeat split; assumption.
Defined.

Lemma guard_spawns_listed m objects :
  tile_size m <> 0%Z ->
  exists spawns,
    guard_spawns m objects = Ok spawns /\
    map spawn_patrol_points spawns
    = map (fun obj =>
             map (fun point => (get (point_x point) 0%Z, get (point_y point) 0%Z))
                 (get (object_patrol_points obj) []))
          (List.filter (has_type "guard_spawn") objects) /\
    Forall (fun spawn =>
              (fst (spawn_position spawn) mod tile_size m = 0)%Z /\
              (snd (spawn_position spawn) mod tile_size m = 0)%Z) spawns.
Proof.
  intros Hts. induction objects as [|obj rest IH]; simpl.
  - exists []. repeat split. constructor.
  - destruct IH as (spawns & Hrest & Hpts & Hpos).
    destruct (has_type "guard_spawn" obj); [|eauto].
    unfold to_tile, floordiv. replace (tile_size m =? 0)%Z with false by lia.
    simpl. rewrite Hrest. simpl. eexists. split; [reflexivity|].
    split; [simpl; now rewrite Hpts|].
    constructor; [|exact Hpos]. simpl. rewrite !Z.mod_mul by exact Hts. now split.
Qed.

(** X21.  With a map loaded and a nonzero tile size,
    [get_guard_spawn_points] returns one entry per object of type
    "guard_spawn", in the order of the document; each entry's position is
    a multiple of the tile size in both coordinates, and its patrol points
    are those of the object, absent coordinates read as 0 and nothing
    snapped to the grid. *)
Theorem guard_spawns_follow_the_document (m : MapLoader) (objects : list MapObject) :
  map_data m <> None ->
  tile_size m <> 0%Z ->
  exists spawns,
    get_guard_spawn_points m objects = Ok spawns /\
    length spawns = length (List.filter (has_type "guard_spawn") objects) /\
    map spawn_patrol_points spawns
    = map (fun obj =>
             map (fun point => (get (point_x point) 0%Z, get (point_y point) 0%Z))
                 (get (object_patrol_points obj) []))
          (List.filter (has_type "guard_spawn") objects) /\
    Forall (fun spawn =>
              (fst (spawn_position spawn) mod tile_size m = 0)%Z /\
              (snd (spawn_position spawn) mod tile_size m = 0)%Z) spawns.
Proof.
  intros Hmap Hts. unfold get_guard_spawn_points.
  destruct (map_data m); [|congruence].
  destruct (guard_spawns_listed m objects Hts) as (spawns & Hs & Hpts & Hpos).
  exists spawns. repeat split; try assumption.
  apply (f_equal (@length _)) in Hpts. now rewrite !length_map in Hpts.
Qed.

Lemma guard_spawns_follow_the_document_witness :
  let m := mkMapLoader 16 ∅ (Some one_cell_level) 1 1 [] [] [] [] [] [] [] in
  let objects := [mkMapObject (Some "guard_spawn") (Some 40%Z) (Some 40%Z) None;
                  mkMapObject (Some "player_spawn") (Some 37%Z) (Some 70%Z) None] in
  exists spawns, get_guard_spawn_points m objects = Ok spawns
                 /\ length spawns = 1%nat.
Proof.
  intros m objects.
  destruct (guard_spawns_follow_the_document m objects) as (spawns & Hs & Hlen & _).
  - discriminate.
  - simpl. lia.
  - exists spawns. split; [exact Hs | exact Hlen].
Defined.

End SpawnPoints.

(* --------------------------------------------------------------------- *)
(** ** Player                                                            *)
(* --------------------------------------------------------------------- *)

Section PlayerProperties.
Import Geometry PlayerLogic.

Lemma vlength_origin : vlength (mkVector2 0 0) = 0.
Proof. unfold vlength. simpl. replace (0 * 0 + 0 * 0) with 0 by ring. apply sqrt_0. Qed.

Lemma vlength_scaled (v : Vector2) (k : R) :
  0 <= k -> vlength (vscale v k) = k * vlength v.
Proof.
  intros Hk. unfold vlength, vscale. simpl.
  replace (vx v * k * (vx v * k) + vy v * k * (vy v * k))
    with (k * k * (vx v * vx v + vy v * vy v)) by ring.
  rewrite sqrt_mult by nra. now rewrite sqrt_square.
Qed.

Lemma clamp_bounds (n : R) : 0 <= Rmax 0 (Rmin 100 n) <= 100.
Proof.
  unfold Rmax, Rmin. destruct (Rle_dec 100 n); destruct (Rle_dec 0 _); lra.
Qed.

Lemma clamp_inside (n : R) : 0 <= n <= 100 -> Rmax 0 (Rmin 100 n) = n.
Proof.
  intros Hn. unfold Rmax, Rmin.
  destruct (Rle_dec 100 n); destruct (Rle_dec 0 _); lra.
Qed.

Lemma update_noise_level_frame p :
  velocity (update_noise_level p) = velocity p /\
  acceleration (update_noise_level p) = acceleration p /\
  current_speed (update_noise_level p) = current_speed p /\
  is_looting (update_noise_level p) = is_looting p /\
  is_crouching (update_noise_level p) = is_crouching p /\
  is_running (update_noise_level p) = is_running p /\
  visibility (update_noise_level p) = visibility p /\
  noise_level (update_noise_level p)
  = Rmax 0 (Rmin 100
      (if is_looting p then 10
       else if is_crouching p then vlength (velocity p) * 5
       else if is_running p then vlength (velocity p) * 20
       else vlength (velocity p) * 10)).
Proof.
  unfold update_noise_level.
  destruct (is_looting p) eqn:Hl, (is_crouching p) eqn:Hc,
    (is_running p) eqn:Hr; simpl; repeat split; assumption.
Qed.

(** [Player.move] picks the speed by the crouch and run flags and leaves
    flags, velocity and visibility alone. *)
Lemma player_move_frame p dx dy :
  current_speed (move p dx dy)
  = (if is_crouching p then crouch_speed p
     else if is_running p then run_speed p else walk_speed p) /\
  is_looting (move p dx dy) = is_looting p /\
  is_crouching (move p dx dy) = is_crouching p /\
  is_running (move p dx dy) = is_running p /\
  visibility (move p dx dy) = visibility p /\
  velocity (move p dx dy) = velocity p.
Proof.
  unfold move.
  destruct (is_crouching p) eqn:Hc, (is_running p) eqn:Hr,
    (Rltb 0 dx), (Rltb dx 0), (Rltb 0 dy), (Rltb dy 0),
    (Reqb dx 0 && Reqb dy 0); simpl; repeat split; assumption.
Qed.

Section AnyCallback.

Variable collide_rect_ratio : Rect -> Rect -> bool.

Lemma fits_wrapped (z : Z) : fits_int (wrap_int z) = true.
Proof.
  apply fits_int_spec. unfold wrap_int, INT_MIN, INT_MAX.
  pose proof (Z.mod_pos_bound (z - -2147483648) 4294967296 eq_refl). lia.
Qed.

(** Copying the centre a rectangle reports never raises. *)
Lemma set_center_get (r r0 : Rect) :
  set_center r (get_center r0) = Ok (centred r (get_center r0)).
Proof. unfold set_center, get_center. cbn [fst snd]. now rewrite !fits_wrapped. Qed.

Lemma set_center_trunc (r : Rect) (v : Vector2) :
  set_center r (trunc (vx v), trunc (vy v))
  = if representable v then Ok (centred r (trunc (vx v), trunc (vy v)))
    else Raise TypeError.
Proof. reflexivity. Qed.

Lemma player_collisions p walls old_position :
  match handle_collisions collide_rect_ratio p walls old_position with
  | Ok p' =>
      (velocity p' = velocity p \/ velocity p' = mkVector2 0 0) /\
      same_manner p p'
  | Raise e => e = TypeError /\ representable old_position = false
  end /\
  (representable old_position = true ->
   exists p', handle_collisions collide_rect_ratio p walls old_position = Ok p').
Proof.
  unfold handle_collisions.
  destruct (List.filter (collide_rect_ratio (rect p)) walls);
    [split; [split; [now left | now repeat split] | eauto]|].
  cbn [position set_position rect].
  rewrite set_center_trunc.
  destruct (representable old_position); cbv beta iota delta [rbind].
  - rewrite set_center_get. cbv beta iota delta [rbind].
    split; [|eauto]. split; [now right | now repeat split].
  - split; [now split | discriminate].
Qed.

(** What [update] makes of the velocity before it moves the player. *)
Lemma limited_velocity (p : Player) :
  epsilon <= current_speed p ->
  (if Rltb (current_speed p) (vlength (velocity p)) then
     v <~ scale_to_length (velocity p) (current_speed p) ;;
     Ok (set_velocity p v)
   else Ok p)
  = Ok (set_velocity p
          (if Rltb (current_speed p) (vlength (velocity p))
           then vscale (velocity p) (current_speed p / vlength (velocity p))
           else velocity p)) /\
  vlength (if Rltb (current_speed p) (vlength (velocity p))
           then vscale (velocity p) (current_speed p / vlength (velocity p))
           else velocity p)
  <= current_speed p.
Proof.
  intros Hs. assert (He : 0 < epsilon) by (unfold epsilon; lra).
  destruct (Rltb (current_speed p) (vlength (velocity p))) eqn:Hfast.
  - apply Rltb_true in Hfast. unfold scale_to_length.
    replace (Rltb (vlength (velocity p)) epsilon) with false
      by (symmetry; apply Rltb_false; lra).
    split; [reflexivity|].
    rewrite vlength_scaled.
    + replace (current_speed p / vlength (velocity p) * vlength (velocity p))
        with (current_speed p) by (field; lra).
      lra.
    + apply Rlt_le, Rdiv_lt_0_compat; lra.
  - apply Rltb_false in Hfast.
    split; [|exact Hfast]. destruct p; reflexivity.
Qed.

Lemma player_update_runs (p : Player) (dt : R) (walls : option (list Rect)) :
  epsilon <= current_speed p ->
  match update collide_rect_ratio p dt walls with
  | Ok p' =>
      vlength (velocity p') <= current_speed p /\
      acceleration p' = mkVector2 0 0 /\
      same_manner p p' /\
      noise_level p'
      = Rmax 0 (Rmin 100
          (if is_looting p then 10
           else if is_crouching p then vlength (velocity p') * 5
           else if is_running p then vlength (velocity p') * 20
           else vlength (velocity p') * 10))
  | Raise e =>
      e = TypeError /\
      (representable (destination p) = false \/
       representable (position p) = false)
  end /\
  (representable (destination p) = true ->
   representable (position p) = true ->
   exists p', update collide_rect_ratio p dt walls = Ok p').
Proof.
  intros Hs. unfold update.
  set (p1 := set_velocity (set_velocity p (vadd (velocity p) (acceleration p)))
               (vscale (vadd (velocity p) (acceleration p)) (friction p))).
  change (velocity (set_velocity p (vadd (velocity p) (acceleration p))))
    with (vadd (velocity p) (acceleration p)).
  change (friction (set_velocity p (vadd (velocity p) (acceleration p))))
    with (friction p).
  fold p1.
  destruct (limited_velocity p1 Hs) as (Hv & Hlen).
  rewrite Hv. cbv beta iota delta [rbind].
  change (if Rltb (current_speed p1) (vlength (velocity p1))
          then vscale (velocity p1) (current_speed p1 / vlength (velocity p1))
          else velocity p1) with (next_velocity p) in *.
  set (p2 := set_velocity p1 (next_velocity p)).
  change (position (set_position p2 (vadd (position p2) (velocity p2))))
    with (destination p).
  change (position p2) with (position p).
  rewrite set_center_trunc.
  destruct (representable (destination p)) eqn:Hdest;
    [|split; [split; [reflexivity | now left] | discriminate]].
  cbv beta iota delta [rbind].
  rewrite set_center_get. cbv beta iota delta [rbind].
  set (p3 := set_collision_rect _ _).
  assert (H3 : velocity p3 = next_velocity p /\ same_manner p p3)
    by (split; [reflexivity | now repeat split]).
  destruct H3 as (Hv3 & Hm3).
  set (moved := match walls with
                | Some ((_ :: _) as ws) =>
                    handle_collisions collide_rect_ratio p3 ws (position p)
                | _ => Ok p3
                end).
  assert (Hmoved :
    match moved with
    | Ok p4 =>
        (velocity p4 = next_velocity p \/ velocity p4 = mkVector2 0 0) /\
        same_manner p p4
    | Raise e => e = TypeError /\ representable (position p) = false
    end /\
    (representable (position p) = true -> exists p4, moved = Ok p4)).
  { unfold moved. destruct walls as [[|w ws]|];
      try (split; [split; [now left | exact Hm3] | eauto]).
    destruct (player_collisions p3 (w :: ws) (position p)) as (Hc & Hex).
    split; [|exact Hex].
    destruct (handle_collisions collide_rect_ratio p3 (w :: ws) (position p))
      as [p4|e]; [|exact Hc].
    destruct Hc as (Hvel & Hc1 & Hc2 & Hc3 & Hc4 & Hc5).
    destruct Hm3 as (Hm1 & Hm2 & Hm3 & Hm4 & Hm5).
    split; [rewrite <- Hv3; exact Hvel|].
    unfold same_manner. rewrite Hc1, Hc2, Hc3, Hc4, Hc5. now repeat split. }
  destruct Hmoved as (Hout & Hex).
  split.
  - destruct moved as [p4|e]; [|destruct Hout; split; [assumption | now right]].
    cbv beta iota delta [rbind].
    destruct Hout as (Hvel & Hc1 & Hc2 & Hc3 & Hc4 & Hc5).
    set (p5 := set_acceleration p4 (mkVector2 0 0)).
    destruct (update_noise_level_frame p5)
      as (Hv5 & Ha5 & Hs5 & Hl5 & Hcr5 & Hr5 & Hvis5 & Hn5).
    rewrite Hv5, Ha5, Hn5. unfold same_manner.
    rewrite Hs5, Hl5, Hcr5, Hr5, Hvis5.
    change (velocity p5) with (velocity p4).
    change (current_speed p5) with (current_speed p4).
    change (is_looting p5) with (is_looting p4).
    change (is_crouching p5) with (is_crouching p4).
    change (is_running p5) with (is_running p4).
    change (visibility p5) with (visibility p4).
    rewrite Hc2, Hc3, Hc4.
    split.
    { destruct Hvel as [-> | ->]; [exact Hlen|].
      rewrite vlength_origin. unfold epsilon in Hs. lra. }
    split; [reflexivity|]. split; [now repeat split | reflexivity].
  - intros _ Hold. destruct (Hex Hold) as (p4 & ->).
    cbv beta iota delta [rbind]. eauto.
Qed.

(** X22.  With a speed limit of at least pygame's epsilon (the three
    speeds of the constructor are 1, 2 and 4), [Player.update] raises
    nothing but [TypeError], whatever the walls and the collision
    callback: the error comes from re-centring the rectangle and needs the
    position the player is taken to, or the one it is sent back to, not to
    be representable in C [int]s; when both are, the update returns.  An
    update that returns leaves the player with a velocity no longer than
    the current speed, a zero acceleration, the same current speed and a
    noise level between 0 and 100. *)
Theorem player_update_limits_speed_and_noise
    (p : Player) (dt : R) (walls : option (list Rect)) :
  epsilon <= current_speed p ->
  match update collide_rect_ratio p dt walls with
  | Ok p' =>
      vlength (velocity p') <= current_speed p /\
      0 <= noise_level p' <= 100 /\
      acceleration p' = mkVector2 0 0 /\
      current_speed p' = current_speed p
  | Raise e =>
      e = TypeError /\
      (representable (destination p) = false \/
       representable (position p) = false)
  end /\
  (representable (destination p) = true ->
   representable (position p) = true ->
   exists p', update collide_rect_ratio p dt walls = Ok p').
Proof.
  intros Hs.
  destruct (player_update_runs p dt walls Hs) as (Hout & Hex).
  split; [|exact Hex].
  destruct (update collide_rect_ratio p dt walls) as [p'|e]; [|exact Hout].
  destruct Hout as (Hv & Ha & (Hc & _) & Hn).
  rewrite Hn. repeat split; try assumption; apply clamp_bounds.
Qed.

(** X23.  A frame of input: [Player.move] followed by [Player.update], for
    a player whose three speeds are the constructor's (walk 2, run 4,
    crouch 1).  The frame raises nothing but [TypeError], and returns when
    the position it takes the player to and the position the player has
    are representable in C [int]s.  After a frame that returns, a looting
    player makes a noise of exactly 10, and otherwise the noise is the
    speed times 5, 20 or 10 (crouching, running, walking) with no
    clamping, so at most 5, 80 and 20; the detection radius is therefore
    at most 210 plus one and a half times the visibility. *)
Theorem noise_of_a_frame
    (p : Player) (direction_x direction_y dt : R)
    (walls : option (list Rect)) :
  walk_speed p = 2 -> run_speed p = 4 -> crouch_speed p = 1 ->
  match update collide_rect_ratio (move p direction_x direction_y) dt walls with
  | Ok p' =>
      noise_level p'
      = (if is_looting p then 10
         else if is_crouching p then vlength (velocity p') * 5
         else if is_running p then vlength (velocity p') * 20
         else vlength (velocity p') * 10) /\
      noise_level p'
      <= (if is_looting p then 10
          else if is_crouching p then 5
          else if is_running p then 80 else 20) /\
      get_detection_radius p' <= 210 + visibility p * (3 / 2)
  | Raise e => e = TypeError
  end /\
  (representable (destination (move p direction_x direction_y)) = true ->
   representable (position p) = true ->
   exists p',
     update collide_rect_ratio (move p direction_x direction_y) dt walls
     = Ok p').
Proof.
  intros Hw Hr Hc.
  destruct (player_move_frame p direction_x direction_y)
    as (Hcs & Hml & Hmc & Hmr & Hmv & _).
  assert (Hs : epsilon <= current_speed (move p direction_x direction_y)).
  { rewrite Hcs, Hw, Hr, Hc. unfold epsilon.
    destruct (is_crouching p), (is_running p); lra. }
  destruct (player_update_runs (move p direction_x direction_y) dt walls Hs)
    as (Hout & Hex).
  split.
  - destruct (update collide_rect_ratio (move p direction_x direction_y) dt walls)
      as [p'|e]; [|apply Hout].
    destruct Hout as (Hv & _ & (_ & _ & _ & _ & Hvis) & Hn).
    rewrite Hcs, Hw, Hr, Hc in Hv.
    rewrite Hml, Hmc, Hmr in Hn. rewrite Hmv in Hvis.
    pose proof (vlength_nonneg (velocity p')) as H0.
    unfold get_detection_radius. rewrite Hvis, Hn.
    destruct (is_looting p), (is_crouching p), (is_running p);
      rewrite clamp_inside by lra; repeat split; lra.
  - intros Hdest Hold. apply Hex; [exact Hdest|].
    replace (position (move p direction_x direction_y)) with (position p);
      [exact Hold|].
    unfold move.
    destruct (is_crouching p), (is_running p),
      (Rltb 0 direction_x), (Rltb direction_x 0), (Rltb 0 direction_y),
      (Rltb direction_y 0), (Reqb direction_x 0 && Reqb direction_y 0);
      reflexivity.
Qed.

End AnyCallback.

Lemma still_player (x y : Z) :
  fits_int x = true -> fits_int y = true ->
  representable (destination (Player_init (IZR x) (IZR y))) = true /\
  representable (position (Player_init (IZR x) (IZR y))) = true.
Proof.
  intros Hx Hy.
  assert (Hv : next_velocity (Player_init (IZR x) (IZR y)) = mkVector2 0 0).
  { unfold next_velocity. cbn [velocity acceleration friction current_speed Player_init].
    replace (vscale (vadd (mkVector2 0 0) (mkVector2 0 0)) (85 / 100))
      with (mkVector2 0 0) by (unfold vscale, vadd; simpl; f_equal; ring).
    rewrite vlength_origin. float_cmp. reflexivity. }
  unfold destination. rewrite Hv.
  cbn [position Player_init].
  replace (vadd (mkVector2 (IZR x) (IZR y)) (mkVector2 0 0))
    with (mkVector2 (IZR x) (IZR y)) by (unfold vadd; simpl; f_equal; ring).
  split; now apply representable_IZR.
Qed.

Lemma player_update_limits_speed_and_noise_witness :
  exists p',
    update (fun _ _ => true) (Player_init 40 40) (1 / 60)
      (Some [mkRect 0 0 16 16]) = Ok p'.
Proof.
  destruct (player_update_limits_speed_and_noise (fun _ _ => true)
              (Player_init 40 40) (1 / 60) (Some [mkRect 0 0 16 16]))
    as (_ & Hreturns).
  - unfold epsilon. simpl. lra.
  - destruct (still_player 40 40 eq_refl eq_refl) as (Hd & Hp).
    exact (Hreturns Hd Hp).
Defined.

Lemma noise_of_a_frame_witness :
  match update (fun _ _ => false)
          (move (toggle_run (Player_init 40 40)) 1 0) (1 / 60) None with
  | Ok p' => noise_level p' = vlength (velocity p') * 20 /\ noise_level p' <= 80
  | Raise e => e = TypeError
  end.
Proof.
  destruct (noise_of_a_frame (fun _ _ => false) (toggle_run (Player_init 40 40))
              1 0 (1 / 60) None) as (Hout & _); try reflexivity.
  destruct (update (fun _ _ => false)
              (move (toggle_run (Player_init 40 40)) 1 0) (1 / 60) None)
    as [p'|e]; [|exact Hout].
  destruct Hout as (Hn & Hle & _). split; [exact Hn | exact Hle].
Defined.

(** *** Crouching and running *)

Lemma press_excludes p k :
  is_crouching (press p k) && is_running (press p k) = false.
Proof.
  destruct k; unfold press, toggle_crouch, toggle_run; simpl;
    destruct (is_crouching p) eqn:Hc, (is_running p) eqn:Hr; simpl;
    rewrite ?Hc, ?Hr; reflexivity.
Qed.

Lemma presses_keep_excluding keys : forall p,
  is_crouching p && is_running p = false ->
  is_crouching (presses p keys) && is_running (presses p keys) = false.
Proof.
  induction keys as [|k keys IH]; intros p Hp; [exact Hp|].
  apply (IH (press p k)), press_excludes.
Qed.

(** X24.  Crouching and running exclude each other: after any key
    presses on the crouch and run toggles the two flags are not both set,
    provided they were not both set before or at least one key was
    pressed. *)
Theorem crouch_and_run_exclude_each_other (p : Player) (keys : list Key) :
  keys <> [] \/ is_crouching p && is_running p = false ->
  is_crouching (presses p keys) && is_running (presses p keys) = false.
Proof.
  intros [Hk | Hp].
  - destruct keys as [|k keys]; [congruence|].
    apply (presses_keep_excluding keys (press p k)), press_excludes.
  - now apply presses_keep_excluding.
Qed.

Lemma crouch_and_run_exclude_each_other_witness :
  is_crouching (presses (Player_init 0 0) [RunKey; CrouchKey; RunKey])
  && is_running (presses (Player_init 0 0) [RunKey; CrouchKey; RunKey])
  = false.
Proof.
  apply (crouch_and_run_exclude_each_other (Player_init 0 0)
           [RunKey; CrouchKey; RunKey]).
  left. discriminate.
Defined.

(** *** The inventory *)

Lemma pop_length l : forall i, (length (pop l i) <= length l)%nat.
Proof.
  induction l as [|a l IH]; intros [|i]; simpl; try lia.
  specialize (IH i). lia.
Qed.

Lemma pop_last l (a : nat) : pop (l ++ [a]) (length l) = l.
Proof. induction l as [|b l IH]; simpl; [reflexivity | now rewrite IH]. Qed.

Lemma nth_error_last l (a : nat) : nth_error (l ++ [a]) (length l) = Some a.
Proof. induction l as [|b l IH]; simpl; [reflexivity | exact IH]. Qed.

Lemma call_keeps_the_limit p c :
  (length (inventory p) <= max_inventory p)%nat ->
  (length (inventory (call p c)) <= max_inventory (call p c))%nat /\
  max_inventory (call p c) = max_inventory p.
Proof.
  intros Hp. destruct c as [item | item_index]; simpl.
  - unfold add_to_inventory.
    destruct (length (inventory p) <? max_inventory p)%nat eqn:Hroom; simpl.
    + apply Nat.ltb_lt in Hroom. rewrite length_app. simpl. lia.
    + lia.
  - unfold use_item.
    destruct ((0 <=? item_index) &&
              (item_index <? Z.of_nat (length (inventory p))))%Z; simpl.
    + pose proof (pop_length (inventory p) (Z.to_nat item_index)). lia.
    + lia.
Qed.

(** X25.  The inventory never holds more than [max_inventory] items:
    whatever items are added and whatever indices are used, in any order,
    an inventory within the limit stays within it, and the limit itself
    does not change. *)
Theorem inventory_stays_within_its_limit
    (p : Player) (cs : list InventoryCall) :
  (length (inventory p) <= max_inventory p)%nat ->
  (length (inventory (calls p cs)) <= max_inventory p)%nat /\
  max_inventory (calls p cs) = max_inventory p.
Proof.
  revert p. induction cs as [|c cs IH]; intros p Hp; [now split|].
  destruct (call_keeps_the_limit p c Hp) as (Hc & Hm).
  destruct (IH (call p c) Hc) as (H1 & H2).
  unfold calls in *. simpl. rewrite <- Hm. now split; [|rewrite H2].
Qed.

Lemma inventory_stays_within_its_limit_witness :
  (length (inventory (calls (Player_init 0 0)
     [AddToInventory 1; AddToInventory 2; AddToInventory 3; AddToInventory 4;
      AddToInventory 5; AddToInventory 6; UseItem 0; AddToInventory 7]))
   <= 5)%nat /\
  max_inventory (calls (Player_init 0 0)
     [AddToInventory 1; AddToInventory 2; AddToInventory 3; AddToInventory 4;
      AddToInventory 5; AddToInventory 6; UseItem 0; AddToInventory 7]) = 5%nat.
Proof.
  apply (inventory_stays_within_its_limit (Player_init 0 0)
     [AddToInventory 1; AddToInventory 2; AddToInventory 3; AddToInventory 4;
      AddToInventory 5; AddToInventory 6; UseItem 0; AddToInventory 7]).
  simpl. lia.
Defined.

(** X26.  An item stored while there is room comes back: the addition
    reports success, and using the index of the last slot returns that
    item and leaves the player exactly as before the addition. *)
Theorem stored_item_comes_back (p : Player) (item : nat) :
  (length (inventory p) < max_inventory p)%nat ->
  fst (add_to_inventory p item) = true /\
  use_item (snd (add_to_inventory p item)) (Z.of_nat (length (inventory p)))
  = (Some item, p).
Proof.
  intros Hroom. unfold add_to_inventory.
  replace (length (inventory p) <? max_inventory p)%nat with true
    by (symmetry; now apply Nat.ltb_lt).
  split; [reflexivity|]. simpl. unfold use_item. simpl.
  rewrite length_app. simpl.
  replace ((0 <=? Z.of_nat (length (inventory p))) &&
           (Z.of_nat (length (inventory p))
            <? Z.of_nat (length (inventory p) + 1)))%Z with true
    by (symmetry; apply andb_true_intro; split;
        [apply Z.leb_le | apply Z.ltb_lt]; lia).
  rewrite Nat2Z.id, nth_error_last, pop_last.
  destruct p; reflexivity.
Qed.

Lemma stored_item_comes_back_witness :
  fst (add_to_inventory (Player_init 0 0) 7) = true /\
  use_item (snd (add_to_inventory (Player_init 0 0) 7))
    (Z.of_nat (length (inventory (Player_init 0 0))))
  = (Some 7%nat, Player_init 0 0).
Proof.
  apply (stored_item_comes_back (Player_init 0 0) 7). simpl. lia.
Defined.

End PlayerProperties.
